(** * server-actions: the transport codec, the response wrapper and the
      [useSAR] request orchestrator, embedded from the TypeScript sources.

    The program
    - [JS]           the fragment of the host language the sources rely on:
                     strings, [Number()] with its binary64 rounding,
                     values, completions, property lookup and assignment;
    - [Transform]    src/utils/transform.ts (objectToFormData, formDataToObject);
    - [Types]        src/types/index.ts (ServerActionResponse);
    - [Response]     src/utils/response.ts (sanitizeForTransport,
                     createSuccessResponse, createErrorResponse,
                     serverActionResponse);
    - [Wrapper]      utils/wrapper.ts with response-pattern detection;
    - [WrapperPlain] src/utils/wrapper.ts, the revision without detection;
    - [Request]      src/utils/request.ts (serverActionRequest);
    - [Hook]         src/hooks/useSAR.ts (execute, refetch, reset, mutate,
                     optimisticMutate, the focus listener, mount, unmount).

    The properties
    - [ValueInduction], [HookSpec], [ResponseSpec], [WrapperSpec],
      [NumericSpec], [ScanSpec], [CodecSpec], [EncoderSpec], [DecoderSpec],
      [SessionSpec], [SanitizerSpec], [HelperSpec], [RequestSpec]
                     the notions the statements are written in, among
                     them the grammar of numeric strings and the
                     date-time pattern;
    - [JSFacts], [NumericFacts], [HookFacts], [ResponseFacts],
      [WrapperFacts], [TransformFacts]
                     lemmas and theorems on the reading of numeric
                     strings, supersession, deduplication, the
                     sanitizer's fixed points, the wrappers' catch
                     block, type inference and the round trip;
    - [EncoderFacts], [DecoderFacts], [LeafFacts], [SanitizerFacts],
      [HelperFacts], [PipelineFacts], [SessionFacts]
                     lemmas and theorems on the entries the encoder
                     writes, the object the decoder builds, dates and
                     files, the sanitizer as a map, the response helper,
                     the request helper, and the cache timer, local
                     updates and mounting of the orchestrator. *)

From Stdlib Require Import String Ascii List ZArith NArith Lia Bool.
Import ListNotations.
Open Scope string_scope.

(* ================================================================== *)
(** ** Host language fragment *)
(* ================================================================== *)

Module JS.

(** *** Characters and strings

    A string is a sequence of code units, each below 256 (U+0000 to
    U+00FF); text with code units above that range is not represented. *)

Definition code (c : ascii) : nat := nat_of_ascii c.

Definition is_digit (c : ascii) : bool :=
  (48 <=? code c)%nat && (code c <=? 57)%nat.

Definition is_hex_digit (c : ascii) : bool :=
  is_digit c
  || ((65 <=? code c)%nat && (code c <=? 70)%nat)
  || ((97 <=? code c)%nat && (code c <=? 102)%nat).

Definition is_octal_digit (c : ascii) : bool :=
  (48 <=? code c)%nat && (code c <=? 55)%nat.

Definition is_binary_digit (c : ascii) : bool :=
  (48 <=? code c)%nat && (code c <=? 49)%nat.

(** StrWhiteSpaceChar below U+0100: TAB, LF, VT, FF, CR, SP and the
    no-break space U+00A0. *)
Definition is_space (c : ascii) : bool :=
  ((9 <=? code c)%nat && (code c <=? 13)%nat) || (code c =? 32)%nat
  || (code c =? 160)%nat.

Definition digit_val (c : ascii) : N :=
  if is_digit c then N.of_nat (code c - 48)
  else if (97 <=? code c)%nat then N.of_nat (code c - 87)
  else N.of_nat (code c - 55).

Definition digit_char (d : N) : ascii := ascii_of_nat (48 + N.to_nat d).

Definition chars (s : string) : list ascii := list_ascii_of_string s.
Definition text (cs : list ascii) : string := string_of_list_ascii cs.

(** Value of a digit sequence in a given radix, most significant first. *)
Definition digits_val (radix : N) (ds : list ascii) : N :=
  fold_left (fun acc c => radix * acc + digit_val c)%N ds 0%N.

(** Longest prefix satisfying [p], and the rest. *)
Fixpoint span (p : ascii -> bool) (cs : list ascii) : list ascii * list ascii :=
  match cs with
  | c :: rest =>
      if p c then let (d, t) := span p rest in (c :: d, t) else ([], cs)
  | [] => ([], [])
  end.

Fixpoint drop_spaces (cs : list ascii) : list ascii :=
  match cs with
  | c :: rest => if is_space c then drop_spaces rest else cs
  | [] => []
  end.

Definition trim (cs : list ascii) : list ascii :=
  rev (drop_spaces (rev (drop_spaces cs))).

(** Decimal digits of a natural number, least significant first. *)
Fixpoint N_digits_rev (fuel : nat) (n : N) : list ascii :=
  match fuel with
  | O => []
  | S f =>
      if (n <? 10)%N then [digit_char n]
      else digit_char (n mod 10) :: N_digits_rev f (n / 10)
  end.

Definition N_digits (n : N) : list ascii :=
  rev (N_digits_rev (S (N.to_nat (N.size n))) n).

(** Template-literal rendering of an array index, [`${index}`]. *)
Definition index_text (i : nat) : string := text (N_digits (N.of_nat i)).

(** *** Numbers

    A number is NaN, an infinity, or a finite decimal [(-1)^neg * m * 10^e]
    kept in lowest terms ([m] has no trailing zero; zero is [m = 0], [e = 0]).
    The value of a literal is such a decimal; a binary64 value is written
    as the decimal that identifies it (see Binary64 below). *)

Inductive number :=
| NaN
| Infinity (neg : bool)
| Finite (neg : bool) (m : N) (e : Z).

Definition isNaN (x : number) : bool :=
  match x with NaN => true | _ => false end.

Fixpoint strip_zeros (fuel : nat) (m : N) (e : Z) : N * Z :=
  match fuel with
  | O => (m, e)
  | S f =>
      if (m =? 0)%N then (0%N, 0%Z)
      else if (m mod 10 =? 0)%N then strip_zeros f (m / 10)%N (e + 1)%Z
      else (m, e)
  end.

Definition finite (neg : bool) (m : N) (e : Z) : number :=
  let (m', e') := strip_zeros (S (N.to_nat (N.size m))) m e in
  Finite neg m' e'.

(** ExponentPart_opt followed by the end of the literal. *)
Definition parse_exponent (cs : list ascii) : option Z :=
  match cs with
  | [] => Some 0%Z
  | c :: rest =>
      if (code c =? 101)%nat || (code c =? 69)%nat then
        let '(negative, rest') :=
          match rest with
          | s :: t =>
              if (code s =? 43)%nat then (false, t)
              else if (code s =? 45)%nat then (true, t)
              else (false, rest)
          | [] => (false, rest)
          end in
        let (ds, tail) := span is_digit rest' in
        match ds, tail with
        | _ :: _, [] =>
            let v := Z.of_N (digits_val 10 ds) in
            Some (if negative then (- v)%Z else v)
        | _, _ => None
        end
      else None
  end.

(** StrUnsignedDecimalLiteral other than [Infinity]. *)
Definition parse_unsigned_decimal (cs : list ascii) : option (N * Z) :=
  let (int_part, rest) := span is_digit cs in
  match rest with
  | c :: rest1 =>
      if (code c =? 46)%nat then
        let (frac_part, rest2) := span is_digit rest1 in
        match int_part, frac_part with
        | [], [] => None
        | _, _ =>
            match parse_exponent rest2 with
            | Some e =>
                Some (digits_val 10 (int_part ++ frac_part)%list,
                      (e - Z.of_nat (length frac_part))%Z)
            | None => None
            end
        end
      else
        match int_part with
        | [] => None
        | _ => match parse_exponent rest with
               | Some e => Some (digits_val 10 int_part, e)
               | None => None
               end
        end
  | [] =>
      match int_part with
      | [] => None
      | _ => Some (digits_val 10 int_part, 0%Z)
      end
  end.

Definition parse_decimal (neg : bool) (cs : list ascii) : number :=
  if (text cs =? "Infinity") then Infinity neg
  else match parse_unsigned_decimal cs with
       | Some (m, e) => finite neg m e
       | None => NaN
       end.

(** NonDecimalIntegerLiteral: [0x], [0o], [0b] prefixes, unsigned. *)
Definition parse_radix (cs : list ascii) : option number :=
  match cs with
  | z :: p :: ds =>
      if (code z =? 48)%nat then
        let lit (ok : ascii -> bool) (radix : N) :=
          match ds with
          | [] => Some NaN
          | _ => if forallb ok ds
                 then Some (finite false (digits_val radix ds) 0)
                 else Some NaN
          end in
        if (code p =? 120)%nat || (code p =? 88)%nat then lit is_hex_digit 16%N
        else if (code p =? 111)%nat || (code p =? 79)%nat then lit is_octal_digit 8%N
        else if (code p =? 98)%nat || (code p =? 66)%nat then lit is_binary_digit 2%N
        else None
      else None
  | _ => None
  end.

(** StringToNumber before rounding: the mathematical value of the literal
    [s], NaN when [s] is no StringNumericLiteral. *)
Definition literal (s : string) : number :=
  match trim (chars s) with
  | [] => Finite false 0 0
  | c :: rest =>
      match parse_radix (c :: rest) with
      | Some x => x
      | None =>
          if (code c =? 43)%nat then parse_decimal false rest
          else if (code c =? 45)%nat then parse_decimal true rest
          else parse_decimal false (c :: rest)
      end
  end.

(** *** Binary64

    [Number(s)] is the binary64 value nearest to the value of the literal,
    ties going to the even significand.  A finite binary64 value is kept as
    the decimal [Number::toString] prints for it: the shortest
    [m * 10^e] that rounds to it ([m] without trailing zero), and the one
    closest to it when several are as short. *)

(** [p / q * 2^(-E)] as a fraction. *)
Definition scaled (p q : N) (E : Z) : N * N :=
  if (0 <=? E)%Z then (p, (q * 2 ^ Z.to_N E)%N)
  else ((p * 2 ^ Z.to_N (- E))%N, q).

(** [p / q * 10^(-t)] as a fraction. *)
Definition shifted (p q : N) (t : Z) : N * N :=
  if (0 <=? t)%Z then (p, (q * 10 ^ Z.to_N t)%N)
  else ((p * 10 ^ Z.to_N (- t))%N, q).

(** The binary64 value nearest to [p / q], for [q > 0]: [Some (M, E)] is
    [M * 2^E], with [2^52 <= M < 2^53] and [-1074 <= E <= 971], or with
    [M < 2^52] and [E = -1074] (zero and the subnormal values); [None] is
    an overflow. *)
Definition nearest_binary64 (p q : N) : option (N * Z) :=
  if (p =? 0)%N then Some (0%N, (-1074)%Z)
  else
    let E0 := (Z.of_N (N.log2 p) - Z.of_N (N.log2 q) - 52)%Z in
    let E1 := let (n, d) := scaled p q E0 in
              if (n / d <? 2 ^ 52)%N then (E0 - 1)%Z else E0 in
    let E := Z.max E1 (-1074) in
    let (n, d) := scaled p q E in
    let M := (n / d)%N in
    let r := (n mod d)%N in
    let M := if (d <? 2 * r)%N || ((d =? 2 * r)%N && N.odd M)
             then (M + 1)%N else M in
    let (M, E) := if (M =? 2 ^ 53)%N then ((2 ^ 52)%N, (E + 1)%Z) else (M, E) in
    if (971 <? E)%Z then None else Some (M, E).

(** The least [n], from [start] on, with [p / q < 10^n]. *)
Fixpoint first_power (fuel : nat) (p q : N) (n : Z) : Z :=
  match fuel with
  | O => n
  | S f =>
      let (a, b) := shifted p q n in
      if (a <? b)%N then n else first_power f p q (n + 1)%Z
  end.

(** The [n] with [10^(n-1) <= p / q < 10^n], for [p > 0]. *)
Definition decimal_exponent (p q : N) : Z :=
  first_power 5 p q
    (((Z.of_N (N.log2 p) - Z.of_N (N.log2 q)) * 30103) / 100000 - 1)%Z.

(** The digits of [x = p / q], which is the binary64 value [b]: for
    [k = 1, 2, ...] the two [k]-digit decimals around [x] are tried, and the
    first [k] at which one of them rounds to [b] gives the result, the one
    closer to [x] if both do (the even one on a tie). *)
Fixpoint shortest (fuel : nat) (b : N * Z) (p q : N) (n k : Z) : N * Z :=
  let t := (n - k)%Z in
  let (a, d) := shifted p q t in
  let lo := (a / d)%N in
  let r := (a mod d)%N in
  let rounds_to_b (s : N) :=
    let (p', q') := shifted s 1 (- t) in
    match nearest_binary64 p' q' with
    | Some (M, E) => (M =? fst b)%N && (E =? snd b)%Z
    | None => false
    end in
  let closer_lo := (2 * r <? d)%N || ((2 * r =? d)%N && N.even lo) in
  match fuel with
  | O => (lo, t)
  | S f =>
      match rounds_to_b lo, rounds_to_b (lo + 1)%N with
      | true, true => (if closer_lo then lo else (lo + 1)%N, t)
      | true, false => (lo, t)
      | false, true => ((lo + 1)%N, t)
      | false, false => shortest f b p q n (k + 1)%Z
      end
  end.

(** The binary64 value nearest to [(-1)^neg * m * 10^e]. *)
Definition binary64 (neg : bool) (m : N) (e : Z) : number :=
  let (p, q) := shifted m 1 (- e) in
  match nearest_binary64 p q with
  | None => Infinity neg
  | Some (M, E) =>
      if (M =? 0)%N then Finite neg 0 0
      else
        let (p', q') := scaled M 1 (- E) in
        let (s, t) := shortest 17 (M, E) p' q' (decimal_exponent p' q') 1 in
        finite neg s t
  end.

(** Rounding leaves NaN and the infinities alone. *)
Definition rounded (x : number) : number :=
  match x with
  | Finite neg m e => binary64 neg m e
  | _ => x
  end.

(** [Number(s)] on a string: StringToNumber. *)
Definition Number (s : string) : number := rounded (literal s).

(** The numbers of the language are the binary64 values: rounding leaves
    them as they are. *)
Definition is_binary64 (x : number) : Prop := rounded x = x.

Definition zeros (n : nat) : list ascii := repeat "0"%char n.

(** [String(x)] on a number: Number::toString with radix 10. *)
Definition Number_toString (x : number) : string :=
  match x with
  | NaN => "NaN"
  | Infinity false => "Infinity"
  | Infinity true => "-Infinity"
  | Finite neg m e =>
      if (m =? 0)%N then "0"
      else
        let ds := N_digits m in
        let k := Z.of_nat (length ds) in
        let n := (k + e)%Z in
        let body :=
          if ((k <=? n) && (n <=? 21))%Z then
            (ds ++ zeros (Z.to_nat (n - k)))%list
          else if ((0 <? n) && (n <=? 21))%Z then
            (firstn (Z.to_nat n) ds ++ "."%char :: skipn (Z.to_nat n) ds)%list
          else if ((-6 <? n) && (n <=? 0))%Z then
            ("0"%char :: "."%char :: zeros (Z.to_nat (- n)) ++ ds)%list
          else
            let x := (n - 1)%Z in
            let sign := if (x <? 0)%Z then "-"%char else "+"%char in
            let ex := N_digits (Z.abs_N x) in
            match ds with
            | [d] => d :: "e"%char :: sign :: ex
            | d :: more =>
                (d :: "."%char :: more ++ "e"%char :: sign :: ex)%list
            | [] => []
            end in
        text (if neg then "-"%char :: body else body)
  end.

(** *** Values *)

(** A [Date] object is identified by the text it was constructed from,
    [new Date(src)]; [Date_invalid] is a date whose time value is NaN. *)
Inductive date :=
| Date_new (src : string)
| Date_invalid.

(** [File] and [Blob] objects: the attributes the sources read. *)
Record file := {
  file_isFile : bool;      (* [instanceof File]; otherwise a bare Blob *)
  file_name : string;
  file_size : N;
  file_type : string
}.

(** [Error] objects. *)
Record error_obj := {
  err_name : string;
  err_message : string
}.

(** Language values.  An array keeps its slots ([None] is a hole) and its
    non-index own properties; an object keeps its own enumerable properties
    in enumeration order.  [VOther] stands for any remaining object or
    primitive (class instance, function, symbol, bigint) that owns none of
    the properties the sources inspect; it carries its string conversion. *)
#[local] Set Warnings "-register-all".
Inductive value :=
| VUndefined
| VNull
| VBool (b : bool)
| VNum (n : number)
| VStr (s : string)
| VDate (d : date)
| VFile (f : file)
| VError (e : error_obj)
| VOther (repr : string)
| VArr (slots : list (option value)) (props : list (string * value))
| VObj (props : list (string * value)).
#[local] Set Warnings "register-all".

(** *** Completions: a call returns, throws, or leaves the embedding.

    [Unmodelled] marks behaviour that depends on built-in objects which are
    not represented (a write through the prototype chain, an assignment to
    an array's [length], a property stored on a host object, a date whose
    rendering depends on the host's parser and time zone), and the one
    case in which a new property does not go last in enumeration order. *)
Inductive completion (A : Type) :=
| Normal (a : A)
| Throw (e : value)
| Unmodelled.
Arguments Normal {A} a.
Arguments Throw {A} e.
Arguments Unmodelled {A}.

Definition bind {A B} (c : completion A) (k : A -> completion B) : completion B :=
  match c with
  | Normal a => k a
  | Throw e => Throw e
  | Unmodelled => Unmodelled
  end.

Declare Scope js_scope.
Delimit Scope js_scope with js.
Notation "x <- c ;; k" := (bind c (fun x => k))
  (at level 61, c at next level, right associativity) : js_scope.

(** [try { body } catch (error) { handler }]. *)
Definition try_catch {A} (body : completion A) (handler : value -> completion A)
  : completion A :=
  match body with
  | Normal a => Normal a
  | Throw e => handler e
  | Unmodelled => Unmodelled
  end.

Definition TypeError (msg : string) : value :=
  VError {| err_name := "TypeError"; err_message := msg |}.
Definition RangeError (msg : string) : value :=
  VError {| err_name := "RangeError"; err_message := msg |}.
(** [new Error(msg)]. *)
Definition new_Error (msg : string) : error_obj :=
  {| err_name := "Error"; err_message := msg |}.

(** *** Own properties of objects, in enumeration order *)

Fixpoint lookup (key : string) (props : list (string * value)) : option value :=
  match props with
  | [] => None
  | (k, v) :: rest => if k =? key then Some v else lookup key rest
  end.

Definition has_own (key : string) (props : list (string * value)) : bool :=
  match lookup key props with Some _ => true | None => false end.

(** [props[key] = v]: overwrite in place, or append a new property.  A new
    property goes last in enumeration order unless its name is an array
    index that belongs before a name already there ([enumerated_before]
    below): [assign] gives no answer in that case, and the loops that copy
    an object add its names in the order they enumerate them. *)
Fixpoint obj_set (key : string) (v : value) (props : list (string * value))
  : list (string * value) :=
  match props with
  | [] => [(key, v)]
  | (k, x) :: rest =>
      if k =? key then (k, v) :: rest else (k, x) :: obj_set key v rest
  end.

(** Names every ordinary object inherits from [Object.prototype]. *)
Definition Object_prototype_names : list string :=
  [ "constructor"; "__proto__"; "hasOwnProperty"; "isPrototypeOf";
    "propertyIsEnumerable"; "toLocaleString"; "toString"; "valueOf";
    "__defineGetter__"; "__defineSetter__";
    "__lookupGetter__"; "__lookupSetter__" ].

(** Method names arrays inherit from [Array.prototype] (ES2023). *)
Definition Array_prototype_names : list string :=
  [ "at"; "concat"; "copyWithin"; "entries"; "every"; "fill"; "filter";
    "find"; "findIndex"; "findLast"; "findLastIndex"; "flat"; "flatMap";
    "forEach"; "includes"; "indexOf"; "join"; "keys"; "lastIndexOf"; "map";
    "pop"; "push"; "reduce"; "reduceRight"; "reverse"; "shift"; "slice";
    "some"; "sort"; "splice"; "toReversed"; "toSorted"; "toSpliced";
    "unshift"; "values"; "with" ].

Definition mem (key : string) (names : list string) : bool :=
  existsb (String.eqb key) names.

(** Canonical array index: a decimal numeral without superfluous leading
    zero, below 2^32 - 1. *)
Definition array_index (key : string) : option nat :=
  match chars key with
  | [] => None
  | c :: rest =>
      if forallb is_digit (c :: rest)
         && implb (code c =? 48)%nat (length rest =? 0)%nat
      then
        let v := digits_val 10 (c :: rest) in
        if (v <? 4294967295)%N then Some (N.to_nat v) else None
      else None
  end.

(** An object enumerates the names that are array indices first, in
    ascending order, and then the other names in the order of their
    creation.  A new name [key] is therefore enumerated before a name of
    [props] when it is an index and that name is a larger index or no
    index. *)
Definition enumerated_before (key : string) (props : list (string * value)) : bool :=
  match array_index key with
  | Some i =>
      existsb (fun field => match array_index (fst field) with
                            | Some j => (i <? j)%nat
                            | None => true
                            end) props
  | None => false
  end.

(** [slots[i] = v], extending the array with holes when [i] is past the end. *)
Fixpoint slot_set (i : nat) (v : value) (slots : list (option value))
  : list (option value) :=
  match i, slots with
  | O, [] => [Some v]
  | O, _ :: rest => Some v :: rest
  | S j, [] => None :: slot_set j v []
  | S j, s :: rest => s :: slot_set j v rest
  end.

Definition slot_get (i : nat) (slots : list (option value)) : option value :=
  match nth_error slots i with
  | Some (Some v) => Some v
  | _ => None
  end.

(** Outcome of looking a key up through [in] followed by a read. *)
Inductive property :=
| Own (v : value)        (* an own property holding [v] *)
| Inherited              (* found on a prototype: a built-in member *)
| Absent.

(** [key in current] together with [current[key]], for objects and arrays.
    Primitives make [in] throw; host objects are not represented. *)
Definition find_property (current : value) (key : string) : completion property :=
  match current with
  | VObj props =>
      match lookup key props with
      | Some v => Normal (Own v)
      | None =>
          Normal (if mem key Object_prototype_names then Inherited else Absent)
      end
  | VArr slots props =>
      match array_index key with
      | Some i =>
          match slot_get i slots with
          | Some v => Normal (Own v)
          | None => Normal Absent
          end
      | None =>
          if key =? "length" then
            Normal (Own (VNum (finite false (N.of_nat (length slots)) 0)))
          else
            match lookup key props with
            | Some v => Normal (Own v)
            | None =>
                Normal (if mem key Array_prototype_names
                           || mem key Object_prototype_names
                        then Inherited else Absent)
            end
      end
  | VDate _ | VFile _ | VError _ | VOther _ => Unmodelled
  | VUndefined | VNull | VBool _ | VNum _ | VStr _ =>
      Throw (TypeError ("Cannot use 'in' operator to search for '" ++ key ++ "'"))
  end.

(** [current[key] = v] in strict mode. *)
Definition assign (current : value) (key : string) (v : value) : completion value :=
  match current with
  | VObj props =>
      if key =? "__proto__" then Unmodelled
      else if negb (has_own key props) && enumerated_before key props
      then Unmodelled
      else Normal (VObj (obj_set key v props))
  | VArr slots props =>
      match array_index key with
      | Some i => Normal (VArr (slot_set i v slots) props)
      | None =>
          if (key =? "length") || (key =? "__proto__") then Unmodelled
          else Normal (VArr slots (obj_set key v props))
      end
  | VDate _ | VFile _ | VError _ | VOther _ => Unmodelled
  | VUndefined | VNull =>
      Throw (TypeError ("Cannot set properties of " ++
                        (match current with VNull => "null" | _ => "undefined" end)
                        ++ " (setting '" ++ key ++ "')"))
  | VBool _ | VNum _ | VStr _ =>
      Throw (TypeError ("Cannot create property '" ++ key ++ "' on a primitive"))
  end.

(** *** Conversions *)

(** ToBoolean. *)
Definition truthy (v : value) : bool :=
  match v with
  | VUndefined | VNull => false
  | VBool b => b
  | VNum NaN => false
  | VNum (Finite _ m _) => negb (m =? 0)%N
  | VNum (Infinity _) => true
  | VStr s => negb (s =? "")
  | _ => true
  end.

(** [a || b]. *)
Definition or_else (a b : value) : value := if truthy a then a else b.

(** [String(v)].  Dates and arrays render through host code and are left
    to [Unmodelled].  An object literal converts through the inherited
    [toString]; when an own [toString] property shadows it, that property is
    one of the values above, hence not callable, the inherited [valueOf]
    returns the object itself, and the conversion throws. *)
Definition ToString (v : value) : completion string :=
  match v with
  | VUndefined => Normal "undefined"
  | VNull => Normal "null"
  | VBool true => Normal "true"
  | VBool false => Normal "false"
  | VNum n => Normal (Number_toString n)
  | VStr s => Normal s
  | VFile f => Normal (if file_isFile f then "[object File]" else "[object Blob]")
  | VError e =>
      Normal (if err_message e =? "" then err_name e
              else if err_name e =? "" then err_message e
              else err_name e ++ ": " ++ err_message e)
  | VOther repr => Normal repr
  | VObj props =>
      if has_own "toString" props
      then Throw (TypeError "Cannot convert object to primitive value")
      else Normal "[object Object]"
  | VDate _ | VArr _ _ => Unmodelled
  end.

(** *** Dates *)

Definition two_digits (a b : ascii) : nat :=
  10 * (code a - 48) + (code b - 48).

Definition days_in_month (year month : nat) : nat :=
  match month with
  | 2 => if ((year mod 4 =? 0) && negb (year mod 100 =? 0) || (year mod 400 =? 0))%nat
         then 29 else 28
  | 4 | 6 | 9 | 11 => 30
  | _ => 31
  end.

(** The text is exactly [YYYY-MM-DDTHH:mm:ss.sssZ] and names a real instant:
    the form [toISOString] itself produces for years 0000-9999. *)
Definition canonical_iso (s : string) : bool :=
  match chars s with
  | [y1; y2; y3; y4; d1; m1; m2; d2; a1; a2; t; h1; h2; c1; n1; n2; c2;
     s1; s2; dot; f1; f2; f3; z] =>
      forallb is_digit
        [y1; y2; y3; y4; m1; m2; a1; a2; h1; h2; n1; n2; s1; s2; f1; f2; f3]
      && forallb (fun '(c, n) => (code c =? n)%nat)
           [(d1, 45); (d2, 45); (t, 84); (c1, 58); (c2, 58); (dot, 46); (z, 90)]
      && (let year := 100 * two_digits y1 y2 + two_digits y3 y4 in
          let month := two_digits m1 m2 in
          let day := two_digits a1 a2 in
          (1 <=? month) && (month <=? 12)
          && (1 <=? day) && (day <=? days_in_month year month)
          && (two_digits h1 h2 <=? 23)
          && (two_digits n1 n2 <=? 59)
          && (two_digits s1 s2 <=? 59))%nat
  | _ => false
  end.

(** [d.toISOString()].  An invalid date throws; a date built from canonical
    text renders as that text; any other source text is parsed by the host
    (time zone, legacy formats) and is not decided here. *)
Definition toISOString (d : date) : completion string :=
  match d with
  | Date_invalid => Throw (RangeError "Invalid time value")
  | Date_new src => if canonical_iso src then Normal src else Unmodelled
  end.

End JS.

(* ================================================================== *)
(** ** src/utils/transform.ts *)
(* ================================================================== *)

Module Transform.
Import JS.
Local Open Scope js_scope.

(** [FormDataEntryValue = string | File]; a [FormData] is its entry list. *)
Inductive FormDataEntryValue :=
| EntryString (s : string)
| EntryFile (f : file).

Definition FormData := list (string * FormDataEntryValue).

(** [formData.append(key, blob)] stores a bare Blob as a File named "blob". *)
Definition as_File (f : file) : file :=
  if file_isFile f then f
  else {| file_isFile := true; file_name := "blob";
          file_size := file_size f; file_type := file_type f |}.

(** [value.constructor === Object] for an object literal: true unless an own
    property shadows the inherited [constructor]. *)
Definition constructor_is_Object (props : list (string * value)) : bool :=
  negb (has_own "constructor" props).

(** The inner closure of [objectToFormData]; the result lists the entries it
    appends to [formData], in order. *)
Fixpoint appendToFormData (value : JS.value) (key : string) : completion FormData :=
  match value with
  | VUndefined | VNull => Normal [(key, EntryString "")]
  | VFile f => Normal [(key, EntryFile (as_File f))]
  | VArr slots _ =>
      (fix forEach (items : list (option JS.value)) (index : nat)
         : completion FormData :=
         match items with
         | [] => Normal []
         | None :: rest => forEach rest (S index)
         | Some item :: rest =>
             here <- appendToFormData item (key ++ "[" ++ index_text index ++ "]") ;;
             after <- forEach rest (S index) ;;
             Normal (here ++ after)%list
         end) slots 0
  | VObj props =>
      if constructor_is_Object props then
        (fix forEach (entries : list (string * JS.value)) : completion FormData :=
           match entries with
           | [] => Normal []
           | (nestedKey, nestedValue) :: rest =>
               let fullKey :=
                 if key =? "" then nestedKey else key ++ "." ++ nestedKey in
               here <- appendToFormData nestedValue fullKey ;;
               after <- forEach rest ;;
               Normal (here ++ after)%list
           end) props
      else
        s <- ToString value ;; Normal [(key, EntryString s)]
  | VDate d => s <- toISOString d ;; Normal [(key, EntryString s)]
  | _ => s <- ToString value ;; Normal [(key, EntryString s)]
  end.

Fixpoint indexed (slots : list (option value)) (index : nat)
  : list (string * value) :=
  match slots with
  | [] => []
  | None :: rest => indexed rest (S index)
  | Some v :: rest => (index_text index, v) :: indexed rest (S index)
  end.

(** [Object.keys(obj)] paired with [obj[key]]. *)
Definition own_entries (obj : value) : completion (list (string * value)) :=
  match obj with
  | VObj props => Normal props
  | VArr slots props => Normal (indexed slots 0 ++ props)%list
  | VStr s =>
      Normal (indexed (map (fun c => Some (VStr (String c ""))) (chars s)) 0)
  | VUndefined | VNull =>
      Throw (TypeError "Cannot convert undefined or null to object")
  | VBool _ | VNum _ | VDate _ | VFile _ | VError _ => Normal []
  | VOther _ => Unmodelled
  end.

Fixpoint appendAll (prefix : string) (entries : list (string * value))
  : completion FormData :=
  match entries with
  | [] => Normal []
  | (key, v) :: rest =>
      let fullKey := if prefix =? "" then key else prefix ++ "." ++ key in
      here <- appendToFormData v fullKey ;;
      after <- appendAll prefix rest ;;
      Normal (here ++ after)%list
  end.

Definition objectToFormData (obj : value) (prefix : string) : completion FormData :=
  entries <- own_entries obj ;;
  appendAll prefix entries.

(** [path.split(/[.\[\]]/)]. *)
Definition is_separator (c : ascii) : bool :=
  (code c =? 46)%nat || (code c =? 91)%nat || (code c =? 93)%nat.

Fixpoint split (path : string) : list string :=
  match path with
  | EmptyString => [""]
  | String c rest =>
      if is_separator c then "" :: split rest
      else match split rest with
           | piece :: more => String c piece :: more
           | [] => [String c ""]
           end
  end.

(** [path.split(/[.\[\]]/).filter(Boolean)]. *)
Definition path_keys (path : string) : list string :=
  filter (fun piece => negb (piece =? "")) (split path).

(** [!isNaN(Number(nextKey))]. *)
Definition isNumeric (key : string) : bool := negb (isNaN (Number key)).

(** [/^\d{4}-\d{2}-\d{2}T\d{2}:\d{2}:\d{2}/]. *)
Definition matches_date_pattern (s : string) : bool :=
  match chars s with
  | y1 :: y2 :: y3 :: y4 :: d1 :: m1 :: m2 :: d2 :: a1 :: a2 :: t
      :: h1 :: h2 :: c1 :: n1 :: n2 :: c2 :: s1 :: s2 :: _ =>
      forallb is_digit [y1; y2; y3; y4; m1; m2; a1; a2; h1; h2; n1; n2; s1; s2]
      && forallb (fun '(c, n) => (code c =? n)%nat)
           [(d1, 45); (d2, 45); (t, 84); (c1, 58); (c2, 58)]
  | _ => false
  end.

(** The type inference at the end of [setNestedValue]. *)
Definition processedValue (value : FormDataEntryValue) : JS.value :=
  match value with
  | EntryFile f => VFile f
  | EntryString value =>
      if matches_date_pattern value then VDate (Date_new value)
      else if negb (isNaN (Number value)) && negb (value =? "") then
        VNum (Number value)
      else if (value =? "true") || (value =? "false") then
        VBool (value =? "true")
      else if value =? "" then VNull
      else VStr value
  end.

(** The container installed for a missing key. *)
Definition fresh_container (isNextKeyNumeric : bool) : value :=
  if isNextKeyNumeric then VArr [] [] else VObj [].

(** The loop of [setNestedValue] followed by the final assignment.  The
    source mutates [current] in place; here each level returns the updated
    container, which the level above stores back under the same key. *)
Fixpoint walk (keys : list string) (final : value) (current : value)
  : completion value :=
  match keys with
  | [] => assign current "undefined" final
  | [finalKey] => assign current finalKey final
  | key :: ((nextKey :: _) as rest) =>
      found <- find_property current key ;;
      match found with
      | Absent =>
          let made := fresh_container (isNumeric nextKey) in
          current' <- assign current key made ;;
          child <- walk rest final made ;;
          assign current' key child
      | Own next =>
          child <- walk rest final next ;;
          assign current key child
      | Inherited => Unmodelled
      end
  end.

Definition setNestedValue (obj : value) (path : string)
  (value : FormDataEntryValue) : completion JS.value :=
  walk (path_keys path) (processedValue value) obj.

Fixpoint forEach_entry (formData : FormData) (result : value) : completion value :=
  match formData with
  | [] => Normal result
  | (key, value) :: rest =>
      result' <- setNestedValue result key value ;;
      forEach_entry rest result'
  end.

Definition formDataToObject (formData : FormData) : completion value :=
  forEach_entry formData (VObj []).

End Transform.

(* ================================================================== *)
(** ** src/types/index.ts *)
(* ================================================================== *)

Module Types.
Import JS.

(** [ServerActionResponse<T>]: [{ok: true, message, data}] or
    [{ok: false, message, error}]. *)
Inductive ServerActionResponse :=
| SuccessActionResponse (message : value) (data : value)
| ErrorActionResponse (message : string) (error : error_obj).

Definition ok (r : ServerActionResponse) : bool :=
  match r with
  | SuccessActionResponse _ _ => true
  | ErrorActionResponse _ _ => false
  end.

(** The object a response is at run time. *)
Definition as_value (r : ServerActionResponse) : value :=
  match r with
  | SuccessActionResponse message data =>
      VObj [("ok", VBool true); ("message", message); ("data", data)]
  | ErrorActionResponse message error =>
      VObj [("ok", VBool false); ("message", VStr message); ("error", VError error)]
  end.

End Types.

(* ================================================================== *)
(** ** src/utils/response.ts *)
(* ================================================================== *)

Module Response.
Import JS Types.
Local Open Scope js_scope.

(** Metadata object standing in for a File or Blob. *)
Definition file_metadata (f : file) : value :=
  VObj [ ("name", VStr (if file_isFile f then file_name f else "blob"));
         ("size", VNum (finite false (file_size f) 0));
         ("type", VStr (file_type f));
         ("_isFile", VBool true) ].

Fixpoint sanitizeForTransport (data : value) : completion value :=
  match data with
  | VUndefined | VNull => Normal data
  | VArr slots _ =>
      slots' <-
        (fix map (items : list (option value)) : completion (list (option value)) :=
           match items with
           | [] => Normal []
           | None :: rest => rest' <- map rest ;; Normal (None :: rest')
           | Some item :: rest =>
               item' <- sanitizeForTransport item ;;
               rest' <- map rest ;;
               Normal (Some item' :: rest')
           end) slots ;;
      Normal (VArr slots' [])
  | VDate d => s <- toISOString d ;; Normal (VStr s)
  | VFile f => Normal (file_metadata f)
  | VObj props =>
      if Transform.constructor_is_Object props then
        sanitized <-
          (fix entries (todo : list (string * value))
               (sanitized : list (string * value))
             : completion (list (string * value)) :=
             match todo with
             | [] => Normal sanitized
             | (key, v) :: rest =>
                 v' <- sanitizeForTransport v ;;
                 if key =? "__proto__" then Unmodelled
                 else entries rest (obj_set key v' sanitized)
             end) props [] ;;
        Normal (VObj sanitized)
      else Normal data
  | _ => Normal data
  end.

Definition createSuccessResponse (data : value) (message : string)
  : completion ServerActionResponse :=
  data' <- sanitizeForTransport data ;;
  Normal (SuccessActionResponse (VStr message) data').

(** [error instanceof Error ? error : new Error(String(error))]. *)
Definition as_Error (error : value) : completion error_obj :=
  match error with
  | VError e => Normal e
  | _ => text <- ToString error ;; Normal (new_Error text)
  end.

Definition createErrorResponse (error : value) (message : string)
  : completion ServerActionResponse :=
  e <- as_Error error ;;
  Normal (ErrorActionResponse message e).

(** [serverActionResponse(response, message?)].  The result is an object of
    the caller's making, so it is returned as a value.  ['ok' in response]
    holds for an object literal or an array exactly when [ok] is an own
    property, no prototype of theirs having a member of that name; dates,
    files and errors have none either.  [{...serverResponse, data: d}]
    copies the own enumerable properties in order and then stores [data]. *)
Definition serverActionResponse (response : value) (message : option string)
  : completion value :=
  let wrapped :=
    r <- createSuccessResponse response
           (match message with
            | Some m => m
            | None => "Operation successful"
            end) ;;
    Normal (as_value r) in
  let existing (own props : list (string * value)) :=
    match lookup "ok" props with
    | Some ok =>
        if truthy ok then
          data <- sanitizeForTransport
                    (match lookup "data" props with
                     | Some d => d
                     | None => VUndefined
                     end) ;;
          Normal (VObj (obj_set "data" data own))
        else Normal response
    | None => wrapped
    end in
  match response with
  | VObj props => existing props props
  | VArr slots props => existing (Transform.indexed slots 0 ++ props)%list props
  | VOther _ => Unmodelled
  | _ => wrapped
  end.

End Response.

(* ================================================================== *)
(** ** utils/wrapper.ts, revision with response-pattern detection
       (unnamed/part_002) *)
(* ================================================================== *)

Module Wrapper.
Import JS Types.
Local Open Scope js_scope.

(** The file carries its own copy of the sanitizer, identical line for line
    to [sanitizeForTransport]. *)
Definition sanitizeDataForClient : value -> completion value :=
  Response.sanitizeForTransport.

(** [response.name] on an object literal, for a name that is not a member
    of [Object.prototype]. *)
Definition get (props : list (string * value)) (name : string) : value :=
  match lookup name props with
  | Some v => v
  | None => VUndefined
  end.

(** [name in response], same proviso. *)
Definition has (props : list (string * value)) (name : string) : bool :=
  has_own name props.

Definition default_success : value := VStr "Operation completed successfully".
Definition default_failure : value := VStr "Operation failed".

(** [new Error(v)] for a defined [v]. *)
Definition Error_of (v : value) : completion value :=
  msg <- ToString v ;; Normal (VError (new_Error msg)).

(** The body of the [try] block after [await serverAction(parsedData)]. *)
Definition classify (result : value) : completion ServerActionResponse :=
  let regular :=
    sanitizedResult <- sanitizeDataForClient result ;;
    Normal (SuccessActionResponse default_success sanitizedResult) in
  match result with
  | VObj response =>
      match get response "ok" with
      | VBool true =>
          data <- sanitizeDataForClient (get response "data") ;;
          Normal (SuccessActionResponse
                    (or_else (get response "message") default_success) data)
      | VBool false =>
          error <-
            (if truthy (get response "error") then Normal (get response "error")
             else Error_of (or_else (get response "message") default_failure)) ;;
          Throw error
      | _ =>
          if has response "data" && negb (has response "error") then
            data <- sanitizeDataForClient (get response "data") ;;
            Normal (SuccessActionResponse
                      (or_else (get response "message") default_success) data)
          else if has response "error" && negb (has response "data") then
            error <-
              (match get response "error" with
               | VError e => Normal (VError e)
               | _ => Error_of (or_else (get response "message") default_failure)
               end) ;;
            Throw error
          else regular
      end
  | _ => regular
  end.

(** The [catch (error)] block. *)
Definition on_catch (error : value) : completion ServerActionResponse :=
  match error with
  | VError e => Normal (ErrorActionResponse (err_message e) e)
  | _ =>
      text <- ToString error ;;
      Normal (ErrorActionResponse "Error processing request" (new_Error text))
  end.

(** [withFormTransform(serverAction)]: the returned async function.  A raw
    action maps its decoded input to the settlement of the promise it
    returns ([Normal] resolved, [Throw] thrown or rejected); the result is
    the settlement of the wrapper's own promise. *)
Definition withFormTransform (serverAction : value -> completion value)
  (formData : Transform.FormData) : completion ServerActionResponse :=
  try_catch
    (parsedData <- Transform.formDataToObject formData ;;
     result <- serverAction parsedData ;;
     classify result)
    on_catch.

End Wrapper.

(* ================================================================== *)
(** ** src/utils/wrapper.ts, revision without pattern detection *)
(* ================================================================== *)

Module WrapperPlain.
Import JS Types.
Local Open Scope js_scope.

Definition sanitizeDataForClient : value -> completion value :=
  Response.sanitizeForTransport.

Definition withFormTransform (serverAction : value -> completion value)
  (formData : Transform.FormData) : completion ServerActionResponse :=
  try_catch
    (parsedData <- Transform.formDataToObject formData ;;
     result <- serverAction parsedData ;;
     sanitizedResult <- sanitizeDataForClient result ;;
     Normal (SuccessActionResponse
               (VStr "Operation completed successfully") sanitizedResult))
    Wrapper.on_catch.

End WrapperPlain.

(* ================================================================== *)
(** ** src/utils/request.ts *)
(* ================================================================== *)

Module Request.
Import JS Types.
Local Open Scope js_scope.

(** [FormData | Record<string, any>]. *)
Inductive payload :=
| AsFormData (formData : Transform.FormData)
| AsObject (obj : value).

(** [data instanceof FormData ? data : objectToFormData(data)]. *)
Definition to_FormData (data : payload) : completion Transform.FormData :=
  match data with
  | AsFormData formData => Normal formData
  | AsObject obj => Transform.objectToFormData obj ""
  end.

(** The [catch (error)] block. *)
Definition on_catch (error : value) : completion ServerActionResponse :=
  match error with
  | VError e => Normal (ErrorActionResponse "Error processing request" e)
  | _ =>
      text <- ToString error ;;
      Normal (ErrorActionResponse "Error processing request" (new_Error text))
  end.

(** An action maps the transport to the settlement of its promise. *)
Definition serverActionRequest
  (action : Transform.FormData -> completion ServerActionResponse)
  (data : payload) : completion ServerActionResponse :=
  try_catch (formData <- to_FormData data ;; action formData) on_catch.

End Request.

(* ================================================================== *)
(** ** src/hooks/useSAR.ts *)
(* ================================================================== *)

Module Hook.
Import JS Types.

(** [SAROptions] after defaulting.  The action itself belongs to the
    environment; the two callbacks are recorded by presence, and their calls
    appear as events. *)
Record SAROptions := {
  condition : option bool;            (* [None]: undefined *)
  cacheTime : Z;
  revalidateOnMount : bool;
  revalidateOnFocus : bool;
  dedupingInterval : Z;
  executeOnMount : bool;
  initialExecuteData : option Request.payload;
  onSuccess : bool;
  onError : bool
}.

(** The state cells and refs of one hook instance.  An [AbortController] is
    named by its creation rank; [aborted] lists the controllers whose signal
    is aborted.  A timeout is named by its handle; [timers] lists the pending
    ones with the time they are due. *)
Record session := {
  loading : bool;
  error : value;                       (* [VUndefined] when unset *)
  data : value;                        (* [VUndefined] when unset *)
  isMountedRef : bool;
  lastRequestDataRef : option Request.payload;
  abortControllerRef : option nat;
  lastRequestTimeRef : Z;
  cacheTimeoutRef : option nat;
  aborted : list nat;
  issued : nat;                        (* controllers created so far *)
  timers : list (nat * Z);
  handles : nat                        (* timeouts created so far *)
}.

Definition initial : session := {|
  loading := false; error := VUndefined; data := VUndefined;
  isMountedRef := false; lastRequestDataRef := None;
  abortControllerRef := None; lastRequestTimeRef := 0;
  cacheTimeoutRef := None; aborted := []; issued := 0;
  timers := []; handles := 0
|}.

(** Observable effects of a step: the wrapped action is called with a
    transport, or a callback is called.  [Undetermined] stands for a call
    whose payload the encoder leaves to [Unmodelled]: whether the action is
    called, and with what, is not decided here. *)
Inductive event :=
| Invoke (signal : nat) (formData : Transform.FormData)
| Undetermined (signal : nat)
| CallOnSuccess (data : value)
| CallOnError (message : value).

(** Field updates. *)
Definition setLoading (b : bool) (s : session) : session :=
  {| loading := b; error := error s; data := data s;
     isMountedRef := isMountedRef s;
     lastRequestDataRef := lastRequestDataRef s;
     abortControllerRef := abortControllerRef s;
     lastRequestTimeRef := lastRequestTimeRef s;
     cacheTimeoutRef := cacheTimeoutRef s; aborted := aborted s;
     issued := issued s; timers := timers s; handles := handles s |}.

Definition setError (e : value) (s : session) : session :=
  {| loading := loading s; error := e; data := data s;
     isMountedRef := isMountedRef s;
     lastRequestDataRef := lastRequestDataRef s;
     abortControllerRef := abortControllerRef s;
     lastRequestTimeRef := lastRequestTimeRef s;
     cacheTimeoutRef := cacheTimeoutRef s; aborted := aborted s;
     issued := issued s; timers := timers s; handles := handles s |}.

Definition setData (d : value) (s : session) : session :=
  {| loading := loading s; error := error s; data := d;
     isMountedRef := isMountedRef s;
     lastRequestDataRef := lastRequestDataRef s;
     abortControllerRef := abortControllerRef s;
     lastRequestTimeRef := lastRequestTimeRef s;
     cacheTimeoutRef := cacheTimeoutRef s; aborted := aborted s;
     issued := issued s; timers := timers s; handles := handles s |}.

Definition set_lastRequestData (d : option Request.payload) (s : session) : session :=
  {| loading := loading s; error := error s; data := data s;
     isMountedRef := isMountedRef s;
     lastRequestDataRef := d;
     abortControllerRef := abortControllerRef s;
     lastRequestTimeRef := lastRequestTimeRef s;
     cacheTimeoutRef := cacheTimeoutRef s; aborted := aborted s;
     issued := issued s; timers := timers s; handles := handles s |}.

Definition set_lastRequestTime (t : Z) (s : session) : session :=
  {| loading := loading s; error := error s; data := data s;
     isMountedRef := isMountedRef s;
     lastRequestDataRef := lastRequestDataRef s;
     abortControllerRef := abortControllerRef s;
     lastRequestTimeRef := t;
     cacheTimeoutRef := cacheTimeoutRef s; aborted := aborted s;
     issued := issued s; timers := timers s; handles := handles s |}.

Definition set_mounted (s : session) : session :=
  {| loading := loading s; error := error s; data := data s;
     isMountedRef := true;
     lastRequestDataRef := lastRequestDataRef s;
     abortControllerRef := abortControllerRef s;
     lastRequestTimeRef := lastRequestTimeRef s;
     cacheTimeoutRef := cacheTimeoutRef s; aborted := aborted s;
     issued := issued s; timers := timers s; handles := handles s |}.

(** [if (abortControllerRef.current) abortControllerRef.current.abort()]. *)
Definition abort_current (s : session) : session :=
  match abortControllerRef s with
  | None => s
  | Some c =>
      {| loading := loading s; error := error s; data := data s;
         isMountedRef := isMountedRef s;
         lastRequestDataRef := lastRequestDataRef s;
         abortControllerRef := abortControllerRef s;
         lastRequestTimeRef := lastRequestTimeRef s;
         cacheTimeoutRef := cacheTimeoutRef s; aborted := c :: aborted s;
         issued := issued s; timers := timers s; handles := handles s |}
  end.

(** [abortControllerRef.current = new AbortController()]. *)
Definition new_controller (s : session) : session :=
  {| loading := loading s; error := error s; data := data s;
     isMountedRef := isMountedRef s;
     lastRequestDataRef := lastRequestDataRef s;
     abortControllerRef := Some (issued s);
     lastRequestTimeRef := lastRequestTimeRef s;
     cacheTimeoutRef := cacheTimeoutRef s; aborted := aborted s;
     issued := S (issued s); timers := timers s; handles := handles s |}.

Definition cancel (handle : nat) (pending : list (nat * Z)) : list (nat * Z) :=
  filter (fun t => negb (fst t =? handle)%nat) pending.

(** [if (cacheTimeoutRef.current) clearTimeout(cacheTimeoutRef.current)]. *)
Definition clear_cache_timeout (s : session) : session :=
  match cacheTimeoutRef s with
  | None => s
  | Some h =>
      {| loading := loading s; error := error s; data := data s;
         isMountedRef := isMountedRef s;
         lastRequestDataRef := lastRequestDataRef s;
         abortControllerRef := abortControllerRef s;
         lastRequestTimeRef := lastRequestTimeRef s;
         cacheTimeoutRef := cacheTimeoutRef s; aborted := aborted s;
         issued := issued s; timers := cancel h (timers s);
         handles := handles s |}
  end.

Definition set_cacheTimeoutRef (h : option nat) (s : session) : session :=
  {| loading := loading s; error := error s; data := data s;
     isMountedRef := isMountedRef s;
     lastRequestDataRef := lastRequestDataRef s;
     abortControllerRef := abortControllerRef s;
     lastRequestTimeRef := lastRequestTimeRef s;
     cacheTimeoutRef := h; aborted := aborted s;
     issued := issued s; timers := timers s; handles := handles s |}.

(** [cacheTimeoutRef.current = setTimeout(..., delay)]. *)
Definition start_cache_timeout (now delay : Z) (s : session) : session :=
  {| loading := loading s; error := error s; data := data s;
     isMountedRef := isMountedRef s;
     lastRequestDataRef := lastRequestDataRef s;
     abortControllerRef := abortControllerRef s;
     lastRequestTimeRef := lastRequestTimeRef s;
     cacheTimeoutRef := Some (handles s); aborted := aborted s;
     issued := issued s; timers := (handles s, (now + delay)%Z) :: timers s;
     handles := S (handles s) |}.

Definition signal_aborted (signal : nat) (s : session) : bool :=
  existsb (Nat.eqb signal) (aborted s).

(** [typeof condition !== "undefined" && !condition]. *)
Definition gate_closed (options : SAROptions) : bool :=
  match condition options with
  | Some c => negb c
  | None => false
  end.

(** [currentTime - lastRequestTimeRef.current < dedupingInterval && loading]. *)
Definition deduplicated (options : SAROptions) (loading : bool)
  (currentTime : Z) (s : session) : bool :=
  (currentTime - lastRequestTimeRef s <? dedupingInterval options)%Z && loading.

(** [requestData || lastRequestDataRef.current || {}]. *)
Definition request_payload (requestData : option Request.payload) (s : session)
  : Request.payload :=
  match requestData with
  | Some d => d
  | None => match lastRequestDataRef s with
            | Some d => d
            | None => Request.AsObject (VObj [])
            end
  end.

(** [execute(requestData)] up to its [await].  [loading] is the state value
    captured by the closure being called (the one of the render that created
    it); [currentTime] is [Date.now()].  [serverActionRequest] runs
    synchronously as far as the action call, so the action is invoked here,
    unless encoding the payload throws. *)
Definition execute (options : SAROptions) (loading : bool) (currentTime : Z)
  (requestData : option Request.payload) (s : session) : session * list event :=
  if gate_closed options then (s, [])
  else
    let s := match requestData with
             | Some d => set_lastRequestData (Some d) s
             | None => s
             end in
    if deduplicated options loading currentTime s then (s, [])
    else
      let s := set_lastRequestTime currentTime s in
      let s := abort_current s in
      let signal := issued s in
      let s := new_controller s in
      let s := setError VUndefined (setLoading true s) in
      match Request.to_FormData (request_payload requestData s) with
      | Normal formData => (s, [Invoke signal formData])
      | Throw _ => (s, [])
      | Unmodelled => (s, [Undetermined signal])
      end.

(** What [await serverActionRequest(...)] delivers. *)
Inductive settlement :=
| Fulfilled (response : ServerActionResponse)
| Rejected (err : value).

(** [err.message]. *)
Definition message_of (err : value) : value :=
  match err with
  | VError e => VStr (err_message e)
  | VObj props => Wrapper.get props "message"
  | _ => VUndefined
  end.

Definition emit (configured : bool) (e : event) : list event :=
  if configured then [e] else [].

(** The continuation of [execute] after its [await], for the call that
    created controller [signal]. *)
Definition resume (options : SAROptions) (signal : nat) (currentTime : Z)
  (outcome : settlement) (s : session) : session * list event :=
  if signal_aborted signal s then (s, [])
  else
    match outcome with
    | Fulfilled (SuccessActionResponse _ d) =>
        let s := setData d s in
        let s :=
          if (0 <? cacheTime options)%Z
          then start_cache_timeout currentTime (cacheTime options)
                 (clear_cache_timeout s)
          else s in
        (setLoading false s, emit (onSuccess options) (CallOnSuccess d))
    | Fulfilled (ErrorActionResponse message _) =>
        let errorMessage := or_else (VStr message) (VStr "Operation failed") in
        (setLoading false (setError errorMessage s),
         emit (onError options) (CallOnError errorMessage))
    | Rejected err =>
        let errorMessage :=
          or_else (message_of err) (VStr "An unexpected error occurred") in
        (setLoading false (setError errorMessage s),
         emit (onError options) (CallOnError errorMessage))
    end.

Definition refetch (options : SAROptions) (loading : bool) (currentTime : Z)
  (s : session) : session * list event :=
  execute options loading currentTime (lastRequestDataRef s) s.

Definition reset (s : session) : session :=
  clear_cache_timeout
    (abort_current
       (set_lastRequestData None (setError VUndefined (setData VUndefined s)))).

Definition mutate (newData : value) (s : session) : session :=
  let s := setData newData s in
  match cacheTimeoutRef s with
  | Some _ => set_cacheTimeoutRef None (clear_cache_timeout s)
  | None => s
  end.

Definition optimisticMutate (updateFn : value -> value) (s : session) : session :=
  setData (updateFn (data s)) s.

(** The timeout callback [() => setData(undefined)] runs. *)
Definition timeout_fires (handle : nat) (s : session) : session :=
  if existsb (fun t => (fst t =? handle)%nat) (timers s) then
    let s := setData VUndefined s in
    {| loading := loading s; error := error s; data := data s;
       isMountedRef := isMountedRef s;
       lastRequestDataRef := lastRequestDataRef s;
       abortControllerRef := abortControllerRef s;
       lastRequestTimeRef := lastRequestTimeRef s;
       cacheTimeoutRef := cacheTimeoutRef s; aborted := aborted s;
       issued := issued s; timers := cancel handle (timers s);
       handles := handles s |}
  else s.

(** The cleanup of the first effect, on unmount. *)
Definition unmount (s : session) : session :=
  clear_cache_timeout (abort_current s).

(** The mount effect. *)
Definition mount (options : SAROptions) (loading : bool) (currentTime : Z)
  (s : session) : session * list event :=
  if isMountedRef s then (s, [])
  else
    let s := set_mounted s in
    if negb (executeOnMount options) then (s, [])
    else
      match condition options with
      | None =>
          if revalidateOnMount options
          then execute options loading currentTime (initialExecuteData options) s
          else (s, [])
      | Some true =>
          execute options loading currentTime (initialExecuteData options) s
      | Some false => (s, [])
      end.

(** The [visibilitychange] and [focus] listener; it is attached only when
    [revalidateOnFocus] is set.  [visible] is
    [document.visibilityState === "visible"]. *)
Definition onFocus (options : SAROptions) (visible : bool) (loading : bool)
  (currentTime : Z) (s : session) : session * list event :=
  if revalidateOnFocus options && visible
  then refetch options loading currentTime s
  else (s, []).

(** Everything that can happen to a session. *)
Inductive step (options : SAROptions) : session -> session -> Prop :=
| step_execute loading now requestData s :
    step options s (fst (execute options loading now requestData s))
| step_resume signal now outcome s :
    (signal < issued s)%nat ->
    step options s (fst (resume options signal now outcome s))
| step_reset s : step options s (reset s)
| step_mutate newData s : step options s (mutate newData s)
| step_optimistic updateFn s : step options s (optimisticMutate updateFn s)
| step_timeout handle s : step options s (timeout_fires handle s)
| step_mount loading now s :
    step options s (fst (mount options loading now s))
| step_unmount s : step options s (unmount s).

Inductive reachable (options : SAROptions) : session -> Prop :=
| reachable_initial : reachable options initial
| reachable_step s s' :
    reachable options s -> step options s s' -> reachable options s'.

End Hook.

(* ================================================================== *)
(** ** Vocabulary of the properties

    Everything below this point is about the program above: first the
    notions the statements and their proofs are written in, then the
    lemmas and theorems themselves. *)
(* ================================================================== *)

(** *** Induction over values, through slots and fields *)

Module ValueInduction.
Import JS.

(** A property of values, lifted to array slots and to object fields. *)
Definition on_slot (P : value -> Prop) (slot : option value) : Prop :=
  match slot with
  | Some v => P v
  | None => True
  end.

Definition on_field (P : value -> Prop) (field : string * value) : Prop :=
  P (snd field).

(** Structural induction that reaches the values nested in slots and fields. *)
Section Principle.
Variable P : value -> Prop.
Hypothesis case_undefined : P VUndefined.
Hypothesis case_null : P VNull.
Hypothesis case_bool : forall b, P (VBool b).
Hypothesis case_num : forall n, P (VNum n).
Hypothesis case_str : forall s, P (VStr s).
Hypothesis case_date : forall d, P (VDate d).
Hypothesis case_file : forall f, P (VFile f).
Hypothesis case_error : forall e, P (VError e).
Hypothesis case_other : forall r, P (VOther r).
Hypothesis case_arr : forall slots props,
    Forall (on_slot P) slots -> Forall (on_field P) props ->
    P (VArr slots props).
Hypothesis case_obj : forall props,
    Forall (on_field P) props -> P (VObj props).

Fixpoint value_induction (v : value) : P v :=
  let fields :=
    fix fields (l : list (string * value)) : Forall (on_field P) l :=
      match l with
      | [] => Forall_nil _
      | (k, x) :: rest =>
          Forall_cons (k, x) (value_induction x : on_field P (k, x)) (fields rest)
      end in
  match v with
  | VUndefined => case_undefined
  | VNull => case_null
  | VBool b => case_bool b
  | VNum n => case_num n
  | VStr s => case_str s
  | VDate d => case_date d
  | VFile f => case_file f
  | VError e => case_error e
  | VOther r => case_other r
  | VArr slots props =>
      case_arr slots props
        ((fix each (l : list (option value)) : Forall (on_slot P) l :=
            match l with
            | [] => Forall_nil _
            | Some x :: rest =>
                Forall_cons (Some x) (value_induction x : on_slot P (Some x))
                  (each rest)
            | None :: rest => Forall_cons None (I : on_slot P None) (each rest)
            end) slots)
        (fields props)
  | VObj props => case_obj props (fields props)
  end.
End Principle.

End ValueInduction.

(** *** Sessions of the orchestrator *)

Module HookSpec.
Import JS Types Hook.

(** A configuration with the defaults of the source and both callbacks. *)
Definition defaults : SAROptions := {|
  condition := None; cacheTime := 0;
  revalidateOnMount := true; revalidateOnFocus := false;
  dedupingInterval := 2000; executeOnMount := true;
  initialExecuteData := None; onSuccess := true; onError := true
|}.

(** Several steps in a row. *)
Inductive steps (options : SAROptions) : session -> session -> Prop :=
| steps_refl s : steps options s s
| steps_cons s s' s'' :
    step options s s' -> steps options s' s'' -> steps options s s''.

(** Every controller other than the one held by the ref is aborted, and the
    ref only ever holds a controller that was created. *)
Definition superseded_all_but_current (s : session) : Prop :=
  (forall c, c < issued s -> abortControllerRef s <> Some c ->
             signal_aborted c s = true)
  /\ (forall c, abortControllerRef s = Some c -> c < issued s).

(** The part of a session that decides supersession. *)
Definition tokens (s : session) : option nat * list nat * nat :=
  (abortControllerRef s, aborted s, issued s).

(** The session as [execute] leaves it once past both guards. *)
Definition remember (requestData : option Request.payload) (s : session) : session :=
  match requestData with
  | Some d => set_lastRequestData (Some d) s
  | None => s
  end.

Definition started (now : Z) (s : session) : session :=
  setError VUndefined
    (setLoading true (new_controller (abort_current (set_lastRequestTime now s)))).

Definition sample_payload : Request.payload :=
  Request.AsObject (VObj [("id", VStr "u1")]).

Definition sample_success : settlement :=
  Fulfilled (SuccessActionResponse (VStr "done") (VStr "payload")).

(** One request in flight: [execute(sample)] called at time 1000 in the
    initial session. *)
Definition in_flight : session :=
  fst (execute defaults false 1000 (Some sample_payload) initial).

End HookSpec.

(** *** Sanitized values *)

Module ResponseSpec.
Import JS Types Response.
Local Open Scope js_scope.

(** Own property names, in order. *)
Definition keys (props : list (string * value)) : list string := map fst props.

(** The shape of a value the sanitizer returns: no date, no file, arrays
    without extra properties, and object literals rebuilt key by key (an
    object that shadows [constructor] is passed through untouched, whatever
    it holds). *)
Inductive sanitized : value -> Prop :=
| sanitized_undefined : sanitized VUndefined
| sanitized_null : sanitized VNull
| sanitized_bool b : sanitized (VBool b)
| sanitized_num n : sanitized (VNum n)
| sanitized_str s : sanitized (VStr s)
| sanitized_error e : sanitized (VError e)
| sanitized_other r : sanitized (VOther r)
| sanitized_arr slots :
    (forall x, In (Some x) slots -> sanitized x) -> sanitized (VArr slots [])
| sanitized_obj props :
    NoDup (keys props) -> ~ In "__proto__" (keys props) ->
    (forall k x, In (k, x) props -> sanitized x) -> sanitized (VObj props)
| sanitized_opaque props :
    Transform.constructor_is_Object props = false -> sanitized (VObj props).

(** The two inner loops of [sanitizeForTransport], named. *)
Definition sanitize_slots : list (option value) -> completion (list (option value)) :=
  fix map (items : list (option value)) : completion (list (option value)) :=
    match items with
    | [] => Normal []
    | None :: rest => rest' <- map rest ;; Normal (None :: rest')
    | Some item :: rest =>
        item' <- sanitizeForTransport item ;;
        rest' <- map rest ;;
        Normal (Some item' :: rest')
    end.

Definition sanitize_entries
  : list (string * value) -> list (string * value) -> completion (list (string * value)) :=
  fix entries (todo : list (string * value)) (sanitized : list (string * value))
    : completion (list (string * value)) :=
    match todo with
    | [] => Normal sanitized
    | (key, v) :: rest =>
        v' <- sanitizeForTransport v ;;
        if key =? "__proto__" then Unmodelled
        else entries rest (obj_set key v' sanitized)
    end.

End ResponseSpec.

(** *** Raw actions and the two wrappers *)

Module WrapperSpec.
Import JS Types.

(** Decoding throws nothing but [TypeError]s. *)
Definition throws_only_errors {A} (c : completion A) : Prop :=
  forall x, c = Throw x -> exists e, x = VError e.

(** The two revisions share their [catch] block; [plain] selects the
    revision of src/utils/wrapper.ts. *)
Definition wrapper (plain : bool) :=
  if plain then WrapperPlain.withFormTransform else Wrapper.withFormTransform.

Definition is_Error (x : value) : bool :=
  match x with VError _ => true | _ => false end.

Definition throwing (x : value) : value -> completion value := fun _ => Throw x.

(** A raw action that returns the value [result]. *)
Definition returning (result : value) : value -> completion value :=
  fun _ => Normal result.

End WrapperSpec.

(** *** Numeric literals and the date-time pattern, as the language and the
        specification give them *)

Module NumericSpec.
Import JS.

(** A non-empty run of digits of one kind. *)
Definition digits (ok : ascii -> bool) (ds : list ascii) : Prop :=
  ds <> [] /\ forallb ok ds = true.

Inductive Sign : list ascii -> bool -> Prop :=
| sign_absent : Sign [] false
| sign_plus : Sign ["+"%char] false
| sign_minus : Sign ["-"%char] true.

Definition signed (negative : bool) (v : N) : Z :=
  if negative then (- Z.of_N v)%Z else Z.of_N v.

(** ExponentPart_opt, with the exponent it denotes. *)
Inductive ExponentPart_opt : list ascii -> Z -> Prop :=
| exponent_absent : ExponentPart_opt [] 0
| exponent_present indicator sign negative ds :
    indicator = "e"%char \/ indicator = "E"%char ->
    Sign sign negative -> digits is_digit ds ->
    ExponentPart_opt (indicator :: sign ++ ds)
      (signed negative (digits_val 10 ds)).

(** StrUnsignedDecimalLiteral other than [Infinity], with its value
    [m * 10^e]: digits with a point ([12.5], [12.], [.5]) or without. *)
Inductive StrUnsignedDecimalLiteral : list ascii -> N -> Z -> Prop :=
| decimal_with_point int frac ex e :
    forallb is_digit int = true -> forallb is_digit frac = true ->
    int <> [] \/ frac <> [] ->
    ExponentPart_opt ex e ->
    StrUnsignedDecimalLiteral (int ++ "."%char :: frac ++ ex)
      (digits_val 10 (int ++ frac)) (e - Z.of_nat (length frac))
| decimal_without_point int ex e :
    digits is_digit int -> ExponentPart_opt ex e ->
    StrUnsignedDecimalLiteral (int ++ ex) (digits_val 10 int) e.

(** The three prefixes of a NonDecimalIntegerLiteral. *)
Inductive NonDecimal : ascii -> (ascii -> bool) -> N -> Prop :=
| hexadecimal marker :
    marker = "x"%char \/ marker = "X"%char -> NonDecimal marker is_hex_digit 16
| octal marker :
    marker = "o"%char \/ marker = "O"%char -> NonDecimal marker is_octal_digit 8
| binary marker :
    marker = "b"%char \/ marker = "B"%char -> NonDecimal marker is_binary_digit 2.

(** StrNumericLiteral, with the value it denotes before rounding. *)
Inductive StrNumericLiteral : list ascii -> number -> Prop :=
| literal_infinity sign negative :
    Sign sign negative ->
    StrNumericLiteral (sign ++ chars "Infinity") (Infinity negative)
| literal_decimal sign negative body m e :
    Sign sign negative -> StrUnsignedDecimalLiteral body m e ->
    StrNumericLiteral (sign ++ body) (finite negative m e)
| literal_non_decimal marker ok radix ds :
    NonDecimal marker ok radix -> digits ok ds ->
    StrNumericLiteral ("0"%char :: marker :: ds)
      (finite false (digits_val radix ds) 0).

(** StrWhiteSpaceChar among the code units below 256: tab, line feed,
    vertical tab, form feed, carriage return, space and no-break space. *)
Definition StrWhiteSpaceChar (c : ascii) : Prop :=
  In (nat_of_ascii c) [9; 10; 11; 12; 13; 32; 160]%nat.

(** StringNumericLiteral: white space around nothing, which denotes zero,
    or around a StrNumericLiteral. *)
Definition StringNumericLiteral (s : string) (x : number) : Prop :=
  exists before core after,
    chars s = (before ++ core ++ after)%list
    /\ Forall StrWhiteSpaceChar before /\ Forall StrWhiteSpaceChar after
    /\ ((core = [] /\ x = Finite false 0 0) \/ StrNumericLiteral core x).

(** A numeric string: one that is a StringNumericLiteral. *)
Definition numeric (s : string) : Prop := exists x, StringNumericLiteral s x.

(** The date-time pattern [YYYY-MM-DDTHH:MM:SS...]: what a character of the
    pattern accepts. *)
Inductive pattern_char :=
| any_digit
| exactly (c : ascii).

Definition accepts (p : pattern_char) (c : ascii) : Prop :=
  match p with
  | any_digit => is_digit c = true
  | exactly x => c = x
  end.

Definition date_time_pattern : list pattern_char :=
  [ any_digit; any_digit; any_digit; any_digit; exactly "-"%char;
    any_digit; any_digit; exactly "-"%char;
    any_digit; any_digit; exactly "T"%char;
    any_digit; any_digit; exactly ":"%char;
    any_digit; any_digit; exactly ":"%char;
    any_digit; any_digit ].

(** The string starts with text of that shape; anything may follow. *)
Definition starts_with_date_time (s : string) : Prop :=
  exists prefix rest,
    chars s = (prefix ++ rest)%list /\ Forall2 accepts date_time_pattern prefix.

End NumericSpec.

(** *** Notions for reading literals *)

Module ScanSpec.
Import JS.

(** The text is empty or starts with a character that fails [p]. *)
Definition stops (p : ascii -> bool) (cs : list ascii) : Prop :=
  match cs with
  | [] => True
  | c :: _ => p c = false
  end.

(** A text that neither starts nor ends with white space. *)
Definition tight (cs : list ascii) : Prop :=
  stops is_space cs /\ stops is_space (rev cs).

(** [literal] once the white space around the text is gone. *)
Definition core_value (core : list ascii) : number :=
  match core with
  | [] => Finite false 0 0
  | c :: rest =>
      match parse_radix (c :: rest) with
      | Some x => x
      | None =>
          if (code c =? 43)%nat then parse_decimal false rest
          else if (code c =? 45)%nat then parse_decimal true rest
          else parse_decimal false (c :: rest)
      end
  end.

(** The letters that mark a non-decimal literal. *)
Definition is_marker (p : ascii) : bool :=
  (code p =? 120)%nat || (code p =? 88)%nat || (code p =? 111)%nat
  || (code p =? 79)%nat || (code p =? 98)%nat || (code p =? 66)%nat.


End ScanSpec.

(** *** The codec *)

Module CodecSpec.
Import JS Transform ResponseSpec NumericSpec.
Local Open Scope js_scope.

(** The inference rules in the order the specification lists them, (a) to
    (e), each rule carrying the failure of the rules before it.  The
    date-time pattern and the numeric strings are those of [NumericSpec];
    a numeric string becomes the binary64 value nearest to what it
    denotes. *)
Definition numeric_and_non_empty (s : string) : Prop :=
  numeric s /\ s <> "".

Inductive inferred : string -> value -> Prop :=
| inferred_date s :
    starts_with_date_time s ->
    inferred s (VDate (Date_new s))
| inferred_number s x :
    ~ starts_with_date_time s ->
    StringNumericLiteral s x -> s <> "" ->
    inferred s (VNum (rounded x))
| inferred_boolean s (b : bool) :
    ~ starts_with_date_time s ->
    ~ numeric_and_non_empty s ->
    s = (if b then "true" else "false") ->
    inferred s (VBool b)
| inferred_null s :
    ~ starts_with_date_time s ->
    ~ numeric_and_non_empty s ->
    s <> "true" -> s <> "false" ->
    s = "" ->
    inferred s VNull
| inferred_string s :
    ~ starts_with_date_time s ->
    ~ numeric_and_non_empty s ->
    s <> "true" -> s <> "false" ->
    s <> "" ->
    inferred s (VStr s).

(** The specification's reading of a sequence index: a non-empty run of
    decimal digits. *)
Definition nonnegative_integer (segment : string) : bool :=
  match chars segment with
  | [] => false
  | cs => forallb is_digit cs
  end.

(** [c[key] = v] on a container that has just been created. *)
Definition put (container : value) (key : string) (v : value) : value :=
  match container with
  | VArr _ _ =>
      match array_index key with
      | Some i => VArr (repeat None i ++ [Some v]) []
      | None => VArr [] [(key, v)]
      end
  | _ => VObj [(key, v)]
  end.

(** The container created for [key], holding [v] under it: an array exactly
    when [Number(key)] is not NaN. *)
Definition singleton (key : string) (v : value) : value :=
  put (fresh_container (isNumeric key)) key v.

(** What is stored under the first key of a path: one container per
    remaining key, each holding the next. *)
Fixpoint nest (keys : list string) (final : value) : value :=
  match keys with
  | [] => final
  | key :: rest => singleton key (nest rest final)
  end.

Definition is_array (v : value) : bool :=
  match v with VArr _ _ => true | _ => false end.

Definition not_inherited (key : string) : Prop :=
  mem key Object_prototype_names = false.

(** The value found by following own properties along a path. *)
Fixpoint get_path (v : value) (keys : list string) : option value :=
  match keys with
  | [] => Some v
  | key :: rest =>
      match find_property v key with
      | Normal (Own x) => get_path x rest
      | _ => None
      end
  end.

(** A key free of the three separators, and not empty: [split] leaves it in
    one piece. *)
Definition free_of_separators (s : string) : bool :=
  forallb (fun c => negb (is_separator c)) (chars s).

Definition plain (s : string) : bool :=
  negb (s =? "") && free_of_separators s.

(** The text [appendToFormData] writes for a scalar leaf. *)
Definition scalar_text (v : value) : option string :=
  match v with
  | VUndefined | VNull => Some ""
  | VBool b => Some (if b then "true" else "false")
  | VNum n => Some (Number_toString n)
  | VStr s => Some s
  | _ => None
  end.

(** What decoding makes of an encoded value: every scalar leaf is replaced
    by the type inference of its text. *)
Fixpoint reinterpret (v : value) : value :=
  match v with
  | VArr slots _ =>
      VArr (map (fun slot => match slot with
                             | Some x => Some (reinterpret x)
                             | None => None
                             end) slots) []
  | VObj props => VObj (map (fun field => (fst field, reinterpret (snd field))) props)
  | _ => match scalar_text v with
         | Some s => processedValue (EntryString s)
         | None => v
         end
  end.

Definition reinterpret_slot (slot : option value) : option value :=
  match slot with
  | Some x => Some (reinterpret x)
  | None => None
  end.

Definition reinterpret_field (field : string * value) : string * value :=
  (fst field, reinterpret (snd field)).

(** What the specification announces for the round trip: the value itself,
    except that null and undefined leaves become null and string leaves that
    look like a date-time, a number or a boolean take the inferred type. *)
Definition looks_typed (s : string) : bool :=
  matches_date_pattern s || negb (isNaN (Number s))
  || (s =? "true") || (s =? "false").

Fixpoint announced (v : value) : value :=
  match v with
  | VUndefined | VNull => VNull
  | VStr s => if looks_typed s then processedValue (EntryString s) else VStr s
  | VArr slots props =>
      VArr (map (fun slot => match slot with
                             | Some x => Some (announced x)
                             | None => None
                             end) slots) props
  | VObj props => VObj (map (fun field => (fst field, announced (snd field))) props)
  | _ => v
  end.

(** Values on which the round trip is exact up to [reinterpret]: scalars,
    non-empty sequences without holes or extra properties, non-empty
    mappings whose keys are distinct, plain, not numeric and not members of
    [Object.prototype].  The root is a mapping and may be empty. *)
Fixpoint distinct (ks : list string) : bool :=
  match ks with
  | [] => true
  | k :: rest => negb (mem k rest) && distinct rest
  end.

Definition portable_key (k : string) : bool :=
  plain k && negb (isNumeric k) && negb (mem k Object_prototype_names).

Definition portable_keys (props : list (string * value)) : bool :=
  distinct (keys props) && forallb portable_key (keys props).

Fixpoint portable_child (v : value) : bool :=
  match v with
  | VUndefined | VNull | VBool _ | VNum _ | VStr _ => true
  | VArr slots props =>
      match props with [] => true | _ => false end
      && negb (length slots =? 0)%nat
      && (N.of_nat (length slots) <? 4294967295)%N
      && forallb (fun slot => match slot with
                              | Some x => portable_child x
                              | None => false
                              end) slots
  | VObj props =>
      negb (length props =? 0)%nat
      && portable_keys props
      && forallb (fun field => portable_child (snd field)) props
  | _ => false
  end.

Definition portable (v : value) : bool :=
  match v with
  | VObj props =>
      portable_keys props && forallb (fun field => portable_child (snd field)) props
  | _ => false
  end.

(** [formDataToObject(objectToFormData(v))]. *)
Definition round_trip (v : value) : completion value :=
  formData <- objectToFormData v "" ;; formDataToObject formData.

(** An entry seen by the decoder: the keys of its path and the value to
    store. *)
Definition keyed := (list string * value)%type.

Definition under (k : string) (es : list keyed) : list keyed :=
  map (fun e => (k :: fst e, snd e)) es.

Definition below (ks : list string) (es : list keyed) : list keyed :=
  map (fun e => (ks ++ fst e, snd e)%list) es.

(** The entries of a value, with paths relative to the value. *)
Definition rel_slots (rel : value -> list keyed)
  : list (option value) -> nat -> list keyed :=
  fix each (items : list (option value)) (index : nat) : list keyed :=
    match items with
    | [] => []
    | None :: rest => each rest (S index)
    | Some item :: rest =>
        (under (index_text index) (rel item) ++ each rest (S index))%list
    end.

Definition rel_fields (rel : value -> list keyed)
  : list (string * value) -> list keyed :=
  fix each (fields : list (string * value)) : list keyed :=
    match fields with
    | [] => []
    | (k, x) :: rest => (under k (rel x) ++ each rest)%list
    end.

Fixpoint rel (v : value) : list keyed :=
  match v with
  | VArr slots _ => rel_slots rel slots 0
  | VObj props => rel_fields rel props
  | _ => [([], reinterpret v)]
  end.

(** A transport as the decoder reads it. *)
Definition prepared (formData : FormData) : list keyed :=
  map (fun e => (path_keys (fst e), processedValue (snd e))) formData.

Fixpoint walk_all (es : list keyed) (current : value) : completion value :=
  match es with
  | [] => Normal current
  | (p, f) :: rest => c <- walk p f current ;; walk_all rest c
  end.

(** The two inner loops of [appendToFormData], named. *)
Definition append_slots (key : string)
  : list (option value) -> nat -> completion FormData :=
  fix forEach (items : list (option JS.value)) (index : nat)
    : completion FormData :=
    match items with
    | [] => Normal []
    | None :: rest => forEach rest (S index)
    | Some item :: rest =>
        here <- appendToFormData item (key ++ "[" ++ index_text index ++ "]") ;;
        after <- forEach rest (S index) ;;
        Normal (here ++ after)%list
    end.

Definition append_fields (key : string)
  : list (string * value) -> completion FormData :=
  fix forEach (entries : list (string * JS.value)) : completion FormData :=
    match entries with
    | [] => Normal []
    | (nestedKey, nestedValue) :: rest =>
        let fullKey :=
          if key =? "" then nestedKey else key ++ "." ++ nestedKey in
        here <- appendToFormData nestedValue fullKey ;;
        after <- forEach rest ;;
        Normal (here ++ after)%list
    end.

(** Encoding a portable value under a key yields its relative entries,
    each path prefixed with the keys of that key. *)
Definition encodes (v : value) : Prop :=
  portable_child v = true ->
  forall key, key <> "" ->
    exists formData,
      appendToFormData v key = Normal formData
      /\ prepared formData = below (path_keys key) (rel v).

(** A container and a key it does not hold yet, with the container after the
    key has been given a value. *)
Definition extend (container : value) (k : string) (x : value) : value :=
  match container with
  | VObj props => VObj (props ++ [(k, x)])
  | VArr slots props => VArr (slots ++ [Some x]) props
  | _ => container
  end.

Definition vacant (container : value) (k : string) : Prop :=
  match container with
  | VObj props => ~ In k (keys props) /\ not_inherited k /\ array_index k = None
  | VArr slots props => array_index k = Some (length slots)
  | _ => False
  end.

Definition deep (es : list keyed) : Prop :=
  Forall (fun e => fst e <> []) es.

(** Decoding the entries of a portable value under a vacant key stores its
    reinterpretation there. *)
Definition decodes (v : value) : Prop :=
  portable_child v = true ->
  forall container k more,
    vacant container k ->
    walk_all (under k (rel v) ++ more) container
    = walk_all more (extend container k (reinterpret v)).

(** A value to run the round trip on. *)
Definition sample : value :=
  VObj [ ("user", VObj [ ("name", VStr "John");
                         ("profile", VObj [("age", VNum (Finite false 3 1))]) ]);
         ("tags", VArr [Some (VStr "react"); Some (VStr "ts");
                        Some VNull; Some (VStr "true")] []) ].

End CodecSpec.

(** *** The encoder, entry by entry *)

Module EncoderSpec.
Import JS Transform.

(** The leaves the encoder finds in a value: one per scalar, date, file or
    object it writes as text; holes and empty containers have none. *)
Fixpoint leaves (v : value) : nat :=
  match v with
  | VArr slots _ =>
      list_sum (map (fun slot => match slot with
                                 | Some x => leaves x
                                 | None => 0
                                 end) slots)
  | VObj props =>
      if constructor_is_Object props
      then list_sum (map (fun field => leaves (snd field)) props)
      else 1
  | _ => 1
  end.

Definition leaves_of (entries : list (string * value)) : nat :=
  list_sum (map (fun field => leaves (snd field)) entries).

(** The same entries under keys that start with [p]. *)
Definition relabel (p : string) (formData : FormData) : FormData :=
  map (fun e => (p ++ fst e, snd e)) formData.

(** The three errors the encoder can throw. *)
Definition encoder_error (x : value) : Prop :=
  x = TypeError "Cannot convert undefined or null to object"
  \/ x = TypeError "Cannot convert object to primitive value"
  \/ x = RangeError "Invalid time value".

(** A payload with a file and a date among its leaves. *)
Definition upload : value :=
  VObj [ ("title", VStr "report");
         ("pages", VArr [Some (VNum (Finite false 1 0)); None;
                         Some (VNum (Finite false 3 0))] []);
         ("attachment",
          VFile {| file_isFile := false; file_name := "";
                   file_size := 12; file_type := "text/plain" |});
         ("sent", VDate (Date_new "2023-12-01T10:30:00.000Z")) ].

End EncoderSpec.

(** *** The decoder, entry by entry *)

Module DecoderSpec.
Import JS Transform.

(** Where [setNestedValue] stores the value of an entry: along the segments
    of its path, or under the name [undefined] when the path has none. *)
Definition stored_at (path : string) : list string :=
  match path_keys path with
  | [] => ["undefined"]
  | keys => keys
  end.

(** The property of the root an entry is filed under. *)
Definition first_key (path : string) : string := hd "undefined" (stored_at path).


End DecoderSpec.

(** *** Sessions: cache timer and mounting *)

Module SessionSpec.
Import JS Types Hook.

(** At most one cache timeout is pending, and the ref holds its handle. *)
Definition single_timer (s : session) : Prop :=
  timers s = []
  \/ exists handle due, timers s = [(handle, due)] /\ cacheTimeoutRef s = Some handle.

(** A configuration that keeps data for five seconds and revalidates on
    focus. *)
Definition cached : SAROptions := {|
  condition := None; cacheTime := 5000;
  revalidateOnMount := true; revalidateOnFocus := true;
  dedupingInterval := 2000; executeOnMount := true;
  initialExecuteData := None; onSuccess := true; onError := true
|}.

(** A configuration whose condition is false. *)
Definition gated : SAROptions := {|
  condition := Some false; cacheTime := 0;
  revalidateOnMount := true; revalidateOnFocus := true;
  dedupingInterval := 2000; executeOnMount := true;
  initialExecuteData := None; onSuccess := true; onError := true
|}.

(** A session holding data with its cache timeout pending: a request issued
    at time 1000 and answered at time 1200. *)
Definition holding : session :=
  fst (resume cached 0 1200 HookSpec.sample_success
         (fst (execute cached false 1000 (Some HookSpec.sample_payload) initial))).

End SessionSpec.

(** *** The sanitizer as a map *)

Module SanitizerSpec.
Import JS Types Response.

(** Slot by slot: a hole stays a hole, an element becomes its sanitized
    form. *)
Definition slot_sanitized (a b : option value) : Prop :=
  match a, b with
  | None, None => True
  | Some x, Some y => sanitizeForTransport x = Normal y
  | _, _ => False
  end.

Definition field_sanitized (a b : string * value) : Prop :=
  fst a = fst b /\ sanitizeForTransport (snd a) = Normal (snd b).

End SanitizerSpec.

(** *** The response helper *)

Module HelperSpec.
Import JS Types Response.
Local Open Scope js_scope.

(** The two branches of [serverActionResponse], named. *)
Definition wrapped (response : value) (message : option string) : completion value :=
  r <- createSuccessResponse response
         (match message with
          | Some m => m
          | None => "Operation successful"
          end) ;;
  Normal (as_value r).

Definition existing (response : value) (message : option string)
  (own props : list (string * value)) : completion value :=
  match lookup "ok" props with
  | Some ok =>
      if truthy ok then
        data <- sanitizeForTransport
                  (match lookup "data" props with
                   | Some d => d
                   | None => VUndefined
                   end) ;;
        Normal (VObj (obj_set "data" data own))
      else Normal response
  | None => wrapped response message
  end.

(** A response that is already marked: [ok] is an own property. *)
Definition marked (response : value) (ok : value) : Prop :=
  match response with
  | VObj props | VArr _ props => lookup "ok" props = Some ok
  | _ => False
  end.

End HelperSpec.

(** *** The request helper *)

Module RequestSpec.
Import JS Types.

(** The [try] block of [serverActionRequest] throws [x]: encoding the
    payload throws it, or the action throws it or rejects with it. *)
Definition fails_with
  (action : Transform.FormData -> completion ServerActionResponse)
  (data : Request.payload) (x : value) : Prop :=
  Request.to_FormData data = Throw x
  \/ exists formData,
       Request.to_FormData data = Normal formData /\ action formData = Throw x.

End RequestSpec.

(* ================================================================== *)
(** ** Properties of the host fragment: decimal numerals *)
(* ================================================================== *)

Module JSFacts.
Import JS.
Local Open Scope js_scope.

(** The ten digit characters. *)
Lemma digit_char_spec d :
  (d < 10)%N -> is_digit (digit_char d) = true /\ digit_val (digit_char d) = d
                /\ (code (digit_char d) = 48 -> d = 0%N).
Proof.
  intros H.
  assert (E : In d [0;1;2;3;4;5;6;7;8;9]%N).
  { destruct d as [|p]; [now left|].
    do 10 (destruct p as [p|p|]; try lia; simpl; auto 15). }
  simpl in E.
  repeat (destruct E as [<-|E]; [repeat split; try reflexivity; vm_compute; discriminate|]).
  destruct E.
Qed.

Lemma digits_val_snoc radix ds c :
  digits_val radix (ds ++ [c]) = (radix * digits_val radix ds + digit_val c)%N.
Proof. unfold digits_val. now rewrite fold_left_app. Qed.

(** [N_digits] writes the numeral of its argument: digits only, no leading
    zero, and the value read back is the argument. *)
Lemma N_digits_rev_step fuel n :
  N_digits_rev (S fuel) n
  = if (n <? 10)%N then [digit_char n]
    else digit_char (n mod 10) :: N_digits_rev fuel (n / 10).
Proof. reflexivity. Qed.

Lemma N_digits_rev_spec fuel :
  forall n, (n < 2 ^ N.of_nat fuel)%N ->
    forallb is_digit (N_digits_rev (S fuel) n) = true
    /\ N_digits_rev (S fuel) n <> []
    /\ digits_val 10 (rev (N_digits_rev (S fuel) n)) = n
    /\ (forall c, last (N_digits_rev (S fuel) n) c = "0"%char ->
                  N_digits_rev (S fuel) n = ["0"%char]).
Proof.
  induction fuel as [|fuel IH]; intros n Hn.
  - assert (n = 0%N) by (simpl in Hn; lia). subst.
    repeat split; try reflexivity; discriminate.
  - rewrite N_digits_rev_step. destruct (N.ltb_spec n 10) as [Hs|Hs].
    + destruct (digit_char_spec n Hs) as (Hd & Hv & Hz).
      cbn [forallb rev app]. rewrite Hd. repeat split; try discriminate.
      * unfold digits_val. simpl. rewrite Hv. lia.
      * cbn [last]. intros _ E. rewrite (Hz (f_equal code E)). reflexivity.
    + assert (Hq : (n / 10 < 2 ^ N.of_nat fuel)%N).
      { apply N.Div0.div_lt_upper_bound.
        rewrite Nat2N.inj_succ, N.pow_succ_r' in Hn. lia. }
      specialize (IH _ Hq).
      destruct IH as (Hd & Hne & Hv & Hz).
      assert (Hm : (n mod 10 < 10)%N) by (apply N.mod_lt; lia).
      destruct (digit_char_spec _ Hm) as (Hd' & Hv' & _).
      set (ds := N_digits_rev (S fuel) (n / 10)) in *.
      cbn [forallb rev]. rewrite Hd', Hd. repeat split; try discriminate.
      * rewrite digits_val_snoc, Hv, Hv'. symmetry. apply N.div_mod. lia.
      * intros c E. exfalso.
        assert (L : last (digit_char (n mod 10) :: ds) c = last ds c).
        { destruct ds; [contradiction|reflexivity]. }
        rewrite L in E. apply Hz in E.
        assert (V : digits_val 10 (rev ds) = 0%N) by (rewrite E; reflexivity).
        rewrite Hv in V. 
        assert (n / 10 > 0)%N; [|lia].
        assert (1 <= n / 10)%N; [|lia]. apply N.div_le_lower_bound; lia.
Qed.

(** Characters are determined by their code. *)
Lemma code_inj a b : code a = code b -> a = b.
Proof.
  unfold code. intros H.
  rewrite <- (ascii_nat_embedding a), <- (ascii_nat_embedding b). now rewrite H.
Qed.

Lemma N_digits_spec n :
  exists c rest,
    N_digits n = c :: rest
    /\ forallb is_digit (c :: rest) = true
    /\ digits_val 10 (c :: rest) = n
    /\ (code c = 48 -> rest = []).
Proof.
  unfold N_digits.
  assert (Hn : (n < 2 ^ N.of_nat (N.to_nat (N.size n)))%N)
    by (rewrite N2Nat.id; apply N.size_gt).
  destruct (N_digits_rev_spec _ _ Hn) as (Hd & Hne & Hv & Hz).
  set (r := N_digits_rev (S (N.to_nat (N.size n))) n) in *.
  destruct (rev r) as [|c rest] eqn:E.
  - exfalso. apply Hne. rewrite <- (rev_involutive r), E. reflexivity.
  - exists c, rest. 
    assert (R : r = (rev rest ++ [c])%list).
    { rewrite <- (rev_involutive r), E. reflexivity. }
    repeat split.
    + apply forallb_forall. intros x Hx.
      rewrite forallb_forall in Hd. apply Hd. apply in_rev. now rewrite E.
    + exact Hv.
    + intros Hc. assert (c = "0"%char) by (apply code_inj; exact Hc). subst c.
      specialize (Hz "0"%char). rewrite R, last_last in Hz. specialize (Hz eq_refl).
      apply (f_equal (@length _)) in Hz. rewrite length_app, length_rev in Hz. simpl in Hz.
      destruct rest; [reflexivity|simpl in Hz; lia].
Qed.

Lemma chars_text cs : chars (text cs) = cs.
Proof. apply list_ascii_of_string_of_list_ascii. Qed.

(** The text of an index is a canonical array index. *)
Lemma array_index_index_text i :
  (N.of_nat i < 4294967295)%N -> array_index (index_text i) = Some i.
Proof.
  intros Hi. unfold array_index, index_text. rewrite chars_text.
  destruct (N_digits_spec (N.of_nat i)) as (c & rest & E & Hd & Hv & Hz).
  rewrite E, Hd, Hv. 
  assert (Hl : implb (code c =? 48)%nat (length rest =? 0)%nat = true).
  { destruct (Nat.eqb_spec (code c) 48) as [Hc|]; [|reflexivity].
    now rewrite (Hz Hc). }
  rewrite Hl. simpl. destruct (N.ltb_spec (N.of_nat i) 4294967295); [|lia].
  now rewrite Nat2N.id.
Qed.

(** Reading a numeral back. *)
Lemma is_digit_not_space c : is_digit c = true -> is_space c = false.
Proof.
  unfold is_digit, is_space. intros H. apply andb_true_iff in H as [H1 H2].
  apply Nat.leb_le in H1, H2.
  apply orb_false_iff; split; [apply orb_false_iff; split|].
  - apply andb_false_iff. right. apply Nat.leb_gt. lia.
  - apply Nat.eqb_neq. lia.
  - apply Nat.eqb_neq. lia.
Qed.

Lemma drop_spaces_head c cs : is_space c = false -> drop_spaces (c :: cs) = c :: cs.
Proof. intros H. simpl. now rewrite H. Qed.

Lemma trim_clean c cs d :
  is_space c = false -> is_space (last (c :: cs) d) = false ->
  trim (c :: cs) = c :: cs.
Proof.
  intros Hc Hl. unfold trim. rewrite drop_spaces_head by assumption.
  destruct (rev (c :: cs)) as [|x xs] eqn:E.
  - apply (f_equal (@length _)) in E. rewrite length_rev in E. discriminate.
  - assert (X : x = last (c :: cs) d).
    { rewrite <- (rev_involutive (c :: cs)), E. simpl rev. now rewrite last_last. }
    rewrite drop_spaces_head by (now rewrite X).
    rewrite <- E. apply rev_involutive.
Qed.

Lemma span_all p cs : forallb p cs = true -> span p cs = (cs, []).
Proof.
  induction cs as [|c rest IH]; simpl; [reflexivity|].
  intros H. apply andb_true_iff in H as [Hc Hr]. now rewrite Hc, (IH Hr).
Qed.

Lemma digits_val_zeros ds e :
  digits_val 10 (ds ++ zeros e)%list = (digits_val 10 ds * 10 ^ N.of_nat e)%N.
Proof.
  induction e as [|e IH].
  - simpl. rewrite app_nil_r. lia.
  - unfold zeros in *. replace (repeat "0"%char (S e)) with (repeat "0"%char e ++ ["0"%char])%list
      by (rewrite <- repeat_cons; reflexivity).
    rewrite app_assoc, digits_val_snoc, IH.
    rewrite Nat2N.inj_succ, N.pow_succ_r'. change (digit_val "0") with 0%N. lia.
Qed.

Lemma strip_zeros_power e :
  forall fuel m z,
    (m mod 10 <> 0)%N -> (e < fuel)%nat ->
    strip_zeros fuel (m * 10 ^ N.of_nat e) z = (m, (z + Z.of_nat e)%Z).
Proof.
  induction e as [|e IH]; intros fuel m z Hm Hf.
  - destruct fuel as [|fuel]; [lia|]. simpl.
    replace (m * 1)%N with m by lia.
    assert (m <> 0%N) by (intros ->; now apply Hm).
    destruct (N.eqb_spec m 0); [contradiction|].
    destruct (N.eqb_spec (m mod 10) 0); [contradiction|].
    f_equal. lia.
  - destruct fuel as [|fuel]; [lia|].
    rewrite Nat2N.inj_succ, N.pow_succ_r'.
    assert (m <> 0%N) by (intros ->; now apply Hm).
    cbn [strip_zeros].
    assert (P : (10 ^ N.of_nat e <> 0)%N) by (apply N.pow_nonzero; lia).
    destruct (N.eqb_spec (m * (10 * 10 ^ N.of_nat e)) 0) as [Z0|_]; [lia|].
    replace (m * (10 * 10 ^ N.of_nat e))%N with ((m * 10 ^ N.of_nat e) * 10)%N by lia.
    rewrite N.Div0.mod_mul, N.div_mul by lia. simpl (0 =? 0)%N. cbv iota.
    rewrite IH by (assumption || lia). f_equal. lia.
Qed.

End JSFacts.

(* ================================================================== *)
(** ** Properties of the host fragment: numeric literals *)
(* ================================================================== *)

Module NumericFacts.
Import JS NumericSpec ScanSpec JSFacts.
Local Open Scope list_scope.

(** *** Scanning *)

Lemma span_app p a b :
  forallb p a = true -> stops p b -> span p (a ++ b) = (a, b).
Proof.
  induction a as [|c a IH]; cbn [app forallb span]; intros Ha Hb.
  - destruct b as [|c b]; [reflexivity|]. cbn [span stops] in *. now rewrite Hb.
  - apply andb_true_iff in Ha as [Hc Ha]. now rewrite Hc, IH.
Qed.

Lemma span_spec p cs :
  forall a b, span p cs = (a, b) ->
    cs = a ++ b /\ forallb p a = true /\ stops p b.
Proof.
  induction cs as [|c cs IH]; cbn [span]; intros a b E.
  - injection E as <- <-. now repeat split.
  - destruct (p c) eqn:Hc.
    + destruct (span p cs) as [d t]. injection E as <- <-.
      destruct (IH d t eq_refl) as (-> & Hd & Ht).
      cbn [app forallb]. now rewrite Hc.
    + injection E as <- <-. now repeat split.
Qed.

Lemma drop_spaces_app ws cs :
  forallb is_space ws = true -> drop_spaces (ws ++ cs) = drop_spaces cs.
Proof.
  induction ws as [|c ws IH]; cbn [app forallb drop_spaces]; [reflexivity|].
  intros H. apply andb_true_iff in H as [Hc Hws]. now rewrite Hc, IH.
Qed.

Lemma drop_spaces_all ws : forallb is_space ws = true -> drop_spaces ws = [].
Proof.
  intros H. rewrite <- (app_nil_r ws). now rewrite drop_spaces_app.
Qed.

Lemma drop_spaces_spec cs :
  exists ws, cs = ws ++ drop_spaces cs
             /\ forallb is_space ws = true /\ stops is_space (drop_spaces cs).
Proof.
  induction cs as [|c cs (ws & E & Hws & Hs)]; cbn [drop_spaces].
  - now exists [].
  - destruct (is_space c) eqn:Hc.
    + exists (c :: ws). cbn [app forallb]. rewrite Hc, Hws. now rewrite <- E.
    + exists []. cbn [stops]. now repeat split.
Qed.

Lemma forallb_rev {A} (p : A -> bool) l : forallb p (rev l) = forallb p l.
Proof.
  induction l as [|x l IH]; [reflexivity|]. cbn [rev forallb].
  rewrite forallb_app, IH. cbn [forallb]. rewrite andb_true_r. apply andb_comm.
Qed.

Lemma trim_around before core after :
  forallb is_space before = true -> forallb is_space after = true ->
  tight core -> trim (before ++ core ++ after) = core.
Proof.
  intros Hb Ha [Hs He]. unfold trim. rewrite drop_spaces_app by assumption.
  destruct core as [|c core].
  - cbn [app]. now rewrite (drop_spaces_all _ Ha).
  - cbn [app stops] in *. cbn [drop_spaces]. rewrite Hs.
    change (c :: core ++ after) with ((c :: core) ++ after).
    rewrite rev_app_distr, drop_spaces_app by now rewrite forallb_rev.
    destruct (rev (c :: core)) as [|l r] eqn:E.
    + apply (f_equal (@rev ascii)) in E. rewrite rev_involutive in E.
      discriminate E.
    + cbn [stops] in He. cbn [drop_spaces]. rewrite He. rewrite <- E.
      apply rev_involutive.
Qed.

Lemma trim_spec cs :
  exists before after,
    cs = before ++ trim cs ++ after
    /\ forallb is_space before = true /\ forallb is_space after = true
    /\ tight (trim cs).
Proof.
  unfold trim. destruct (drop_spaces_spec cs) as (before & E1 & Hb & Hs).
  destruct (drop_spaces_spec (rev (drop_spaces cs))) as (after & E2 & Ha & He).
  exists before, (rev after). split; [|split; [exact Hb|split]].
  - rewrite E1 at 1. f_equal.
    rewrite <- rev_app_distr, <- E2. now rewrite rev_involutive.
  - now rewrite forallb_rev.
  - split; [|now rewrite rev_involutive].
    set (inner := drop_spaces (rev (drop_spaces cs))) in *.
    destruct (rev inner) as [|c r] eqn:Er; [exact I|]. cbn [stops].
    assert (Hin : rev (drop_spaces cs) = after ++ inner) by exact E2.
    apply (f_equal (@rev ascii)) in Hin.
    rewrite rev_involutive, rev_app_distr, Er in Hin.
    rewrite Hin in Hs. exact Hs.
Qed.

(** *** Characters *)

Lemma code_is c n : (code c =? n)%nat = true -> c = ascii_of_nat n.
Proof.
  intros H. apply Nat.eqb_eq in H. unfold code in H. subst n.
  symmetry. apply ascii_nat_embedding.
Qed.

Lemma digit_not c n :
  is_digit c = true -> (n < 48 \/ 57 < n)%nat -> (code c =? n)%nat = false.
Proof.
  intros Hd Hn. apply Nat.eqb_neq. unfold is_digit in Hd.
  apply andb_true_iff in Hd as [H1 H2]. apply Nat.leb_le in H1, H2. lia.
Qed.

Lemma Sign_stops sign negative ds :
  Sign sign negative -> digits is_digit ds -> stops is_space (sign ++ ds).
Proof.
  intros Hs [Hne Hd]. destruct Hs; cbn [app stops]; try reflexivity.
  destruct ds as [|d ds]; [contradiction|]. cbn [stops forallb] in *.
  apply andb_true_iff in Hd as [Hd _]. now apply is_digit_not_space.
Qed.

(** *** The exponent part *)

Lemma parse_exponent_sound ex e :
  ExponentPart_opt ex e -> parse_exponent ex = Some e.
Proof.
  intros [|indicator sign negative ds Hi Hs [Hne Hd]]; [reflexivity|].
  assert (Hs' : span is_digit ds = (ds, [])) by now apply span_all.
  destruct ds as [|d ds]; [contradiction|].
  assert (Hd1 : is_digit d = true)
    by (cbn [forallb] in Hd; now apply andb_true_iff in Hd as [? _]).
  unfold parse_exponent.
  replace ((code indicator =? 101)%nat || (code indicator =? 69)%nat) with true
    by (destruct Hi as [-> | ->]; reflexivity).
  destruct Hs; cbn [app].
  - rewrite (digit_not d 43 Hd1), (digit_not d 45 Hd1) by lia. now rewrite Hs'.
  - change (code "+" =? 43)%nat with true. cbv iota. now rewrite Hs'.
  - change (code "-" =? 43)%nat with false. change (code "-" =? 45)%nat with true.
    cbv iota. now rewrite Hs'.
Qed.

Lemma parse_exponent_complete cs e :
  parse_exponent cs = Some e -> ExponentPart_opt cs e.
Proof.
  unfold parse_exponent. destruct cs as [|c rest]; [intros [= <-]; constructor|].
  destruct ((code c =? 101)%nat || (code c =? 69)%nat) eqn:Hc; [|discriminate].
  assert (Hi : c = "e"%char \/ c = "E"%char).
  { apply orb_true_iff in Hc as [H|H]; apply code_is in H; now auto. }
  assert (G : forall sign negative tail,
             Sign sign negative -> rest = sign ++ tail ->
             (let (ds, tl) := span is_digit tail in
              match ds, tl with
              | _ :: _, [] =>
                  let v := Z.of_N (digits_val 10 ds) in
                  Some (if negative then (- v)%Z else v)
              | _, _ => None
              end) = Some e ->
             ExponentPart_opt (c :: rest) e).
  { intros sign negative tail Hs -> E.
    destruct (span is_digit tail) as [ds tl] eqn:Es.
    destruct (span_spec _ _ _ _ Es) as (-> & Hd & _).
    destruct ds as [|d ds]; [discriminate E|]. destruct tl; [|discriminate E].
    injection E as <-. rewrite app_nil_r.
    apply (exponent_present c sign negative (d :: ds)); try assumption.
    split; [discriminate|exact Hd]. }
  destruct rest as [|s t].
  - intros E. now apply (G [] false [] sign_absent eq_refl).
  - destruct (code s =? 43)%nat eqn:H43.
    + apply code_is in H43. subst s. intros E.
      now apply (G ["+"%char] false t sign_plus eq_refl).
    + destruct (code s =? 45)%nat eqn:H45.
      * apply code_is in H45. subst s. intros E.
        now apply (G ["-"%char] true t sign_minus eq_refl).
      * intros E. now apply (G [] false (s :: t) sign_absent eq_refl).
Qed.

Lemma exponent_stops ex e :
  ExponentPart_opt ex e ->
  stops is_digit ex /\ stops (fun c => (code c =? 46)%nat) ex.
Proof.
  intros [|indicator sign negative ds [-> | ->] _ _]; now split.
Qed.

(** *** Unsigned decimal literals *)

Lemma parse_unsigned_decimal_sound body m e :
  StrUnsignedDecimalLiteral body m e -> parse_unsigned_decimal body = Some (m, e).
Proof.
  intros [int frac ex x Hi Hf Hne Hx|int ex x [Hne Hi] Hx];
    unfold parse_unsigned_decimal;
    destruct (exponent_stops _ _ Hx) as [Hd Hp].
  - rewrite (span_app is_digit int _ Hi) by reflexivity.
    change (code "." =? 46)%nat with true. cbv iota.
    rewrite (span_app is_digit frac ex Hf Hd).
    rewrite (parse_exponent_sound _ _ Hx).
    destruct int, frac; try reflexivity. now destruct Hne.
  - rewrite (span_app is_digit int ex Hi Hd).
    destruct ex as [|c ex].
    + inversion Hx; subst. now destruct int.
    + cbn [stops] in Hp. rewrite Hp. rewrite (parse_exponent_sound _ _ Hx).
      now destruct int.
Qed.

Lemma parse_unsigned_decimal_complete cs m e :
  parse_unsigned_decimal cs = Some (m, e) -> StrUnsignedDecimalLiteral cs m e.
Proof.
  unfold parse_unsigned_decimal.
  destruct (span is_digit cs) as [int rest] eqn:Es.
  destruct (span_spec _ _ _ _ Es) as (-> & Hi & _).
  destruct rest as [|c rest1].
  - destruct int as [|d int]; [discriminate|]. intros [= <- <-].
    apply decimal_without_point; [|constructor].
    split; [discriminate|exact Hi].
  - destruct (code c =? 46)%nat eqn:Hc.
    + apply code_is in Hc. subst c.
      destruct (span is_digit rest1) as [frac rest2] eqn:Ef.
      destruct (span_spec _ _ _ _ Ef) as (-> & Hf & _).
      intros E.
      assert (Hne : int <> [] \/ frac <> []).
      { destruct int; [|left; discriminate].
        destruct frac; [discriminate E|right; discriminate]. }
      assert (E' : match parse_exponent rest2 with
                   | Some x => Some (digits_val 10 (int ++ frac),
                                     (x - Z.of_nat (length frac))%Z)
                   | None => None
                   end = Some (m, e)).
      { destruct int, frac; try exact E. discriminate E. }
      destruct (parse_exponent rest2) as [x|] eqn:Ex; [|discriminate E'].
      injection E' as <- <-.
      apply (decimal_with_point int frac rest2 x); try assumption.
      now apply parse_exponent_complete.
    + destruct int as [|d int]; [discriminate|].
      destruct (parse_exponent (c :: rest1)) as [x|] eqn:Ex; [|discriminate].
      intros [= <- <-]. apply decimal_without_point.
      * split; [discriminate|exact Hi].
      * now apply parse_exponent_complete.
Qed.

(** What a decimal literal starts and ends with. *)
Lemma decimal_first body m e :
  StrUnsignedDecimalLiteral body m e ->
  exists c rest, body = c :: rest /\ (is_digit c = true \/ c = "."%char).
Proof.
  intros [int frac ex x Hi Hf Hne Hx|int ex x [Hne Hi] Hx].
  - destruct int as [|d int].
    + exists "."%char, (frac ++ ex). now split; [|right].
    + cbn [forallb] in Hi. apply andb_true_iff in Hi as [Hd _].
      exists d, (int ++ "."%char :: frac ++ ex). now split; [|left].
  - destruct int as [|d int]; [contradiction|].
    cbn [forallb] in Hi. apply andb_true_iff in Hi as [Hd _].
    exists d, (int ++ ex). now split; [|left].
Qed.

Lemma stops_rev_digits ds tail :
  ds <> [] -> forallb is_digit ds = true ->
  stops is_space (rev (tail ++ ds)).
Proof.
  intros Hne Hd. rewrite rev_app_distr.
  destruct (rev ds) as [|l r] eqn:E.
  - apply (f_equal (@rev ascii)) in E. rewrite rev_involutive in E. contradiction.
  - cbn [app stops]. apply is_digit_not_space.
    assert (Hin : In l ds) by (apply in_rev; rewrite E; now left).
    rewrite forallb_forall in Hd. now apply Hd.
Qed.

Lemma exponent_last prefix ex e :
  ExponentPart_opt ex e -> ex <> [] -> stops is_space (rev (prefix ++ ex)).
Proof.
  intros [|indicator sign negative ds Hi Hs [Hne Hd]] Hex; [contradiction|].
  replace (prefix ++ indicator :: sign ++ ds)
    with ((prefix ++ indicator :: sign) ++ ds)
    by (rewrite <- app_assoc; reflexivity).
  now apply stops_rev_digits.
Qed.

Lemma decimal_last sign body m e :
  StrUnsignedDecimalLiteral body m e -> stops is_space (rev (sign ++ body)).
Proof.
  intros [int frac ex x Hi Hf Hne Hx|int ex x [Hne Hi] Hx].
  - destruct ex as [|c ex].
    + rewrite app_nil_r. destruct frac as [|f frac].
      * rewrite app_assoc, rev_app_distr. reflexivity.
      * replace (sign ++ int ++ "."%char :: f :: frac)
          with ((sign ++ int ++ ["."%char]) ++ f :: frac)
          by (rewrite <- !app_assoc; reflexivity).
        apply stops_rev_digits; [discriminate|exact Hf].
    + replace (sign ++ int ++ "."%char :: frac ++ c :: ex)
        with ((sign ++ int ++ "."%char :: frac) ++ c :: ex)
        by (rewrite <- !app_assoc; reflexivity).
      apply (exponent_last _ _ _ Hx). discriminate.
  - destruct ex as [|c ex].
    + rewrite app_nil_r. now apply stops_rev_digits.
    + rewrite app_assoc. apply (exponent_last _ _ _ Hx). discriminate.
Qed.

(** *** Literals *)

Lemma literal_core s : literal s = core_value (trim (chars s)).
Proof. reflexivity. Qed.

Lemma parse_radix_none c p ds :
  is_marker p = false -> parse_radix (c :: p :: ds) = None.
Proof.
  unfold is_marker, parse_radix. intros H.
  repeat (apply orb_false_iff in H as [H ?]).
  destruct (code c =? 48)%nat; [|reflexivity].
  repeat match goal with
         | E : (code p =? ?n)%nat = false |- _ => rewrite E; clear E
         end.
  reflexivity.
Qed.

Lemma digit_no_marker p : is_digit p = true -> is_marker p = false.
Proof.
  intros H. unfold is_marker. now rewrite !(digit_not p _ H) by lia.
Qed.

Lemma finite_is_finite neg m e : isNaN (finite neg m e) = false.
Proof. unfold finite. now destruct (strip_zeros _ m e). Qed.

Lemma text_first c rest word :
  text (c :: rest) = word ->
  match word with String w _ => c = w | EmptyString => False end.
Proof. intros <-. reflexivity. Qed.

Lemma parse_decimal_sound neg body m e :
  StrUnsignedDecimalLiteral body m e -> parse_decimal neg body = finite neg m e.
Proof.
  intros H. unfold parse_decimal.
  rewrite (parse_unsigned_decimal_sound _ _ _ H).
  destruct (decimal_first _ _ _ H) as (c & rest & -> & Hc).
  destruct (String.eqb_spec (text (c :: rest)) "Infinity") as [E|]; [|reflexivity].
  apply text_first in E. subst c. now destruct Hc.
Qed.

Lemma decimal_no_radix body m e :
  StrUnsignedDecimalLiteral body m e -> parse_radix body = None.
Proof.
  intros H.
  destruct (decimal_first _ _ _ H) as (c & rest & -> & Hc).
  destruct rest as [|p ds]; [reflexivity|].
  destruct Hc as [Hc| ->]; [|reflexivity].
  apply parse_radix_none.
  inversion H as [int frac ex x Hi Hf Hne Hx E|int ex x [Hne Hi] Hx E]; subst.
  - destruct int as [|d int].
    + injection E as <- _. discriminate Hc.
    + injection E as <- E. destruct int as [|d' int].
      * injection E as <- _. reflexivity.
      * injection E as <- _. apply digit_no_marker. cbn [forallb] in Hi.
        apply andb_true_iff in Hi as [_ Hi]. now apply andb_true_iff in Hi as [? _].
  - destruct int as [|d int]; [contradiction|].
    injection E as <- E. destruct int as [|d' int].
    + cbn [app] in E. subst ex.
      inversion Hx as [|indicator sign negative ds' [-> | ->] _ _]; reflexivity.
    + injection E as <- _. apply digit_no_marker. cbn [forallb] in Hi.
      apply andb_true_iff in Hi as [_ Hi]. now apply andb_true_iff in Hi as [? _].
Qed.

Lemma radix_digit_not_space marker ok radix c :
  NonDecimal marker ok radix -> ok c = true -> is_space c = false.
Proof.
  assert (H : is_hex_digit c = true -> is_space c = false).
  { unfold is_hex_digit, is_digit, is_space. intros H.
    destruct (Nat.eqb_spec (code c) 32) as [E|_]; [rewrite E in H; discriminate H|].
    destruct (Nat.eqb_spec (code c) 160) as [E|_]; [rewrite E in H; discriminate H|].
    destruct (Nat.leb_spec 9 (code c)) as [H9|_]; [|reflexivity].
    destruct (Nat.leb_spec (code c) 13) as [H13|_]; [|reflexivity].
    exfalso.
    repeat match type of H with
           | (_ || _ = true) => apply orb_true_iff in H as [H|H]
           end;
      apply andb_true_iff in H as [H1 H2];
      apply Nat.leb_le in H1, H2; lia. }
  intros [m _|m _|m _] Hc; apply H; unfold is_hex_digit;
    [exact Hc| |];
    unfold is_octal_digit, is_binary_digit, is_digit in *;
    apply andb_true_iff in Hc as [H1 H2]; apply Nat.leb_le in H1, H2;
    (replace ((48 <=? code c)%nat && (code c <=? 57)%nat) with true;
     [reflexivity|]);
    symmetry; apply andb_true_iff; split; apply Nat.leb_le; lia.
Qed.

(** A literal is tight and [core_value] gives its value. *)
Lemma StrNumericLiteral_sound core x :
  StrNumericLiteral core x -> tight core /\ core_value core = x.
Proof.
  intros [sign negative Hs|sign negative body m e Hs Hb|marker ok radix ds Hm [Hne Hd]].
  - destruct Hs; split; try reflexivity; now split.
  - split.
    + split; [|exact (decimal_last sign _ _ _ Hb)].
      destruct (decimal_first _ _ _ Hb) as (c & rest & -> & Hc).
      destruct Hs; cbn [app stops]; try reflexivity.
      destruct Hc as [Hc| ->]; [now apply is_digit_not_space|reflexivity].
    + pose proof (parse_decimal_sound negative _ _ _ Hb) as Hp.
      destruct Hs; cbn [app core_value].
      * destruct (decimal_first _ _ _ Hb) as (c & rest & E & Hc). subst body.
        cbn [core_value]. rewrite (decimal_no_radix _ _ _ Hb).
        assert (H43 : (code c =? 43)%nat = false)
          by (destruct Hc as [Hc| ->]; [apply digit_not; [exact Hc|lia]|reflexivity]).
        assert (H45 : (code c =? 45)%nat = false)
          by (destruct Hc as [Hc| ->]; [apply digit_not; [exact Hc|lia]|reflexivity]).
        now rewrite H43, H45.
      * replace (parse_radix ("+"%char :: body)) with (@None number)
          by (now destruct body as [|p ds]).
        exact Hp.
      * replace (parse_radix ("-"%char :: body)) with (@None number)
          by (now destruct body as [|p ds]).
        exact Hp.
  - split.
    + split; [reflexivity|].
      change ("0"%char :: marker :: ds) with (["0"%char; marker] ++ ds).
      rewrite rev_app_distr.
      destruct (rev ds) as [|l r] eqn:E.
      * apply (f_equal (@rev ascii)) in E. rewrite rev_involutive in E.
        contradiction.
      * cbn [app stops]. apply (radix_digit_not_space _ _ _ _ Hm).
        assert (Hin : In l ds) by (apply in_rev; rewrite E; now left).
        rewrite forallb_forall in Hd. now apply Hd.
    + cbn [core_value]. unfold parse_radix.
      change (code "0" =? 48)%nat with true. cbv iota.
      destruct ds as [|d ds]; [contradiction|].
      destruct Hm as [m [-> | ->]|m [-> | ->]|m [-> | ->]];
        cbn [code nat_of_ascii Nat.eqb orb]; cbv beta; now rewrite Hd.
Qed.

(** The white space [Number] strips is the grammar's. *)
Lemma is_space_spec c : is_space c = true <-> StrWhiteSpaceChar c.
Proof.
  unfold is_space, StrWhiteSpaceChar, code. cbn [In].
  rewrite !orb_true_iff, andb_true_iff, !Nat.leb_le, !Nat.eqb_eq. lia.
Qed.

Lemma spaces_spec cs : forallb is_space cs = true <-> Forall StrWhiteSpaceChar cs.
Proof.
  rewrite forallb_forall, Forall_forall.
  split; intros H c Hc; apply is_space_spec, H, Hc.
Qed.

(** Every derivation of the grammar gives the value [literal] computes. *)
Lemma literal_sound s x : StringNumericLiteral s x -> literal s = x.
Proof.
  intros (before & core & after & E & Hb & Ha & [[-> ->]|H]);
    apply spaces_spec in Hb, Ha; rewrite literal_core, E.
  - rewrite trim_around; [reflexivity|assumption|assumption|now split].
  - destruct (StrNumericLiteral_sound _ _ H) as [Ht Hv].
    now rewrite trim_around.
Qed.

Lemma parse_radix_complete cs x :
  parse_radix cs = Some x -> isNaN x = false -> StrNumericLiteral cs x.
Proof.
  unfold parse_radix. destruct cs as [|z [|p ds]]; try discriminate.
  destruct (code z =? 48)%nat eqn:Hz; [|discriminate].
  apply code_is in Hz. subst z.
  assert (G : forall ok radix,
             NonDecimal p ok radix ->
             match ds with
             | [] => Some NaN
             | _ :: _ =>
                 if forallb ok ds
                 then Some (finite false (digits_val radix ds) 0)
                 else Some NaN
             end = Some x ->
             isNaN x = false -> StrNumericLiteral ("0"%char :: p :: ds) x).
  { intros ok radix Hm E Hx. destruct ds as [|d ds].
    - injection E as <-. discriminate Hx.
    - destruct (forallb ok (d :: ds)) eqn:Hd.
      + injection E as <-. apply (literal_non_decimal p ok radix); [exact Hm|].
        split; [discriminate|exact Hd].
      + injection E as <-. discriminate Hx. }
  destruct ((code p =? 120)%nat || (code p =? 88)%nat) eqn:Hx.
  { apply G. constructor.
    apply orb_true_iff in Hx as [H|H]; apply code_is in H; now auto. }
  destruct ((code p =? 111)%nat || (code p =? 79)%nat) eqn:Ho.
  { apply G. constructor.
    apply orb_true_iff in Ho as [H|H]; apply code_is in H; now auto. }
  destruct ((code p =? 98)%nat || (code p =? 66)%nat) eqn:Hb; [|discriminate].
  apply G. constructor.
  apply orb_true_iff in Hb as [H|H]; apply code_is in H; now auto.
Qed.

Lemma parse_decimal_complete sign negative cs x :
  Sign sign negative -> parse_decimal negative cs = x -> isNaN x = false ->
  StrNumericLiteral (sign ++ cs) x.
Proof.
  intros Hs. unfold parse_decimal.
  destruct (String.eqb_spec (text cs) "Infinity") as [E|_].
  - intros <- _. apply (f_equal chars) in E. rewrite chars_text in E. subst cs.
    now apply literal_infinity.
  - destruct (parse_unsigned_decimal cs) as [[m e]|] eqn:Ep.
    + intros <- _. apply literal_decimal; [exact Hs|].
      now apply parse_unsigned_decimal_complete.
    + intros <-. discriminate.
Qed.

Lemma core_value_complete core :
  core <> [] -> isNaN (core_value core) = false ->
  StrNumericLiteral core (core_value core).
Proof.
  destruct core as [|c rest]; [contradiction|]. intros _. cbn [core_value].
  destruct (parse_radix (c :: rest)) as [x|] eqn:Er.
  - now apply parse_radix_complete.
  - destruct (code c =? 43)%nat eqn:H43.
    + apply code_is in H43. subst c.
      apply (parse_decimal_complete ["+"%char] false rest _ sign_plus eq_refl).
    + destruct (code c =? 45)%nat eqn:H45.
      * apply code_is in H45. subst c.
        apply (parse_decimal_complete ["-"%char] true rest _ sign_minus eq_refl).
      * apply (parse_decimal_complete [] false (c :: rest) _ sign_absent eq_refl).
Qed.

(** Whatever [literal] reads as a number is a literal of the grammar. *)
Lemma literal_complete s :
  isNaN (literal s) = false -> StringNumericLiteral s (literal s).
Proof.
  rewrite literal_core. intros Hx.
  destruct (trim_spec (chars s)) as (before & after & E & Hb & Ha & _).
  exists before, (trim (chars s)), after.
  split; [exact E|]. split; [now apply spaces_spec|].
  split; [now apply spaces_spec|].
  destruct (trim (chars s)) as [|c rest] eqn:Et.
  - left. now split.
  - right. apply core_value_complete; [discriminate|exact Hx].
Qed.

(** [literal] is the grammar: it reads [s] as [x] exactly when [s] is a
    StringNumericLiteral denoting [x], and as NaN when it is none. *)
Lemma literal_spec s x :
  StringNumericLiteral s x <-> literal s = x /\ isNaN x = false.
Proof.
  split.
  - intros H. pose proof (literal_sound s x H) as E. split; [exact E|].
    destruct H as (_ & core & _ & _ & _ & _ & [[_ ->]|H]); [reflexivity|].
    destruct H; try reflexivity; apply finite_is_finite.
  - intros [<- Hx]. now apply literal_complete.
Qed.

Lemma isNaN_rounded x : isNaN (rounded x) = isNaN x.
Proof.
  destruct x as [|neg|neg m e]; try reflexivity.
  cbn [rounded isNaN]. unfold binary64.
  destruct (shifted m 1 (- e)) as [p q].
  destruct (nearest_binary64 p q) as [[M E]|]; [|reflexivity].
  destruct (M =? 0)%N; [reflexivity|].
  destruct (scaled M 1 (- E)) as [p' q'].
  destruct (shortest _ _ _ _ _ _) as [d t]. apply finite_is_finite.
Qed.

Lemma isNaN_Number s : isNaN (Number s) = isNaN (literal s).
Proof. apply isNaN_rounded. Qed.

(** [Number] gives a number exactly on the literals of the grammar, and
    then the rounded value of the literal. *)
Lemma Number_spec s :
  (isNaN (Number s) = false <-> numeric s)
  /\ (forall x, StringNumericLiteral s x -> Number s = rounded x).
Proof.
  split.
  - rewrite isNaN_Number. split.
    + intros H. exists (literal s). now apply literal_complete.
    + intros [x H]. apply literal_spec in H as [<- H]. exact H.
  - intros x H. unfold Number. now rewrite (literal_sound s x H).
Qed.

Lemma not_numeric s : isNaN (Number s) = true <-> ~ numeric s.
Proof.
  destruct (proj1 (Number_spec s)) as [H1 H2]. split.
  - intros H Hn. rewrite (H2 Hn) in H. discriminate H.
  - intros H. destruct (isNaN (Number s)); [reflexivity|].
    exfalso. now apply H, H1.
Qed.

(** *** Array indices *)











End NumericFacts.

(* ================================================================== *)
(** ** Properties of the request orchestrator *)
(* ================================================================== *)

Module HookFacts.
Import JS Types Hook HookSpec.

Import JS Types Hook.

(** *** The tokens invariant *)

(** Aborting the current controller aborts it and spares no other. *)
Lemma signal_aborted_cons c s :
  signal_aborted c s = true -> signal_aborted c (abort_current s) = true.
Proof.
  unfold abort_current, signal_aborted.
  destruct (abortControllerRef s); simpl; intros ->; auto using orb_true_r.
Qed.

Lemma signal_aborted_current c s :
  abortControllerRef s = Some c -> signal_aborted c (abort_current s) = true.
Proof.
  unfold abort_current, signal_aborted. intros ->. simpl.
  now rewrite Nat.eqb_refl.
Qed.

(** The invariant reads only the tokens of a session. *)
Lemma tokens_inv s s' :
  tokens s = tokens s' ->
  superseded_all_but_current s -> superseded_all_but_current s'.
Proof.
  unfold tokens, superseded_all_but_current, signal_aborted.
  intros E. injection E as E1 E2 E3. rewrite <- E1, <- E2, <- E3. auto.
Qed.

Lemma abort_current_inv s :
  superseded_all_but_current s -> superseded_all_but_current (abort_current s).
Proof.
  intros [H1 H2]. split.
  - intros c Hc Hn. apply signal_aborted_cons. apply H1.
    + unfold abort_current in Hc. now destruct (abortControllerRef s).
    + unfold abort_current in Hn. now destruct (abortControllerRef s).
  - intros c Hc. unfold abort_current in *.
    destruct (abortControllerRef s) eqn:E; simpl in *; auto.
    rewrite E in Hc. auto.
Qed.

Lemma abort_current_all s :
  superseded_all_but_current s ->
  forall c, c < issued s -> signal_aborted c (abort_current s) = true.
Proof.
  intros [H1 H2] c Hc.
  destruct (abortControllerRef s) as [d|] eqn:E.
  - destruct (Nat.eq_dec d c) as [->|Hd].
    + now apply signal_aborted_current.
    + apply signal_aborted_cons, H1; [exact Hc|congruence].
  - apply signal_aborted_cons, H1; [exact Hc|congruence].
Qed.

Lemma issued_abort_current s : issued (abort_current s) = issued s.
Proof. unfold abort_current. now destruct (abortControllerRef s). Qed.

Lemma new_controller_inv s :
  (forall c, c < issued s -> signal_aborted c s = true) ->
  superseded_all_but_current (new_controller s).
Proof.
  intros H. split; simpl.
  - intros c Hc Hn. unfold signal_aborted; simpl. apply H.
    assert (c <> issued s) by congruence. lia.
  - intros c [= <-]. lia.
Qed.

(** Every operation preserves the invariant. *)
Lemma execute_inv options loading now requestData s :
  superseded_all_but_current s ->
  superseded_all_but_current (fst (execute options loading now requestData s)).
Proof.
  intros H. unfold execute.
  destruct (gate_closed options); [exact H|].
  set (s1 := match requestData with
             | Some d => set_lastRequestData (Some d) s
             | None => s
             end).
  assert (H1 : superseded_all_but_current s1).
  { apply (tokens_inv s); [|exact H]. subst s1. now destruct requestData. }
  destruct (deduplicated options loading now s1); [exact H1|].
  assert (H2 : superseded_all_but_current
                 (new_controller (abort_current (set_lastRequestTime now s1)))).
  { apply new_controller_inv. intros c Hc.
    rewrite issued_abort_current in Hc.
    apply abort_current_all; [|exact Hc].
    now apply (tokens_inv s1). }
  match goal with
  | |- context [Request.to_FormData ?p] => destruct (Request.to_FormData p)
  end; simpl; (eapply tokens_inv; [|exact H2]); reflexivity.
Qed.

Lemma resume_tokens options signal now outcome s :
  tokens (fst (resume options signal now outcome s)) = tokens s.
Proof.
  unfold resume. destruct (signal_aborted signal s); [reflexivity|].
  destruct outcome as [[m d|m e]|err]; try reflexivity.
  simpl. destruct (0 <? cacheTime options)%Z; [|reflexivity].
  unfold clear_cache_timeout. now destruct (cacheTimeoutRef _).
Qed.

Lemma clear_cache_timeout_tokens s : tokens (clear_cache_timeout s) = tokens s.
Proof. unfold clear_cache_timeout. now destruct (cacheTimeoutRef s). Qed.

Lemma mutate_tokens d s : tokens (mutate d s) = tokens s.
Proof.
  unfold mutate. simpl. destruct (cacheTimeoutRef s) eqn:E; [|reflexivity].
  unfold clear_cache_timeout. simpl. now rewrite E.
Qed.

Lemma timeout_fires_tokens h s : tokens (timeout_fires h s) = tokens s.
Proof. unfold timeout_fires. now destruct (existsb _ _). Qed.

Lemma step_inv options s s' :
  step options s s' ->
  superseded_all_but_current s -> superseded_all_but_current s'.
Proof.
  intros Hs H. destruct Hs.
  - now apply execute_inv.
  - eapply tokens_inv; [|exact H]. symmetry. apply resume_tokens.
  - unfold reset. eapply tokens_inv.
    { symmetry. apply clear_cache_timeout_tokens. }
    apply abort_current_inv. eapply tokens_inv; [|exact H]. reflexivity.
  - eapply tokens_inv; [|exact H]. symmetry. apply mutate_tokens.
  - eapply tokens_inv; [|exact H]. reflexivity.
  - eapply tokens_inv; [|exact H]. symmetry. apply timeout_fires_tokens.
  - unfold mount. destruct (isMountedRef s); [exact H|].
    assert (Hm : superseded_all_but_current (set_mounted s)).
    { eapply tokens_inv; [|exact H]. reflexivity. }
    destruct (negb (executeOnMount options)); [exact Hm|].
    destruct (condition options) as [[|]|];
      [now apply execute_inv|exact Hm|].
    destruct (revalidateOnMount options); [now apply execute_inv|exact Hm].
  - unfold unmount. eapply tokens_inv.
    { symmetry. apply clear_cache_timeout_tokens. }
    now apply abort_current_inv.
Qed.

Lemma reachable_inv options s :
  reachable options s -> superseded_all_but_current s.
Proof.
  induction 1 as [|s s' _ IH Hs].
  - split; simpl; [lia|discriminate].
  - eapply step_inv; eauto.
Qed.

(** Once aborted, a signal stays aborted. *)
Lemma execute_aborted_mono options loading now requestData s c :
  signal_aborted c s = true ->
  signal_aborted c (fst (execute options loading now requestData s)) = true.
Proof.
  intros H. unfold execute.
  destruct (gate_closed options); [exact H|].
  set (s1 := match requestData with
             | Some d => set_lastRequestData (Some d) s
             | None => s
             end).
  assert (H1 : signal_aborted c s1 = true) by (subst s1; now destruct requestData).
  destruct (deduplicated options loading now s1); [exact H1|].
  assert (H2 : signal_aborted c (abort_current (set_lastRequestTime now s1)) = true)
    by now apply signal_aborted_cons.
  match goal with
  | |- context [Request.to_FormData ?p] => destruct (Request.to_FormData p)
  end; exact H2.
Qed.

Lemma step_aborted_mono options s s' c :
  step options s s' -> signal_aborted c s = true -> signal_aborted c s' = true.
Proof.
  intros Hs H.
  assert (T : forall a b, tokens a = tokens b ->
                          signal_aborted c b = true -> signal_aborted c a = true).
  { unfold tokens, signal_aborted. intros a b E. injection E as _ E _.
    now rewrite E. }
  destruct Hs.
  - now apply execute_aborted_mono.
  - eapply T; [apply resume_tokens|exact H].
  - unfold reset. eapply T; [apply clear_cache_timeout_tokens|].
    apply signal_aborted_cons. exact H.
  - eapply T; [apply mutate_tokens|exact H].
  - exact H.
  - eapply T; [apply timeout_fires_tokens|exact H].
  - unfold mount. destruct (isMountedRef s); [exact H|].
    destruct (negb (executeOnMount options)); [exact H|].
    destruct (condition options) as [[|]|];
      [now apply execute_aborted_mono|exact H|].
    destruct (revalidateOnMount options);
      [now apply execute_aborted_mono|exact H].
  - unfold unmount. eapply T; [apply clear_cache_timeout_tokens|].
    now apply signal_aborted_cons.
Qed.

Lemma steps_aborted_mono options s s' c :
  steps options s s' -> signal_aborted c s = true -> signal_aborted c s' = true.
Proof. induction 1; eauto using step_aborted_mono. Qed.

(** *** What [execute] does, by guard *)

Lemma request_payload_started requestData now s :
  request_payload requestData (started now (remember requestData s))
  = request_payload requestData s.
Proof.
  destruct requestData; [reflexivity|].
  unfold started, abort_current; simpl. now destruct (abortControllerRef s).
Qed.

Lemma execute_started options loading now requestData s :
  gate_closed options = false ->
  deduplicated options loading now (remember requestData s) = false ->
  execute options loading now requestData s
  = (started now (remember requestData s),
     match Request.to_FormData (request_payload requestData s) with
     | Normal formData => [Invoke (issued s) formData]
     | Throw _ => []
     | Unmodelled => [Undetermined (issued s)]
     end).
Proof.
  intros Hg Hd. unfold execute. fold (remember requestData s).
  rewrite Hg, Hd. fold (started now (remember requestData s)).
  rewrite request_payload_started.
  replace (issued (abort_current (set_lastRequestTime now (remember requestData s))))
    with (issued s)
    by (rewrite issued_abort_current; now destruct requestData).
  now destruct (Request.to_FormData _).
Qed.

Lemma execute_deduplicated options loading now requestData s :
  gate_closed options = false ->
  deduplicated options loading now (remember requestData s) = true ->
  execute options loading now requestData s = (remember requestData s, []).
Proof.
  intros Hg Hd. unfold execute. fold (remember requestData s).
  now rewrite Hg, Hd.
Qed.

(** *** Supersession *)

(** C2, as amended.  In every reachable session at most one controller
    that was created is not aborted.  When a call of [execute] gets past the
    condition gate and the deduplication guard, every request started before
    it is superseded: whenever its result arrives afterwards, and whatever
    that result is, the continuation changes nothing in the session (data,
    error and loading included) and calls no callback. *)
Theorem execute_supersedes options s :
  reachable options s ->
  (forall c1 c2,
      c1 < issued s -> c2 < issued s ->
      signal_aborted c1 s = false -> signal_aborted c2 s = false -> c1 = c2)
  /\ (forall loading now requestData,
         gate_closed options = false ->
         deduplicated options loading now (remember requestData s) = false ->
         forall s' signal now' outcome,
           steps options (fst (execute options loading now requestData s)) s' ->
           signal < issued s ->
           resume options signal now' outcome s' = (s', [])).
Proof.
  intros Hr. pose proof (reachable_inv _ _ Hr) as [H1 H2]. split.
  - intros c1 c2 L1 L2 A1 A2.
    assert (E1 : abortControllerRef s = Some c1).
    { destruct (abortControllerRef s) as [d|] eqn:E.
      - destruct (Nat.eq_dec d c1) as [->|N]; [reflexivity|].
        rewrite H1 in A1; [discriminate|exact L1|congruence].
      - rewrite H1 in A1; [discriminate|exact L1|congruence]. }
    assert (E2 : abortControllerRef s = Some c2).
    { destruct (abortControllerRef s) as [d|] eqn:E.
      - destruct (Nat.eq_dec d c2) as [->|N]; [reflexivity|].
        rewrite H1 in A2; [discriminate|exact L2|congruence].
      - rewrite H1 in A2; [discriminate|exact L2|congruence]. }
    congruence.
  - intros loading now requestData Hg Hd s' signal now' outcome Hs Hlt.
    assert (A : signal_aborted signal
                  (fst (execute options loading now requestData s)) = true).
    { rewrite execute_started by assumption. simpl.
      unfold started, signal_aborted; simpl.
      change (signal_aborted signal
                (abort_current (set_lastRequestTime now (remember requestData s)))
              = true).
      apply abort_current_all.
      - apply (tokens_inv s); [now destruct requestData|now split].
      - now destruct requestData. }
    unfold resume. now rewrite (steps_aborted_mono _ _ _ _ Hs A).
Qed.

Lemma execute_supersedes_witness :
  let s' := fst (execute defaults true 5000 None in_flight) in
  resume defaults 0 6000 sample_success s' = (s', []).
Proof.
  refine (proj2 (execute_supersedes defaults in_flight _)
            true 5000%Z None _ _ _ 0 6000%Z sample_success _ _).
  - apply (reachable_step defaults initial); [apply reachable_initial|].
    apply step_execute.
  - reflexivity.
  - reflexivity.
  - apply steps_refl.
  - simpl. lia.
Defined.

(** C2 as stated fails: a second call made 100 ms after the first, while
    the session is loading, is deduplicated, so the first request is not
    superseded and its result is committed when it arrives. *)
Lemma second_call_may_not_supersede :
  let s' := fst (execute defaults true 1100 None in_flight) in
  let after := fst (resume defaults 0 1500 sample_success s') in
  data s' = VUndefined /\ loading s' = true
  /\ data after = VStr "payload" /\ loading after = false.
Proof. repeat split. Qed.

(** *** Deduplication *)

(** C6, as amended.  A first call from an idle closure invokes the action
    once (its payload encoding normally); a second call within
    [dedupingInterval] ms from a closure that sees [loading] invokes nothing
    and changes no part of the session except that it remembers its payload,
    when it has one, in [lastRequestDataRef]. *)
Theorem execute_twice_invokes_once options s t0 t1 first second formData :
  gate_closed options = false ->
  Request.to_FormData (request_payload first s) = Normal formData ->
  (t1 - t0 < dedupingInterval options)%Z ->
  let s1 := fst (execute options false t0 first s) in
  snd (execute options false t0 first s) = [Invoke (issued s) formData]
  /\ execute options true t1 second s1 = (remember second s1, []).
Proof.
  intros Hg Hf Ht.
  assert (Hd : deduplicated options false t0 (remember first s) = false)
    by (unfold deduplicated; apply andb_false_r).
  rewrite (execute_started _ _ _ _ _ Hg Hd), Hf. simpl. split; [reflexivity|].
  apply execute_deduplicated; [exact Hg|].
  unfold deduplicated. rewrite andb_true_r.
  replace (lastRequestTimeRef (remember second (started t0 (remember first s))))
    with t0.
  - now apply Z.ltb_lt.
  - destruct second; unfold started, abort_current; simpl;
      now destruct (abortControllerRef _).
Qed.

Lemma execute_twice_invokes_once_witness :
  snd (execute defaults false 1000 (Some sample_payload) initial)
  = [Invoke 0 [("id", Transform.EntryString "u1")]]
  /\ execute defaults true 1100 None in_flight = (in_flight, []).
Proof.
  refine (execute_twice_invokes_once defaults initial 1000%Z 1100%Z
            (Some sample_payload) None _ _ _ _).
  - reflexivity.
  - reflexivity.
  - reflexivity.
Defined.

(** C6 as stated fails: the deduplicated call is not a no-op, it replaces
    the remembered payload. *)
Lemma deduplicated_call_changes_the_session :
  let other := Request.AsObject (VObj [("id", VStr "u2")]) in
  let s' := fst (execute defaults true 1100 (Some other) in_flight) in
  snd (execute defaults true 1100 (Some other) in_flight) = []
  /\ lastRequestDataRef in_flight = Some sample_payload
  /\ lastRequestDataRef s' = Some other
  /\ s' <> in_flight.
Proof.
  repeat split. intros E.
  apply (f_equal lastRequestDataRef) in E. discriminate E.
Qed.

(** Outside the amended claim: the guard reads the [loading] its closure
    captured.  Two calls made through the same closure, created while the
    session was idle, both get past the guard, and the action is invoked
    twice (the first request being superseded). *)
Lemma same_closure_is_not_deduplicated :
  snd (execute defaults false 1001 None in_flight)
  = [Invoke 1 [("id", Transform.EntryString "u1")]]
  /\ signal_aborted 0 (fst (execute defaults false 1001 None in_flight)) = true.
Proof. split; reflexivity. Qed.

(** *** Failure results *)

(** C8, as amended.  When the result of a request that was not superseded
    is a failure, [error] becomes the failure message, or the text
    "Operation failed" when that message is empty; the error callback, when
    configured, is called with the same text; [loading] becomes false;
    [data] and every other part of the session stay as they were. *)
Theorem failure_keeps_data options signal now message err s :
  signal_aborted signal s = false ->
  let shown := VStr (if message =? "" then "Operation failed" else message) in
  resume options signal now (Fulfilled (ErrorActionResponse message err)) s
  = (setLoading false (setError shown s),
     if onError options then [CallOnError shown] else [])
  /\ data (setLoading false (setError shown s)) = data s.
Proof.
  intros Ha. unfold resume. rewrite Ha. unfold or_else, emit. simpl.
  destruct (message =? ""); simpl; split; reflexivity.
Qed.

Lemma failure_keeps_data_witness :
  let s := setData (VStr "kept") in_flight in
  let shown := VStr "User not found" in
  resume defaults 0 1500
    (Fulfilled (ErrorActionResponse "User not found" (new_Error "x"))) s
  = (setLoading false (setError shown s), [CallOnError shown])
  /\ data (setLoading false (setError shown s)) = VStr "kept".
Proof.
  refine (failure_keeps_data defaults 0 1500%Z "User not found" (new_Error "x")
            (setData (VStr "kept") in_flight) _).
  reflexivity.
Defined.

(** C8 as stated fails on an empty failure message: what is stored is the
    default text, not the message. *)
Lemma empty_failure_message_is_replaced :
  error (fst (resume defaults 0 1500
                (Fulfilled (ErrorActionResponse "" (new_Error ""))) in_flight))
  = VStr "Operation failed".
Proof. reflexivity. Qed.

(** *** The default payload *)

(** C10, as amended.  A call of [execute] without payload, with nothing
    remembered, invokes the action exactly when the condition gate is open
    and the call is not deduplicated (no request of the calling render in
    flight within [dedupingInterval]); the transport it then passes is the
    encoding of [{}], which has no entry.  Otherwise the action is not
    invoked.  [reset] leaves nothing remembered. *)
Theorem execute_without_payload options loading now s :
  lastRequestDataRef s = None ->
  Transform.objectToFormData (VObj []) "" = Normal []
  /\ snd (execute options loading now None s)
     = (if gate_closed options || deduplicated options loading now s then []
        else [Invoke (issued s) []])
  /\ lastRequestDataRef (reset s) = None.
Proof.
  intros Hn. split; [reflexivity|]. split.
  - destruct (gate_closed options) eqn:Hg; cbn [orb].
    { unfold execute. now rewrite Hg. }
    destruct (deduplicated options loading now s) eqn:Hd.
    { unfold execute. rewrite Hg. cbv zeta. now rewrite Hd. }
    rewrite (execute_started _ _ _ None _ Hg Hd). simpl.
    unfold request_payload. now rewrite Hn.
  - unfold reset, clear_cache_timeout, abort_current. simpl.
    destruct (abortControllerRef s); simpl; now destruct (cacheTimeoutRef s).
Qed.

Lemma execute_without_payload_witness :
  Transform.objectToFormData (VObj []) "" = Normal []
  /\ snd (execute defaults false 1000 None (reset in_flight)) = [Invoke 1 []]
  /\ lastRequestDataRef (reset (reset in_flight)) = None.
Proof.
  refine (execute_without_payload defaults false 1000%Z (reset in_flight) _).
  reflexivity.
Defined.

(** C10 as stated fails: [reset] clears the remembered payload but leaves
    [loading] set while a request is in flight, and a call of [execute]
    without payload by the next render, within [dedupingInterval] of that
    request, invokes nothing.  So does a call while the condition is
    false. *)
Lemma execute_after_reset_is_deduplicated :
  let s := reset in_flight in
  lastRequestDataRef s = None
  /\ loading s = true
  /\ execute defaults (loading s) 1100 None s = (s, [])
  /\ execute {| condition := Some false; cacheTime := 0;
                revalidateOnMount := true; revalidateOnFocus := false;
                dedupingInterval := 2000; executeOnMount := true;
                initialExecuteData := None; onSuccess := true;
                onError := true |} false 5000 None initial
     = (initial, []).
Proof. vm_compute. repeat split. Qed.

End HookFacts.

(* ================================================================== *)
(** ** Properties of the sanitizer *)
(* ================================================================== *)

Module ResponseFacts.
Import JS Types Response ValueInduction ResponseSpec.
Local Open Scope js_scope.

(** The lifted properties, pointwise. *)
Lemma on_slot_Forall (P : value -> Prop) slots :
  Forall (on_slot P) slots <-> forall x, In (Some x) slots -> P x.
Proof.
  rewrite Forall_forall. split.
  - intros H x Hx. exact (H (Some x) Hx).
  - intros H [x|] Hx; [now apply H|exact I].
Qed.

Lemma on_field_Forall (P : value -> Prop) props :
  Forall (on_field P) props <-> forall k x, In (k, x) props -> P x.
Proof.
  rewrite Forall_forall. split.
  - intros H k x Hx. exact (H (k, x) Hx).
  - intros H [k x] Hx. exact (H k x Hx).
Qed.

Import JS Types Response ValueInduction.
Local Open Scope js_scope.

(** The sanitizer on arrays and on objects, through its named loops. *)
Lemma sanitize_arr slots props :
  sanitizeForTransport (VArr slots props)
  = (slots' <- sanitize_slots slots ;; Normal (VArr slots' [])).
Proof. reflexivity. Qed.

Lemma sanitize_obj props :
  sanitizeForTransport (VObj props)
  = if Transform.constructor_is_Object props
    then (done <- sanitize_entries props [] ;; Normal (VObj done))
    else Normal (VObj props).
Proof. reflexivity. Qed.

(** Own-property bookkeeping. *)
Lemma has_own_In key props : has_own key props = true <-> In key (keys props).
Proof.
  unfold has_own. induction props as [|[k v] rest IH]; simpl.
  - split; [discriminate|tauto].
  - destruct (String.eqb_spec k key) as [->|N].
    + split; auto.
    + rewrite IH. split; [auto|]. intros [E|E]; [congruence|exact E].
Qed.

Lemma lookup_None key props : lookup key props = None <-> ~ In key (keys props).
Proof.
  rewrite <- has_own_In. unfold has_own.
  destruct (lookup key props); split; congruence.
Qed.

Lemma obj_set_fresh key v props :
  ~ In key (keys props) -> obj_set key v props = (props ++ [(key, v)])%list.
Proof.
  induction props as [|[k x] rest IH]; simpl; intros H; [reflexivity|].
  destruct (String.eqb_spec k key) as [->|N]; [tauto|].
  rewrite IH; tauto.
Qed.

Lemma obj_set_keys key v props :
  keys (obj_set key v props)
  = if has_own key props then keys props else (keys props ++ [key])%list.
Proof.
  unfold has_own. induction props as [|[k x] rest IH]; simpl; [reflexivity|].
  destruct (String.eqb_spec k key) as [->|N]; simpl; [reflexivity|].
  rewrite IH. now destruct (lookup key rest).
Qed.

Lemma obj_set_Forall (Q : string * value -> Prop) key v props :
  Forall Q props -> Q (key, v) -> Forall Q (obj_set key v props).
Proof.
  induction 1 as [|[k x] rest Hx Hr IH]; simpl; intros Hq.
  - now constructor.
  - destruct (String.eqb_spec k key) as [->|N]; constructor; auto.
Qed.

Lemma obj_set_NoDup key v props :
  NoDup (keys props) -> NoDup (keys (obj_set key v props)).
Proof.
  intros H. rewrite obj_set_keys. destruct (has_own key props) eqn:E; [exact H|].
  apply NoDup_app; [exact H|repeat constructor; simpl; tauto|].
  intros x Hx [<-|[]]. apply has_own_In in Hx. congruence.
Qed.

Lemma obj_set_In key v props k :
  In k (keys (obj_set key v props)) -> k = key \/ In k (keys props).
Proof.
  rewrite obj_set_keys. destruct (has_own key props); [auto|].
  rewrite in_app_iff. simpl. intuition.
Qed.

(** What the sanitizer returns is sanitized. *)
Lemma sanitize_slots_sanitized slots :
  Forall (on_slot (fun x => forall y, sanitizeForTransport x = Normal y -> sanitized y))
    slots ->
  forall slots', sanitize_slots slots = Normal slots' ->
                 Forall (on_slot sanitized) slots'.
Proof.
  induction 1 as [|[x|] rest Hx _ IH]; simpl; intros slots' E.
  - injection E as <-. constructor.
  - destruct (sanitizeForTransport x) as [x'| |] eqn:Ex; try discriminate.
    simpl in E. destruct (sanitize_slots rest) as [rest'| |]; try discriminate.
    injection E as <-. constructor; [apply Hx; exact Ex|now apply IH].
  - destruct (sanitize_slots rest) as [rest'| |]; try discriminate.
    injection E as <-. constructor; [exact I|now apply IH].
Qed.

Lemma sanitize_entries_sanitized todo :
  Forall (on_field (fun x => forall y, sanitizeForTransport x = Normal y -> sanitized y))
    todo ->
  forall acc done,
    sanitize_entries todo acc = Normal done ->
    NoDup (keys acc) -> ~ In "__proto__" (keys acc) ->
    Forall (on_field sanitized) acc ->
    (NoDup (keys done) /\ ~ In "__proto__" (keys done)
     /\ Forall (on_field sanitized) done)
    /\ forall k, In k (keys done) -> In k (keys acc) \/ In k (keys todo).
Proof.
  induction 1 as [|[k x] rest Hx _ IH]; simpl; intros acc done E Hn Hp Hf.
  - injection E as <-. auto.
  - destruct (sanitizeForTransport x) as [x'| |] eqn:Ex; try discriminate.
    simpl in E. destruct (String.eqb_spec k "__proto__") as [->|N];
      [discriminate|].
    apply IH in E.
    + destruct E as [E1 E2]. split; [exact E1|].
      intros k' Hk. destruct (E2 k' Hk) as [H|H]; [|auto].
      apply obj_set_In in H. intuition.
    + now apply obj_set_NoDup.
    + intros H. apply obj_set_In in H. intuition.
    + apply obj_set_Forall; [exact Hf|]. apply Hx. exact Ex.
Qed.

Lemma sanitize_sanitized x :
  forall y, sanitizeForTransport x = Normal y -> sanitized y.
Proof.
  induction x using value_induction; intros y E;
    try (injection E as <-; constructor; fail).
  - simpl in E. destruct (toISOString d); try discriminate.
    simpl in E. injection E as <-. constructor.
  - injection E as <-. unfold file_metadata.
    apply sanitized_obj.
    + simpl. repeat constructor; simpl; intuition discriminate.
    + simpl. intuition discriminate.
    + apply on_field_Forall. repeat constructor.
  - rewrite sanitize_arr in E.
    destruct (sanitize_slots slots) as [slots'| |] eqn:Es; try discriminate.
    injection E as <-. constructor. apply on_slot_Forall.
    eapply sanitize_slots_sanitized; eauto.
  - rewrite sanitize_obj in E.
    destruct (Transform.constructor_is_Object props) eqn:Ec.
    + destruct (sanitize_entries props []) as [done| |] eqn:Es; try discriminate.
      injection E as <-.
      pose proof (sanitize_entries_sanitized props H [] done Es
                    (NoDup_nil _) (fun F => F) (Forall_nil _))
        as [(Hn & Hp & Hf) _].
      apply sanitized_obj; [exact Hn|exact Hp|now apply on_field_Forall].
    + injection E as <-. now apply sanitized_opaque.
Qed.

(** A sanitized value passes through unchanged. *)
Lemma sanitize_slots_fixed slots :
  Forall (on_slot (fun y => sanitized y -> sanitizeForTransport y = Normal y)) slots ->
  Forall (on_slot sanitized) slots ->
  sanitize_slots slots = Normal slots.
Proof.
  induction 1 as [|[x|] rest Hx _ IH]; simpl; intros Hs;
    [reflexivity| |]; inversion Hs; subst.
  - rewrite Hx by assumption. simpl. now rewrite IH.
  - now rewrite IH.
Qed.

Lemma sanitize_entries_fixed todo :
  Forall (on_field (fun y => sanitized y -> sanitizeForTransport y = Normal y)) todo ->
  Forall (on_field sanitized) todo ->
  forall acc,
    NoDup (keys acc ++ keys todo) -> ~ In "__proto__" (keys todo) ->
    sanitize_entries todo acc = Normal (acc ++ todo)%list.
Proof.
  induction 1 as [|[k x] rest Hx _ IH]; simpl; intros Hs acc Hn Hp.
  - now rewrite app_nil_r.
  - inversion Hs; subst. rewrite Hx by assumption. simpl.
    destruct (String.eqb_spec k "__proto__") as [->|N]; [tauto|].
    rewrite obj_set_fresh.
    + rewrite IH; auto.
      * now rewrite <- app_assoc.
      * unfold keys in *. rewrite map_app. simpl. now rewrite <- app_assoc.
    + apply NoDup_remove_2 in Hn. rewrite in_app_iff in Hn. tauto.
Qed.

Lemma sanitized_fixed y : sanitized y -> sanitizeForTransport y = Normal y.
Proof.
  induction y using value_induction; intros Hs; try reflexivity;
    try (now inversion Hs).
  - inversion Hs; subst. rewrite sanitize_arr.
    rewrite sanitize_slots_fixed; [reflexivity|assumption|].
    now apply on_slot_Forall.
  - rewrite sanitize_obj. inversion Hs; subst.
    + destruct (Transform.constructor_is_Object props); [|reflexivity].
      rewrite sanitize_entries_fixed; [reflexivity|assumption| |assumption|assumption].
      now apply on_field_Forall.
    + now rewrite H1.
Qed.

(** C9.  Sanitizing twice is sanitizing once: where the first pass returns
    a value, a second pass returns that same value; where the first pass
    throws (an invalid date), so does the composition. *)
Theorem sanitizeForTransport_idempotent x :
  (y <- sanitizeForTransport x ;; sanitizeForTransport y) = sanitizeForTransport x.
Proof.
  destruct (sanitizeForTransport x) as [y| |] eqn:E; simpl; [|reflexivity..].
  apply sanitized_fixed. now apply (sanitize_sanitized x).
Qed.

End ResponseFacts.

(* ================================================================== *)
(** ** Properties of the wrapper *)
(* ================================================================== *)

Module WrapperFacts.
Import JS Types WrapperSpec.
Local Open Scope js_scope.

Import JS Types.
Local Open Scope js_scope.

(** *** What decoding can throw *)

Lemma find_property_throws current key : throws_only_errors (find_property current key).
Proof.
  intros x. destruct current; simpl;
    try discriminate; try (intros [= <-]; eexists; reflexivity).
  - destruct (array_index key); [destruct (slot_get _ _); discriminate|].
    destruct (key =? "length"); [discriminate|].
    destruct (lookup key props); discriminate.
  - destruct (lookup key props); discriminate.
Qed.

Lemma assign_throws current key v : throws_only_errors (assign current key v).
Proof.
  intros x. destruct current; simpl;
    try discriminate; try (intros [= <-]; eexists; reflexivity).
  - destruct (array_index key); [discriminate|].
    destruct ((key =? "length") || (key =? "__proto__")); discriminate.
  - destruct (key =? "__proto__"); [discriminate|].
    destruct (negb (has_own key props) && enumerated_before key props);
      discriminate.
Qed.

Lemma bind_throws {A B} (c : completion A) (k : A -> completion B) :
  throws_only_errors c -> (forall a, throws_only_errors (k a)) ->
  throws_only_errors (a <- c ;; k a).
Proof.
  intros Hc Hk x. destruct c as [a| |]; simpl.
  - exact (Hk a x).
  - intros [= <-]. exact (Hc e eq_refl).
  - discriminate.
Qed.

Lemma walk_throws keys final current :
  throws_only_errors (Transform.walk keys final current).
Proof.
  revert current. induction keys as [|key rest IH]; intros current.
  - apply assign_throws.
  - destruct rest as [|nextKey rest'].
    + apply assign_throws.
    + change (throws_only_errors
                (found <- find_property current key ;;
                 match found with
                 | Absent =>
                     let made := Transform.fresh_container
                                   (Transform.isNumeric nextKey) in
                     current' <- assign current key made ;;
                     child <- Transform.walk (nextKey :: rest') final made ;;
                     assign current' key child
                 | Own next =>
                     child <- Transform.walk (nextKey :: rest') final next ;;
                     assign current key child
                 | Inherited => Unmodelled
                 end)).
      apply bind_throws; [apply find_property_throws|].
      intros [next| |].
      * apply bind_throws; [apply IH|]. intros. apply assign_throws.
      * intros x; discriminate.
      * apply bind_throws; [apply assign_throws|]. intros.
        apply bind_throws; [apply IH|]. intros. apply assign_throws.
Qed.

Lemma forEach_entry_throws formData result :
  throws_only_errors (Transform.forEach_entry formData result).
Proof.
  revert result. induction formData as [|[key v] rest IH]; intros result.
  - intros x; discriminate.
  - simpl. apply bind_throws; [apply walk_throws|exact IH].
Qed.

Lemma formDataToObject_throws formData :
  throws_only_errors (Transform.formDataToObject formData).
Proof. apply forEach_entry_throws. Qed.

(** *** The [catch] block *)

Lemma on_catch_other x :
  is_Error x = false ->
  Wrapper.on_catch x
  = (text <- ToString x ;;
     Normal (ErrorActionResponse "Error processing request" (new_Error text))).
Proof. now destruct x. Qed.

(** C5, as amended.  In both revisions of the wrapper: when decoding the
    transport throws, or the raw action throws an [Error], the wrapper's
    promise resolves with a failure whose message is the error's message
    and whose error is that error; when the raw action throws a value that
    is not an [Error] and converts to a string, it resolves with a failure
    whose message is the fixed text "Error processing request" and whose
    error is a new [Error] built from that string. *)
Theorem withFormTransform_catches plain serverAction formData :
  (forall x, Transform.formDataToObject formData = Throw x ->
     exists e, x = VError e
       /\ wrapper plain serverAction formData
          = Normal (ErrorActionResponse (err_message e) e))
  /\ (forall parsed e,
        Transform.formDataToObject formData = Normal parsed ->
        serverAction parsed = Throw (VError e) ->
        wrapper plain serverAction formData
        = Normal (ErrorActionResponse (err_message e) e))
  /\ (forall parsed x text,
        Transform.formDataToObject formData = Normal parsed ->
        serverAction parsed = Throw x ->
        is_Error x = false -> ToString x = Normal text ->
        wrapper plain serverAction formData
        = Normal (ErrorActionResponse "Error processing request" (new_Error text))).
Proof.
  unfold wrapper. repeat split.
  - intros x Hx. destruct (formDataToObject_throws _ _ Hx) as [e ->].
    exists e. split; [reflexivity|].
    destruct plain;
      unfold WrapperPlain.withFormTransform, Wrapper.withFormTransform;
      now rewrite Hx.
  - intros parsed e Hp Ha.
    destruct plain;
      unfold WrapperPlain.withFormTransform, Wrapper.withFormTransform;
      rewrite Hp; simpl; now rewrite Ha.
  - intros parsed x text Hp Ha Hx Ht.
    destruct plain;
      unfold WrapperPlain.withFormTransform, Wrapper.withFormTransform;
      rewrite Hp; simpl; rewrite Ha; simpl;
      rewrite (on_catch_other _ Hx), Ht; reflexivity.
Qed.

Lemma withFormTransform_catches_witness :
  Wrapper.withFormTransform
    (throwing (VError (new_Error "User not found")))
    [("id", Transform.EntryString "7")]
  = Normal (ErrorActionResponse "User not found" (new_Error "User not found"))
  /\ Wrapper.withFormTransform (throwing (VStr "boom")) []
     = Normal (ErrorActionResponse "Error processing request" (new_Error "boom"))
  /\ exists e,
       WrapperPlain.withFormTransform (throwing VNull)
         [("a", Transform.EntryString "1"); ("a.b", Transform.EntryString "2")]
       = Normal (ErrorActionResponse (err_message e) e).
Proof.
  split; [|split].
  - exact (proj1 (proj2 (withFormTransform_catches false
             (throwing (VError (new_Error "User not found")))
             [("id", Transform.EntryString "7")]))
             (VObj [("id", VNum (Finite false 7 0))])
             (new_Error "User not found") eq_refl eq_refl).
  - exact (proj2 (proj2 (withFormTransform_catches false
             (throwing (VStr "boom")) []))
             (VObj []) (VStr "boom") "boom" eq_refl eq_refl eq_refl eq_refl).
  - destruct (Transform.formDataToObject
                [("a", Transform.EntryString "1"); ("a.b", Transform.EntryString "2")])
      as [parsed|x|] eqn:Hd;
      [vm_compute in Hd; discriminate Hd| |vm_compute in Hd; discriminate Hd].
    destruct (proj1 (withFormTransform_catches true (throwing VNull)
              [("a", Transform.EntryString "1"); ("a.b", Transform.EntryString "2")])
              x Hd) as [e [_ H]].
    exists e. exact H.
Defined.

(** C5 as stated fails: an exception that is not an [Error] but carries a
    message yields the fixed text, not that message. *)
Lemma thrown_message_is_not_kept :
  let thrown := VObj [("message", VStr "quota exceeded")] in
  Hook.message_of thrown = VStr "quota exceeded"
  /\ Wrapper.withFormTransform (throwing thrown) []
     = Normal (ErrorActionResponse "Error processing request"
                 (new_Error "[object Object]"))
  /\ WrapperPlain.withFormTransform (throwing thrown) []
     = Normal (ErrorActionResponse "Error processing request"
                 (new_Error "[object Object]")).
Proof. repeat split. Qed.

(** Outside the amended claim: the [catch] block itself throws when
    [String(error)] does, and the wrapper's promise then rejects. *)
Lemma catch_block_can_throw :
  Wrapper.withFormTransform (throwing (VObj [("toString", VNull)])) []
  = Throw (TypeError "Cannot convert object to primitive value").
Proof. reflexivity. Qed.

(** C3, failing input.  The raw action returns what the library's own
    [createErrorResponse(new Error("db timeout"), "Failed to create user")]
    builds; the wrapped result carries the error's message, and the message
    the action provided is lost. *)
Theorem provided_failure_message_is_lost :
  Response.createErrorResponse (VError (new_Error "db timeout")) "Failed to create user"
  = Normal (ErrorActionResponse "Failed to create user" (new_Error "db timeout"))
  /\ Wrapper.withFormTransform
       (returning (as_value (ErrorActionResponse "Failed to create user"
                               (new_Error "db timeout")))) []
     = Normal (ErrorActionResponse "db timeout" (new_Error "db timeout")).
Proof. split; reflexivity. Qed.

(** The same defect with an [error] field that is not an [Error]: the
    result carries neither the provided message nor the provided error. *)
Lemma provided_failure_message_is_lost_too :
  Wrapper.withFormTransform
    (returning (VObj [("ok", VBool false); ("message", VStr "User not found");
                      ("error", VStr "NOT_FOUND")])) []
  = Normal (ErrorActionResponse "Error processing request" (new_Error "NOT_FOUND")).
Proof. reflexivity. Qed.

(** The revision of src/utils/wrapper.ts does not classify at all: the same
    raw result is wrapped as a success. *)
Lemma plain_wrapper_wraps_failures_as_success :
  WrapperPlain.withFormTransform
    (returning (as_value (ErrorActionResponse "Failed to create user"
                            (new_Error "db timeout")))) []
  = Normal (SuccessActionResponse (VStr "Operation completed successfully")
              (as_value (ErrorActionResponse "Failed to create user"
                           (new_Error "db timeout")))).
Proof. reflexivity. Qed.

(** The precedence the detecting revision does implement, branch by branch. *)
Lemma classify_ok_true response data :
  Wrapper.get response "ok" = VBool true ->
  Wrapper.sanitizeDataForClient (Wrapper.get response "data") = Normal data ->
  Wrapper.classify (VObj response)
  = Normal (SuccessActionResponse
              (or_else (Wrapper.get response "message") Wrapper.default_success)
              data).
Proof. intros Hok Hd. unfold Wrapper.classify. now rewrite Hok, Hd. Qed.

Lemma classify_ok_false_without_error response text :
  Wrapper.get response "ok" = VBool false ->
  truthy (Wrapper.get response "error") = false ->
  ToString (or_else (Wrapper.get response "message") Wrapper.default_failure)
  = Normal text ->
  Wrapper.withFormTransform (returning (VObj response)) []
  = Normal (ErrorActionResponse text (new_Error text)).
Proof.
  intros Hok He Ht. unfold Wrapper.withFormTransform, returning. simpl.
  unfold Wrapper.classify, Wrapper.Error_of. now rewrite Hok, He, Ht.
Qed.

Lemma classify_data_only response data :
  (forall b, Wrapper.get response "ok" <> VBool b) ->
  Wrapper.has response "data" = true -> Wrapper.has response "error" = false ->
  Wrapper.sanitizeDataForClient (Wrapper.get response "data") = Normal data ->
  Wrapper.classify (VObj response)
  = Normal (SuccessActionResponse
              (or_else (Wrapper.get response "message") Wrapper.default_success)
              data).
Proof.
  intros Hok Hd He Hs. unfold Wrapper.classify.
  destruct (Wrapper.get response "ok") as [| |b| | | | | | | |] eqn:E;
    try (now rewrite Hd, He, Hs).
  now destruct (Hok b).
Qed.

Lemma classify_error_only response e :
  (forall b, Wrapper.get response "ok" <> VBool b) ->
  Wrapper.has response "data" = false ->
  Wrapper.get response "error" = VError e ->
  Wrapper.withFormTransform (returning (VObj response)) []
  = Normal (ErrorActionResponse (err_message e) e).
Proof.
  intros Hok Hd He.
  assert (Hh : Wrapper.has response "error" = true).
  { unfold Wrapper.has, has_own. unfold Wrapper.get in He.
    now destruct (lookup "error" response). }
  unfold Wrapper.withFormTransform, returning. simpl. unfold Wrapper.classify.
  destruct (Wrapper.get response "ok") as [| |b| | | | | | | |] eqn:E;
    try (now rewrite Hd, Hh, He).
  now destruct (Hok b).
Qed.

Lemma classify_anything_else result data :
  (forall response, result <> VObj response) ->
  Wrapper.sanitizeDataForClient result = Normal data ->
  Wrapper.classify result
  = Normal (SuccessActionResponse Wrapper.default_success data).
Proof.
  intros Hr Hs. unfold Wrapper.classify.
  destruct result; try (now rewrite Hs). now destruct (Hr props).
Qed.

End WrapperFacts.

(* ================================================================== *)
(** ** Properties of the codec *)
(* ================================================================== *)

Module TransformFacts.
Import JS Transform ValueInduction ResponseSpec CodecSpec NumericSpec ScanSpec
  JSFacts NumericFacts ResponseFacts.
Local Open Scope js_scope.

Import JS Transform ValueInduction.
Local Open Scope js_scope.

(** *** Type inference *)

(** The regular expression of the source is the date-time pattern. *)
Lemma matches_date_pattern_spec s :
  matches_date_pattern s = true <-> starts_with_date_time s.
Proof.
  unfold matches_date_pattern, starts_with_date_time. split.
  - destruct (chars s) as [|y1 [|y2 [|y3 [|y4 [|d1 [|m1 [|m2 [|d2 [|a1 [|a2 [|t
      [|h1 [|h2 [|c1 [|n1 [|n2 [|c2 [|s1 [|s2 rest]]]]]]]]]]]]]]]]]]];
      try discriminate.
    intros H. apply andb_true_iff in H as [Hd Hc]. cbn [forallb] in Hd, Hc.
    repeat match goal with
           | H : _ && _ = true |- _ => apply andb_true_iff in H as [? ?]
           end.
    repeat match goal with
           | H : (code _ =? _)%nat = true |- _ => apply code_is in H
           end.
    subst.
    exists [y1; y2; y3; y4; "-"%char; m1; m2; "-"%char; a1; a2; "T"%char;
            h1; h2; ":"%char; n1; n2; ":"%char; s1; s2], rest.
    split; [reflexivity|]. unfold date_time_pattern.
    repeat constructor; assumption.
  - intros (prefix & rest & -> & H). unfold date_time_pattern in H.
    repeat match goal with
           | H : Forall2 _ (_ :: _) _ |- _ => inversion H; subst; clear H
           end.
    match goal with H : Forall2 _ [] _ |- _ => inversion H; subst; clear H end.
    cbn [accepts] in *. subst. cbn [app forallb].
    repeat match goal with
           | H : is_digit _ = true |- _ => rewrite H; clear H
           end.
    reflexivity.
Qed.

Lemma no_date_pattern s :
  matches_date_pattern s = false <-> ~ starts_with_date_time s.
Proof.
  rewrite <- matches_date_pattern_spec.
  destruct (matches_date_pattern s); split; intros H;
    try reflexivity; try discriminate; try (exfalso; now apply H).
Qed.

(** C7.  The value [setNestedValue] stores for a string entry is the one
    the rules give, and the rules give no other: (a) a string that starts
    with the date-time pattern becomes a date, (b) a non-empty numeric
    string becomes the number it denotes, (c) "true"/"false" become
    booleans, (d) the empty string becomes null, (e) any other string is
    kept. *)
Theorem processedValue_inference s v :
  inferred s v <-> processedValue (EntryString s) = v.
Proof.
  split.
  - intros H.
    destruct H as [s Hd|s x Hd Hx He|s b Hd Hn Hb|s Hd Hn Ht Hf He|s Hd Hn Ht Hf He];
      cbn [processedValue].
    + apply matches_date_pattern_spec in Hd. now rewrite Hd.
    + apply no_date_pattern in Hd. rewrite Hd.
      rewrite (proj2 (Number_spec s) x Hx).
      assert (Hnum : isNaN (rounded x) = false).
      { rewrite <- (proj2 (Number_spec s) x Hx).
        apply (proj1 (Number_spec s)). now exists x. }
      rewrite Hnum. destruct (String.eqb_spec s ""); [contradiction|reflexivity].
    + apply no_date_pattern in Hd. rewrite Hd. subst s. now destruct b.
    + apply no_date_pattern in Hd. rewrite Hd. subst s. reflexivity.
    + apply no_date_pattern in Hd. rewrite Hd.
      destruct (isNaN (Number s)) eqn:E; cbn [negb andb].
      * destruct (String.eqb_spec s "true"); [contradiction|].
        destruct (String.eqb_spec s "false"); [contradiction|].
        destruct (String.eqb_spec s ""); [contradiction|reflexivity].
      * exfalso. apply Hn. split; [|exact He].
        now apply (proj1 (Number_spec s)).
  - intros <-. cbn [processedValue].
    destruct (matches_date_pattern s) eqn:Hd.
    { apply inferred_date. now apply matches_date_pattern_spec. }
    apply no_date_pattern in Hd.
    destruct (isNaN (Number s)) eqn:Hn; cbn [negb andb].
    + assert (Hnot : ~ numeric_and_non_empty s).
      { intros [X _]. apply not_numeric in Hn. now apply Hn. }
      destruct (String.eqb_spec s "true") as [Ht|Ht]; cbn [orb].
      { exact (inferred_boolean s true Hd Hnot Ht). }
      destruct (String.eqb_spec s "false") as [Hf|Hf].
      { exact (inferred_boolean s false Hd Hnot Hf). }
      destruct (String.eqb_spec s "") as [He|He].
      * exact (inferred_null s Hd Hnot Ht Hf He).
      * exact (inferred_string s Hd Hnot Ht Hf He).
    + destruct (String.eqb_spec s "") as [He|He]; cbn [negb].
      * assert (Hnot : ~ numeric_and_non_empty s) by (intros [_ X]; now apply X).
        subst s. apply inferred_null; try discriminate; try reflexivity.
        { exact Hd. } exact Hnot.
      * rewrite isNaN_Number in Hn. apply literal_complete in Hn.
        rewrite (proj2 (Number_spec s) _ Hn).
        now apply inferred_number.
Qed.

(** *** Container creation *)

(** No numeric string names a built-in member. *)
Lemma mem_true key names :
  mem key names = true -> In key names.
Proof.
  unfold mem. intros H. apply existsb_exists in H as [n [Hn E]].
  apply String.eqb_eq in E. now subst.
Qed.

Lemma numeric_not_builtin key :
  isNumeric key = true ->
  mem key Object_prototype_names = false
  /\ mem key Array_prototype_names = false
  /\ (key =? "length") = false /\ (key =? "__proto__") = false.
Proof.
  intros Hn.
  assert (A : forallb (fun n => negb (isNumeric n))
                ("length" :: Array_prototype_names ++ Object_prototype_names)%list
              = true) by (vm_compute; reflexivity).
  rewrite forallb_forall in A.
  assert (B : forall n,
             In n ("length" :: Array_prototype_names ++ Object_prototype_names)%list ->
             n <> key).
  { intros n Hin ->. apply A in Hin. now rewrite Hn in Hin. }
  repeat split.
  - destruct (mem key Object_prototype_names) eqn:E; [|reflexivity].
    apply mem_true in E. exfalso. apply (B key); [|reflexivity].
    right. apply in_or_app. now right.
  - destruct (mem key Array_prototype_names) eqn:E; [|reflexivity].
    apply mem_true in E. exfalso. apply (B key); [|reflexivity].
    right. apply in_or_app. now left.
  - destruct (String.eqb_spec key "length") as [->|]; [|reflexivity].
    exfalso. apply (B "length"); [now left|reflexivity].
  - destruct (String.eqb_spec key "__proto__") as [->|]; [|reflexivity].
    exfalso. apply (B "__proto__"); [|reflexivity].
    right. apply in_or_app. right. simpl. tauto.
Qed.

Lemma not_inherited_proto key : not_inherited key -> (key =? "__proto__") = false.
Proof.
  unfold not_inherited. intros H.
  destruct (String.eqb_spec key "__proto__") as [->|]; [discriminate H|reflexivity].
Qed.

(** Slots of an array that has just been created. *)
Lemma slot_set_nil i v : slot_set i v [] = (repeat None i ++ [Some v])%list.
Proof. induction i; simpl; [reflexivity|now rewrite IHi]. Qed.

Lemma slot_set_again i v w slots :
  slot_set i w (slot_set i v slots) = slot_set i w slots.
Proof.
  revert slots. induction i; intros [|s rest]; simpl; try reflexivity.
  - now rewrite IHi.
  - now rewrite IHi.
Qed.

Lemma slot_get_nil i : slot_get i [] = None.
Proof. unfold slot_get. now destruct i. Qed.

Lemma enumerated_before_nil key : enumerated_before key [] = false.
Proof. unfold enumerated_before. now destruct (array_index key). Qed.

(** A fresh container answers [in] with false for every key that can
    address it. *)
Lemma find_property_fresh numeric key :
  not_inherited key -> (numeric = true -> isNumeric key = true) ->
  find_property (fresh_container numeric) key = Normal Absent.
Proof.
  intros Hk Hn. destruct numeric; unfold fresh_container, find_property.
  - destruct (numeric_not_builtin key (Hn eq_refl)) as (Ho & Ha & Hl & _).
    destruct (array_index key); [now rewrite slot_get_nil|].
    rewrite Hl. cbn [lookup]. now rewrite Ha, Ho.
  - cbn [lookup]. now rewrite Hk.
Qed.

Lemma assign_fresh numeric key v :
  not_inherited key -> (numeric = true -> isNumeric key = true) ->
  assign (fresh_container numeric) key v
  = Normal (put (fresh_container numeric) key v).
Proof.
  intros Hk Hn. destruct numeric; unfold fresh_container, assign, put.
  - destruct (numeric_not_builtin key (Hn eq_refl)) as (_ & _ & Hl & Hp).
    destruct (array_index key); [now rewrite slot_set_nil|].
    now rewrite Hl, Hp.
  - rewrite (not_inherited_proto _ Hk), enumerated_before_nil.
    now rewrite andb_false_r.
Qed.

Lemma assign_put numeric key v w :
  not_inherited key -> (numeric = true -> isNumeric key = true) ->
  assign (put (fresh_container numeric) key v) key w
  = Normal (put (fresh_container numeric) key w).
Proof.
  intros Hk Hn. destruct numeric; unfold fresh_container, put.
  - destruct (numeric_not_builtin key (Hn eq_refl)) as (_ & _ & Hl & Hp).
    destruct (array_index key) eqn:E; unfold assign; rewrite E.
    + now rewrite <- !slot_set_nil, slot_set_again.
    + rewrite Hl, Hp. cbn [orb obj_set]. now rewrite String.eqb_refl.
  - unfold assign. rewrite (not_inherited_proto _ Hk).
    unfold has_own. cbn [lookup obj_set]. now rewrite String.eqb_refl.
Qed.

(** One iteration of the loop. *)
Lemma walk_cons key nextKey rest final current :
  walk (key :: nextKey :: rest) final current
  = (found <- find_property current key ;;
     match found with
     | Absent =>
         let made := fresh_container (isNumeric nextKey) in
         current' <- assign current key made ;;
         child <- walk (nextKey :: rest) final made ;;
         assign current' key child
     | Own next =>
         child <- walk (nextKey :: rest) final next ;;
         assign current key child
     | Inherited => Unmodelled
     end).
Proof. reflexivity. Qed.

(** Walking a path into a fresh container nests one container per key. *)
Lemma walk_fresh rest :
  forall key numeric final,
    Forall not_inherited (key :: rest) ->
    (numeric = true -> isNumeric key = true) ->
    walk (key :: rest) final (fresh_container numeric)
    = Normal (put (fresh_container numeric) key (nest rest final)).
Proof.
  induction rest as [|nextKey rest IH]; intros key numeric final Hk Hn.
  - inversion Hk; subst. simpl nest. now apply assign_fresh.
  - inversion Hk as [|? ? Hkey Hrest]; subst.
    rewrite walk_cons, find_property_fresh by assumption. cbn [bind].
    cbv zeta. rewrite assign_fresh by assumption. cbn [bind].
    rewrite IH by (assumption || tauto). cbn [bind].
    now apply assign_put.
Qed.

(** Reading a property back after an assignment. *)
Lemma lookup_obj_set key v props : lookup key (obj_set key v props) = Some v.
Proof.
  induction props as [|[k x] rest IH]; simpl.
  - now rewrite String.eqb_refl.
  - destruct (String.eqb_spec k key) as [->|N]; simpl.
    + now rewrite String.eqb_refl.
    + destruct (String.eqb_spec k key); [contradiction|exact IH].
Qed.

Lemma slot_get_set i v slots : slot_get i (slot_set i v slots) = Some v.
Proof.
  unfold slot_get. revert slots.
  induction i as [|i IH]; intros [|s rest]; simpl; try reflexivity.
  - specialize (IH []). exact IH.
  - apply IH.
Qed.

Lemma assign_find current key v current' :
  assign current key v = Normal current' ->
  find_property current' key = Normal (Own v).
Proof.
  destruct current; cbn [assign]; try discriminate.
  - destruct (array_index key) eqn:E.
    + intros [= <-]. simpl. now rewrite E, slot_get_set.
    + destruct (String.eqb_spec key "length"); [discriminate|].
      destruct (key =? "__proto__"); [discriminate|]. simpl.
      intros [= <-]. simpl. rewrite E.
      destruct (String.eqb_spec key "length"); [contradiction|].
      now rewrite lookup_obj_set.
  - destruct (key =? "__proto__"); [discriminate|].
    destruct (negb (has_own key props) && enumerated_before key props);
      [discriminate|].
    intros [= <-]. simpl. now rewrite lookup_obj_set.
Qed.

(** Assignments and walks keep a container of the kind it was. *)
Lemma assign_kind current key v current' :
  assign current key v = Normal current' -> is_array current' = is_array current.
Proof.
  destruct current; cbn [assign]; try discriminate.
  - destruct (array_index key); [now intros [= <-]|].
    destruct ((key =? "length") || (key =? "__proto__")); [discriminate|].
    now intros [= <-].
  - destruct (key =? "__proto__"); [discriminate|].
    destruct (negb (has_own key props) && enumerated_before key props);
      [discriminate|].
    now intros [= <-].
Qed.

Lemma walk_kind keys final current result :
  walk keys final current = Normal result -> is_array result = is_array current.
Proof.
  destruct keys as [|key [|nextKey rest]].
  - apply assign_kind.
  - apply assign_kind.
  - rewrite walk_cons.
    destruct (find_property current key) as [[next| |]| |]; cbn [bind];
      try discriminate.
    + destruct (walk (nextKey :: rest) final next); cbn [bind]; try discriminate.
      apply assign_kind.
    + cbv zeta. destruct (assign current key _) as [c1| |] eqn:A; cbn [bind];
        try discriminate.
      destruct (walk (nextKey :: rest) final _); cbn [bind]; try discriminate.
      intros H. apply assign_kind in H. apply assign_kind in A. congruence.
Qed.

(** A fresh container holds nothing under the key it was created for. *)
Lemma fresh_has_nothing key x :
  find_property (fresh_container (isNumeric key)) key <> Normal (Own x).
Proof.
  destruct (isNumeric key) eqn:E; unfold fresh_container, find_property.
  - destruct (numeric_not_builtin key E) as (_ & _ & Hl & _).
    destruct (array_index key); [now rewrite slot_get_nil|].
    rewrite Hl. cbn [lookup]. now destruct (_ || _).
  - cbn [lookup]. now destruct (mem key Object_prototype_names).
Qed.

Lemma get_path_fresh key prefix :
  get_path (fresh_container (isNumeric key)) (key :: prefix) = None.
Proof.
  cbn [get_path].
  destruct (find_property _ key) as [[x| |]| |] eqn:E; try reflexivity.
  now apply fresh_has_nothing in E.
Qed.

(** Every container the walk creates is a sequence exactly when the next
    segment is numeric. *)
Lemma walk_creates prefix :
  forall next rest final current result,
    prefix <> [] ->
    walk (prefix ++ next :: rest) final current = Normal result ->
    get_path current prefix = None ->
    exists c, get_path result prefix = Some c /\ is_array c = isNumeric next.
Proof.
  induction prefix as [|key prefix IH]; intros next rest final current result Hne W G;
    [contradiction|].
  destruct prefix as [|key2 prefix].
  - cbn [app] in W. rewrite walk_cons in W. cbn [get_path] in G.
    destruct (find_property current key) as [[x| |]| |]; cbn [bind] in W;
      try discriminate.
    cbv zeta in W.
    destruct (assign current key _) as [c1| |]; cbn [bind] in W; try discriminate.
    destruct (walk (next :: rest) final _) as [child| |] eqn:Wc; cbn [bind] in W;
      try discriminate.
    exists child. cbn [get_path]. rewrite (assign_find _ _ _ _ W). split; [reflexivity|].
    rewrite (walk_kind _ _ _ _ Wc). now destruct (isNumeric next).
  - change (((key :: key2 :: prefix) ++ next :: rest)%list)
      with (key :: key2 :: (prefix ++ next :: rest))%list in W.
    rewrite walk_cons in W.
    change (key2 :: (prefix ++ next :: rest))%list
      with ((key2 :: prefix) ++ next :: rest)%list in W.
    cbn [get_path] in G.
    destruct (find_property current key) as [[x| |]| |] eqn:F; cbn [bind] in W;
      try discriminate.
    + destruct (walk _ final x) as [child| |] eqn:Wc; cbn [bind] in W;
        try discriminate.
      destruct (IH next rest final x child) as (c & Hc & Hk);
        [discriminate|exact Wc|exact G|].
      exists c. split; [|exact Hk].
      change (get_path result (key :: key2 :: prefix))
        with (match find_property result key with
              | Normal (Own y) => get_path y (key2 :: prefix)
              | _ => None
              end).
      now rewrite (assign_find _ _ _ _ W).
    + cbv zeta in W.
      destruct (assign current key _) as [c1| |]; cbn [bind] in W; try discriminate.
      destruct (walk _ final _) as [child| |] eqn:Wc; cbn [bind] in W;
        try discriminate.
      destruct (IH next rest final (fresh_container (isNumeric key2)) child)
        as (c & Hc & Hk); [discriminate|exact Wc|apply get_path_fresh|].
      exists c. split; [|exact Hk].
      change (get_path result (key :: key2 :: prefix))
        with (match find_property result key with
              | Normal (Own y) => get_path y (key2 :: prefix)
              | _ => None
              end).
      now rewrite (assign_find _ _ _ _ W).
Qed.

(** C4, as amended.  In decode, for every transport entry and every level
    of its path at which no container exists yet, the container found there
    afterwards is a sequence exactly when the next segment is a numeric
    string, that is a StringNumericLiteral of the language (any numeric
    literal: "0", "12", but also "-1", "1e3", "0x10", "Infinity" or a
    segment of white space only), and a mapping otherwise.  In particular
    an entry decoded into an empty result, with no segment naming a member
    of [Object.prototype], yields one such container per segment after the
    first. *)
Theorem setNestedValue_creates_containers path value :
  (forall obj result prefix next rest,
      path_keys path = (prefix ++ next :: rest)%list -> prefix <> [] ->
      setNestedValue obj path value = Normal result ->
      get_path obj prefix = None ->
      exists c, get_path result prefix = Some c
                /\ (is_array c = true <-> NumericSpec.numeric next))
  /\ (forall key rest,
         path_keys path = key :: rest ->
         Forall not_inherited (key :: rest) ->
         setNestedValue (VObj []) path value
         = Normal (VObj [(key, nest rest (processedValue value))])).
Proof.
  split.
  - intros obj result prefix next rest Hp Hne W G.
    unfold setNestedValue in W. rewrite Hp in W.
    destruct (walk_creates prefix next rest _ obj result Hne W G) as (c & Hc & Hk).
    exists c. split; [exact Hc|]. rewrite Hk. unfold isNumeric.
    rewrite negb_true_iff. apply (proj1 (Number_spec next)).
  - intros key rest Hp Hk. unfold setNestedValue. rewrite Hp.
    exact (walk_fresh rest key false (processedValue value) Hk
             (fun E => False_ind _ (Bool.diff_false_true E))).
Qed.

Lemma setNestedValue_creates_containers_witness :
  (exists c,
      get_path (VObj [("user", VObj [("tags", VArr [None; None; Some (VStr "x")] [])])])
        ["user"; "tags"] = Some c
      /\ (is_array c = true <-> NumericSpec.numeric "2"))
  /\ setNestedValue (VObj []) "user.tags[2]" (EntryString "x")
     = Normal (VObj [("user", VObj [("tags", VArr [None; None; Some (VStr "x")] [])])]).
Proof.
  split.
  - refine (proj1 (setNestedValue_creates_containers "user.tags[2]" (EntryString "x"))
              (VObj [("user", VObj [])])
              (VObj [("user", VObj [("tags", VArr [None; None; Some (VStr "x")] [])])])
              ["user"; "tags"] "2" [] _ _ _ _);
      [reflexivity|discriminate|vm_compute; reflexivity|reflexivity].
  - refine (proj2 (setNestedValue_creates_containers "user.tags[2]" (EntryString "x"))
              "user" ["tags"; "2"] _ _);
      [reflexivity|repeat constructor].
Defined.

(** A segment of one no-break space is a numeric string, so the container
    made for it is a sequence. *)
Lemma blank_segment_creates_a_sequence :
  NumericSpec.numeric (String (ascii_of_nat 160) "")
  /\ formDataToObject [(String "a" (String "." (String (ascii_of_nat 160) "")),
                        EntryString "x")]
     = Normal (VObj [("a", VArr [] [(String (ascii_of_nat 160) "", VStr "x")])]).
Proof.
  split; [|vm_compute; reflexivity].
  apply (proj1 (Number_spec _)). vm_compute. reflexivity.
Qed.

(** C4 as stated fails: the segment "-1" is not a non-negative integer, yet
    the container created for it is a sequence (the value lands in a
    property of that array, not in a slot). *)
Lemma negative_segment_creates_a_sequence :
  nonnegative_integer "-1" = false
  /\ formDataToObject [("a[-1]", EntryString "x")]
     = Normal (VObj [("a", VArr [] [("-1", VStr "x")])]).
Proof. split; reflexivity. Qed.


(** *** Paths: splitting the keys the encoder builds *)

Lemma split_nonempty s : split s <> [].
Proof.
  destruct s as [|c r]; simpl; [discriminate|].
  destruct (is_separator c); [discriminate|]. destruct (split r); discriminate.
Qed.

Lemma split_append_separator a c b :
  is_separator c = true ->
  split (a ++ String c b) = (split a ++ split b)%list.
Proof.
  intros Hc. induction a as [|x a IH]; simpl.
  - now rewrite Hc.
  - destruct (is_separator x); [now rewrite IH|].
    rewrite IH. pose proof (split_nonempty a). now destruct (split a).
Qed.

Lemma split_free s : free_of_separators s = true -> split s = [s].
Proof.
  unfold free_of_separators. induction s as [|c r IH]; simpl; [reflexivity|].
  intros H. apply andb_true_iff in H as [Hc Hr].
  apply negb_true_iff in Hc. rewrite Hc, (IH Hr). reflexivity.
Qed.

Lemma path_keys_append_separator a c b :
  is_separator c = true ->
  path_keys (a ++ String c b) = (path_keys a ++ path_keys b)%list.
Proof.
  intros Hc. unfold path_keys. now rewrite split_append_separator, filter_app.
Qed.

Lemma path_keys_plain s : plain s = true -> path_keys s = [s].
Proof.
  unfold plain, path_keys. intros H. apply andb_true_iff in H as [He Hf].
  rewrite (split_free _ Hf). simpl. now rewrite He.
Qed.

Lemma path_keys_dot key nested :
  plain nested = true ->
  path_keys (key ++ "." ++ nested) = (path_keys key ++ [nested])%list.
Proof.
  intros H. change (key ++ "." ++ nested) with (key ++ String "."%char nested).
  rewrite path_keys_append_separator by reflexivity.
  rewrite (path_keys_plain nested) by assumption. reflexivity.
Qed.

Lemma path_keys_bracket key index :
  plain index = true ->
  path_keys (key ++ "[" ++ index ++ "]") = (path_keys key ++ [index])%list.
Proof.
  intros H.
  change (key ++ "[" ++ index ++ "]") with (key ++ String "["%char (index ++ String "]"%char "")).
  rewrite path_keys_append_separator by reflexivity.
  rewrite path_keys_append_separator by reflexivity.
  rewrite (path_keys_plain index) by assumption. reflexivity.
Qed.

Lemma digit_not_separator c : is_digit c = true -> is_separator c = false.
Proof.
  unfold is_digit, is_separator. intros H.
  apply andb_true_iff in H as [H1 H2].
  apply Nat.leb_le in H1, H2.
  repeat (apply orb_false_iff; split); apply Nat.eqb_neq; lia.
Qed.

Lemma index_text_plain i : plain (index_text i) = true.
Proof.
  unfold plain, free_of_separators, index_text. rewrite chars_text.
  destruct (N_digits_spec (N.of_nat i)) as (c & rest & E & Hd & _).
  rewrite E. apply andb_true_iff. split.
  - reflexivity.
  - apply forallb_forall. intros x Hx. rewrite forallb_forall in Hd.
    apply negb_true_iff, digit_not_separator, Hd, Hx.
Qed.

Lemma append_nonempty a b : b <> "" -> (a ++ b)%string <> "".
Proof. destruct a; simpl; [auto|discriminate]. Qed.

(** *** The round trip: what the encoder writes *)

(** The decoder, entry by entry, on prepared entries. *)
Lemma forEach_entry_prepared formData result :
  forEach_entry formData result = walk_all (prepared formData) result.
Proof.
  revert result. induction formData as [|[k v] rest IH]; intros result; simpl.
  - reflexivity.
  - unfold setNestedValue. destruct (walk _ _ _); simpl; auto.
Qed.

Lemma under_below k ks es : below ks (under k es) = below (ks ++ [k])%list es.
Proof.
  unfold below, under. rewrite map_map. apply map_ext. intros [p f]. simpl.
  now rewrite <- app_assoc.
Qed.

Lemma below_app ks a b : below ks (a ++ b)%list = (below ks a ++ below ks b)%list.
Proof. apply map_app. Qed.

Lemma prepared_app a b : prepared (a ++ b)%list = (prepared a ++ prepared b)%list.
Proof. apply map_app. Qed.

Lemma append_arr slots props key :
  appendToFormData (VArr slots props) key = append_slots key slots 0.
Proof. reflexivity. Qed.

Lemma append_obj props key :
  appendToFormData (VObj props) key
  = if constructor_is_Object props then append_fields key props
    else (s <- ToString (VObj props) ;; Normal [(key, EntryString s)]).
Proof. reflexivity. Qed.

Lemma append_fields_root props : appendAll "" props = append_fields "" props.
Proof.
  induction props as [|[k v] rest IH]; simpl; [reflexivity|]. now rewrite IH.
Qed.

Lemma encodes_scalar v s :
  scalar_text v = Some s ->
  (forall key, appendToFormData v key = Normal [(key, EntryString s)]) ->
  reinterpret v = processedValue (EntryString s) ->
  rel v = [([], reinterpret v)] ->
  encodes v.
Proof.
  intros Hs Ha Hr Hl _ key _. exists [(key, EntryString s)]. split; [apply Ha|].
  rewrite Hl, Hr. unfold prepared, below. simpl. now rewrite app_nil_r.
Qed.

Lemma portable_key_plain k : portable_key k = true -> plain k = true.
Proof.
  unfold portable_key. intros H.
  apply andb_true_iff in H as [H _]. now apply andb_true_iff in H as [H _].
Qed.

(** An array index is a numeric string, so a portable key is none. *)
Lemma array_index_numeric key i : array_index key = Some i -> isNumeric key = true.
Proof.
  unfold array_index. destruct (chars key) as [|c rest] eqn:E; [discriminate|].
  destruct (forallb is_digit (c :: rest) && _) eqn:Hd; [|discriminate].
  intros _. apply andb_true_iff in Hd as [Hd _].
  unfold isNumeric. apply negb_true_iff. apply (proj1 (Number_spec key)).
  exists (finite false (digits_val 10 (c :: rest)) 0).
  exists [], (c :: rest), []. rewrite app_nil_r. cbn [app].
  split; [exact E|]. split; [constructor|]. split; [constructor|]. right.
  assert (Hi : digits is_digit (c :: rest)) by (split; [discriminate|exact Hd]).
  pose proof (decimal_without_point (c :: rest) [] 0 Hi exponent_absent) as H.
  rewrite app_nil_r in H.
  exact (literal_decimal [] false (c :: rest) _ _ sign_absent H).
Qed.

Lemma portable_key_no_index k : portable_key k = true -> array_index k = None.
Proof.
  intros Hk. destruct (array_index k) as [i|] eqn:E; [|reflexivity].
  apply array_index_numeric in E. unfold portable_key in Hk.
  apply andb_true_iff in Hk as [Hk _]. apply andb_true_iff in Hk as [_ Hk].
  rewrite E in Hk. discriminate Hk.
Qed.

Lemma plain_nonempty k : plain k = true -> k <> "".
Proof.
  unfold plain. intros H E. subst. discriminate H.
Qed.

Lemma encodes_slots key items :
  key <> "" ->
  Forall (on_slot encodes) items ->
  forallb (fun slot => match slot with
                       | Some x => portable_child x
                       | None => false
                       end) items = true ->
  forall index,
  exists formData,
    append_slots key items index = Normal formData
    /\ prepared formData = below (path_keys key) (rel_slots rel items index).
Proof.
  intros Hk. induction 1 as [|[x|] rest Hx _ IH];
    cbn [append_slots rel_slots forallb]; intros Hp index.
  - exists []. split; reflexivity.
  - apply andb_true_iff in Hp as [Hpx Hpr].
    destruct (Hx Hpx (key ++ "[" ++ index_text index ++ "]")) as (fd1 & E1 & P1).
    { apply append_nonempty. discriminate. }
    destruct (IH Hpr (S index)) as (fd2 & E2 & P2).
    exists (fd1 ++ fd2)%list. rewrite E1, E2. split; [reflexivity|].
    rewrite prepared_app, below_app, P1, P2, under_below.
    now rewrite path_keys_bracket by apply index_text_plain.
  - discriminate.
Qed.

Lemma encodes_fields key fields :
  Forall (on_field encodes) fields ->
  forallb portable_key (keys fields) = true ->
  forallb (fun field => portable_child (snd field)) fields = true ->
  exists formData,
    append_fields key fields = Normal formData
    /\ prepared formData = below (path_keys key) (rel_fields rel fields).
Proof.
  induction 1 as [|[k x] rest Hx _ IH];
    cbn [append_fields rel_fields forallb keys map fst snd]; intros Hk Hp.
  - exists []. split; reflexivity.
  - apply andb_true_iff in Hk as [Hk Hkr].
    apply andb_true_iff in Hp as [Hpx Hpr].
    unfold on_field in Hx. cbn [snd] in Hx.
    pose proof (portable_key_plain _ Hk) as Hplain.
    pose proof (plain_nonempty _ Hplain) as Hne.
    destruct (IH Hkr Hpr) as (fd2 & E2 & P2).
    destruct (String.eqb_spec key "") as [->|Hkey].
    + destruct (Hx Hpx k Hne) as (fd1 & E1 & P1).
      exists (fd1 ++ fd2)%list. rewrite E1, E2. split; [reflexivity|].
      rewrite prepared_app, below_app, P1, P2, under_below.
      now rewrite path_keys_plain.
    + destruct (Hx Hpx (key ++ "." ++ k)) as (fd1 & E1 & P1).
      { apply append_nonempty. discriminate. }
      exists (fd1 ++ fd2)%list. rewrite E1, E2. split; [reflexivity|].
      rewrite prepared_app, below_app, P1, P2, under_below.
      now rewrite path_keys_dot.
Qed.

Lemma portable_keys_constructor props :
  forallb portable_key (keys props) = true -> constructor_is_Object props = true.
Proof.
  intros H. unfold constructor_is_Object. apply negb_true_iff.
  destruct (has_own "constructor" props) eqn:E; [|reflexivity].
  apply has_own_In in E. rewrite forallb_forall in H. apply H in E.
  discriminate E.
Qed.

(** Every portable value encodes to its relative entries. *)
Lemma encodes_all v : encodes v.
Proof.
  induction v using value_induction;
    try (intros Hp; discriminate Hp);
    try (eapply encodes_scalar; reflexivity).
  - eapply encodes_scalar; try reflexivity. now destruct b.
  - intros Hp key Hk. simpl in Hp.
    repeat (apply andb_true_iff in Hp as [Hp ?]).
    rewrite append_arr. now apply encodes_slots.
  - intros Hp key Hk. simpl in Hp.
    repeat (apply andb_true_iff in Hp as [Hp ?]).
    unfold portable_keys in *.
    match goal with H : _ && _ = true |- _ => apply andb_true_iff in H as [? ?] end.
    rewrite append_obj, portable_keys_constructor by assumption.
    now apply encodes_fields.
Qed.

(** *** The round trip: what the decoder builds *)

(** A vacant key: absent before the assignment, present after it. *)
Lemma slot_get_end slots : slot_get (length slots) slots = None.
Proof.
  unfold slot_get.
  assert (nth_error slots (length slots) = None) by (apply nth_error_None; lia).
  now rewrite H.
Qed.

Lemma slot_get_last slots x : slot_get (length slots) (slots ++ [Some x]) = Some x.
Proof.
  unfold slot_get. rewrite nth_error_app2 by lia. now rewrite Nat.sub_diag.
Qed.

Lemma slot_set_end slots x : slot_set (length slots) x slots = (slots ++ [Some x])%list.
Proof. induction slots as [|s rest IH]; simpl; [reflexivity|now rewrite IH]. Qed.

Lemma slot_set_last slots x y :
  slot_set (length slots) y (slots ++ [Some x]) = (slots ++ [Some y])%list.
Proof. induction slots as [|s rest IH]; simpl; [reflexivity|now rewrite IH]. Qed.

Lemma lookup_last k x props :
  ~ In k (keys props) -> lookup k (props ++ [(k, x)]) = Some x.
Proof.
  induction props as [|[k' v] rest IH]; simpl; intros H.
  - now rewrite String.eqb_refl.
  - destruct (String.eqb_spec k' k) as [->|]; [tauto|]. apply IH. tauto.
Qed.

Lemma obj_set_last k x y props :
  ~ In k (keys props) -> obj_set k y (props ++ [(k, x)]) = (props ++ [(k, y)])%list.
Proof.
  induction props as [|[k' v] rest IH]; simpl; intros H.
  - now rewrite String.eqb_refl.
  - destruct (String.eqb_spec k' k) as [->|]; [tauto|]. rewrite IH; tauto.
Qed.

Lemma vacant_find container k :
  vacant container k -> find_property container k = Normal Absent.
Proof.
  destruct container; try (simpl; tauto); cbn [vacant find_property].
  - intros ->. now rewrite slot_get_end.
  - intros [Hk [Hi _]]. apply lookup_None in Hk. unfold not_inherited in Hi.
    now rewrite Hk, Hi.
Qed.

Lemma vacant_assign container k x :
  vacant container k -> assign container k x = Normal (extend container k x).
Proof.
  destruct container; simpl; try tauto.
  - intros ->. now rewrite slot_set_end.
  - intros [Hk [Hi Ha]]. rewrite (not_inherited_proto _ Hi).
    unfold enumerated_before. rewrite Ha, andb_false_r.
    now rewrite obj_set_fresh.
Qed.

Lemma extend_find container k x :
  vacant container k -> find_property (extend container k x) k = Normal (Own x).
Proof.
  destruct container; simpl; try tauto.
  - intros ->. now rewrite slot_get_last.
  - intros [Hk [Hi _]]. now rewrite lookup_last.
Qed.

Lemma extend_assign container k x y :
  vacant container k ->
  assign (extend container k x) k y = Normal (extend container k y).
Proof.
  destruct container; simpl; try tauto.
  - intros ->. now rewrite slot_set_last.
  - intros [Hk [Hi _]]. rewrite (not_inherited_proto _ Hi).
    unfold has_own. rewrite lookup_last by assumption. cbn [negb andb].
    now rewrite obj_set_last.
Qed.

(** Entries under a key that already holds a container go into it. *)
Lemma walk_all_existing container k more es :
  vacant container k -> deep es ->
  forall cur cur',
    walk_all es cur = Normal cur' ->
    walk_all (under k es ++ more) (extend container k cur)
    = walk_all more (extend container k cur').
Proof.
  intros Hv. induction 1 as [|[p f] rest Hp _ IH]; intros cur cur' E.
  - simpl in E. injection E as <-. reflexivity.
  - simpl in Hp. destruct p as [|k1 p]; [contradiction|].
    cbn [walk_all] in E.
    destruct (walk (k1 :: p) f cur) as [c1| |] eqn:W; try discriminate E.
    cbn [bind] in E.
    cbn [under map app fst snd walk_all].
    rewrite walk_cons, extend_find by assumption. cbn [bind].
    rewrite W. cbn [bind]. rewrite extend_assign by assumption. cbn [bind].
    now apply IH.
Qed.

(** The first entry under a vacant key creates the container. *)
Lemma walk_all_created container k more k1 p f rest cur' :
  vacant container k -> deep rest ->
  walk_all ((k1 :: p, f) :: rest) (fresh_container (isNumeric k1)) = Normal cur' ->
  walk_all (under k ((k1 :: p, f) :: rest) ++ more) container
  = walk_all more (extend container k cur').
Proof.
  intros Hv Hd E. cbn [walk_all] in E.
  destruct (walk (k1 :: p) f _) as [c1| |] eqn:W; try discriminate E.
  cbn [bind] in E.
  cbn [under map app fst snd walk_all].
  rewrite walk_cons, vacant_find by assumption. cbn [bind]. cbv zeta.
  rewrite vacant_assign by assumption. cbn [bind].
  rewrite W. cbn [bind]. rewrite extend_assign by assumption. cbn [bind].
  now apply (walk_all_existing container k more rest Hv Hd c1 cur').
Qed.

(** Entries below a container all carry a path. *)
Lemma deep_under k es : deep (under k es).
Proof.
  unfold deep, under. apply Forall_forall. intros e He.
  apply in_map_iff in He as [e' [<- _]]. discriminate.
Qed.

Lemma deep_app a b : deep a -> deep b -> deep (a ++ b).
Proof. unfold deep. intros. apply Forall_app. now split. Qed.

Lemma deep_slots items index : deep (rel_slots rel items index).
Proof.
  revert index. induction items as [|[x|] rest IH]; intros index; simpl.
  - constructor.
  - apply deep_app; [apply deep_under|apply IH].
  - apply IH.
Qed.

Lemma deep_fields fields : deep (rel_fields rel fields).
Proof.
  induction fields as [|[k x] rest IH]; simpl.
  - constructor.
  - apply deep_app; [apply deep_under|apply IH].
Qed.

Lemma rel_nonempty v : portable_child v = true -> rel v <> [].
Proof.
  induction v using value_induction; intros Hp; try discriminate Hp;
    try (simpl; discriminate).
  - simpl in Hp. repeat (apply andb_true_iff in Hp as [Hp ?]).
    destruct slots as [|[x|] rest]; try discriminate.
    inversion H as [|? ? Hx _]; subst. simpl in Hx.
    cbn [forallb] in *.
    match goal with X : _ && _ = true |- _ => apply andb_true_iff in X as [Px _] end.
    specialize (Hx Px). cbn [rel rel_slots].
    destruct (rel x); [contradiction|discriminate].
  - simpl in Hp. repeat (apply andb_true_iff in Hp as [Hp ?]).
    destruct props as [|[k x] rest]; try discriminate.
    inversion H as [|? ? Hx _]; subst. unfold on_field in Hx. simpl in Hx.
    cbn [forallb snd] in *.
    match goal with X : portable_child x && _ = true |- _ =>
      apply andb_true_iff in X as [Px _] end.
    specialize (Hx Px). cbn [rel rel_fields].
    destruct (rel x); [contradiction|discriminate].
Qed.

(** Decoding the entries of the elements, or of the fields, one after the
    other fills a container in order. *)
Lemma fill_slots todo :
  Forall (on_slot decodes) todo ->
  forallb (fun slot => match slot with
                       | Some x => portable_child x
                       | None => false
                       end) todo = true ->
  forall done more,
    (N.of_nat (length done + length todo) < 4294967295)%N ->
    walk_all (rel_slots rel todo (length done) ++ more) (VArr done [])
    = walk_all more (VArr (done ++ map reinterpret_slot todo) []).
Proof.
  induction 1 as [|[x|] rest Hx _ IH]; cbn [forallb rel_slots map];
    intros Hp done more Hb.
  - now rewrite app_nil_r.
  - apply andb_true_iff in Hp as [Hpx Hpr].
    rewrite <- app_assoc.
    rewrite (Hx Hpx (VArr done []) (index_text (length done))).
    + cbn [extend].
      replace (S (length done)) with (length (done ++ [Some (reinterpret x)]))
        by (rewrite length_app; simpl; lia).
      rewrite IH.
      * now rewrite <- app_assoc.
      * exact Hpr.
      * rewrite length_app. simpl in *. lia.
    + cbn [vacant]. apply array_index_index_text. simpl in Hb. lia.
  - discriminate.
Qed.

Lemma fill_fields todo :
  Forall (on_field decodes) todo ->
  forallb portable_key (keys todo) = true ->
  forallb (fun field => portable_child (snd field)) todo = true ->
  forall done more,
    NoDup (keys done ++ keys todo) ->
    walk_all (rel_fields rel todo ++ more) (VObj done)
    = walk_all more (VObj (done ++ map reinterpret_field todo)).
Proof.
  induction 1 as [|[k x] rest Hx _ IH];
    cbn [forallb rel_fields map keys fst snd]; intros Hk Hp done more Hn.
  - now rewrite app_nil_r.
  - apply andb_true_iff in Hk as [Hk Hkr].
    apply andb_true_iff in Hp as [Hpx Hpr].
    unfold on_field in Hx. cbn [snd] in Hx.
    rewrite <- app_assoc.
    rewrite (Hx Hpx (VObj done) k).
    + cbn [extend]. rewrite IH.
      * unfold reinterpret_field at 2. cbn [fst snd]. now rewrite <- app_assoc.
      * exact Hkr.
      * exact Hpr.
      * unfold keys in *. rewrite map_app. cbn [map fst]. now rewrite <- app_assoc.
    + cbn [vacant]. split; [|split].
      * apply NoDup_remove_2 in Hn. rewrite in_app_iff in Hn. tauto.
      * unfold portable_key in Hk. apply andb_true_iff in Hk as [_ Hk].
        now apply negb_true_iff in Hk.
      * now apply portable_key_no_index.
Qed.

Lemma distinct_NoDup ks : distinct ks = true -> NoDup ks.
Proof.
  induction ks as [|k rest IH]; simpl; intros H; constructor.
  - apply andb_true_iff in H as [H _]. apply negb_true_iff in H.
    intros Hin. unfold mem in H.
    assert (existsb (String.eqb k) rest = true); [|congruence].
    apply existsb_exists. exists k. split; [exact Hin|apply String.eqb_refl].
  - apply IH. now apply andb_true_iff in H as [_ H].
Qed.

Lemma decodes_scalar v :
  rel v = [([], reinterpret v)] -> decodes v.
Proof.
  intros Hr _ container k more Hv. rewrite Hr.
  cbn [under map app fst snd walk_all walk].
  now rewrite vacant_assign.
Qed.

(** Every portable value decodes to its reinterpretation. *)
Lemma decodes_all v : decodes v.
Proof.
  induction v as [ | |b|n|s|d|f|e|r|slots props IHs IHp|props IHp]
    using value_induction;
    try (intros Hp; discriminate Hp);
    try (apply decodes_scalar; reflexivity).
  - (* sequences *)
    intros Hp container k more Hv.
    pose proof (rel_nonempty _ Hp) as Hne.
    simpl in Hp.
    apply andb_true_iff in Hp as [Hp Hall].
    apply andb_true_iff in Hp as [Hp Hlen].
    apply andb_true_iff in Hp as [Hprops Hnz].
    destruct props; [|discriminate].
    assert (E : walk_all (rel (VArr slots [])) (VArr [] [])
                = Normal (reinterpret (VArr slots []))).
    { assert (Hb : (N.of_nat (length (@nil (option value)) + length slots)
                    < 4294967295)%N) by now apply N.ltb_lt.
      pose proof (fill_slots slots IHs Hall [] [] Hb) as F.
      cbn [length app walk_all] in F. rewrite app_nil_r in F. exact F. }
    pose proof (deep_slots slots 0) as Hd. cbn [rel] in *.
    destruct slots as [|[x|] rest]; try discriminate.
    cbn [rel_slots] in *.
    assert (Hx : rel x <> []).
    { apply rel_nonempty. cbn [forallb] in Hall.
      now apply andb_true_iff in Hall as [? _]. }
    destruct (rel x) as [|[p f] tl]; [contradiction|].
    cbn [under map app fst snd] in *.
    inversion Hd; subst.
    now apply walk_all_created.
  - (* mappings *)
    intros Hp container k more Hv.
    pose proof (rel_nonempty _ Hp) as Hne.
    simpl in Hp.
    apply andb_true_iff in Hp as [Hp Hall].
    apply andb_true_iff in Hp as [Hnz Hkeys].
    unfold portable_keys in Hkeys.
    apply andb_true_iff in Hkeys as [Hdis Hkeys].
    assert (E : walk_all (rel (VObj props)) (VObj [])
                = Normal (reinterpret (VObj props))).
    { pose proof (fill_fields props IHp Hkeys Hall [] []
                    (distinct_NoDup _ Hdis)) as F.
      cbn [app walk_all] in F. rewrite app_nil_r in F. exact F. }
    pose proof (deep_fields props) as Hd. cbn [rel] in *.
    destruct props as [|[k1 x] rest]; try discriminate.
    cbn [rel_fields] in *.
    assert (Hx : rel x <> []).
    { apply rel_nonempty. cbn [forallb snd] in Hall.
      now apply andb_true_iff in Hall as [? _]. }
    destruct (rel x) as [|[p f] tl]; [contradiction|].
    cbn [under map app fst snd] in *.
    inversion Hd; subst.
    assert (Hnum : isNumeric k1 = false).
    { cbn [keys map fst forallb] in Hkeys.
      apply andb_true_iff in Hkeys as [Hk1 _].
      unfold portable_key in Hk1. apply andb_true_iff in Hk1 as [Hk1 _].
      apply andb_true_iff in Hk1 as [_ Hk1]. now apply negb_true_iff in Hk1. }
    apply walk_all_created; try assumption.
    now rewrite Hnum.
Qed.

Lemma below_nil es : below [] es = es.
Proof.
  unfold below. rewrite <- (map_id es) at 2. apply map_ext. now intros [p f].
Qed.

(** *** Numbers in the round trip *)

(** The date pattern wants a dash as fifth character. *)
Lemma date_pattern_needs_dash cs :
  (forall c, nth_error cs 4 = Some c -> code c <> 45) ->
  matches_date_pattern (text cs) = false.
Proof.
  intros H. unfold matches_date_pattern. rewrite chars_text.
  destruct cs as [|y1 [|y2 [|y3 [|y4 [|d1 cs]]]]]; try reflexivity.
  assert (Hd : (code d1 =? 45)%nat = false)
    by (apply Nat.eqb_neq, H; reflexivity).
  do 14 (destruct cs as [|? cs]; [reflexivity|]).
  cbn [forallb]. rewrite Hd. cbn [andb]. apply andb_false_r.
Qed.

Lemma digit_code c : is_digit c = true -> 48 <= code c <= 57.
Proof.
  unfold is_digit. intros H. apply andb_true_iff in H as [H1 H2].
  apply Nat.leb_le in H1, H2. lia.
Qed.

Lemma last_In {A} (l : list A) d : l <> [] -> In (last l d) l.
Proof.
  induction l as [|x [|y l] IH]; intros H; [contradiction|now left|].
  right. apply IH. discriminate.
Qed.

Lemma size_power m e :
  (0 < m)%N -> e <= N.to_nat (N.size (m * 10 ^ N.of_nat e)).
Proof.
  intros Hm. set (x := (m * 10 ^ N.of_nat e)%N).
  destruct (Nat.le_gt_cases e (N.to_nat (N.size x))) as [|Hlt]; [assumption|].
  exfalso.
  assert (A : (x < 2 ^ N.size x)%N) by apply N.size_gt.
  assert (B : (2 ^ N.size x <= 2 ^ N.of_nat e)%N) by (apply N.pow_le_mono_r; lia).
  assert (C : (2 ^ N.of_nat e <= 10 ^ N.of_nat e)%N) by (apply N.pow_le_mono_l; lia).
  assert (D : (10 ^ N.of_nat e <= x)%N) by (subst x; nia).
  lia.
Qed.

(** An integer written with at most 21 digits reads back as itself. *)
Lemma Number_reads_back neg m e :
  (0 < m)%N -> (m mod 10 <> 0)%N -> (0 <= e)%Z ->
  (Z.of_nat (length (N_digits m)) + e <= 21)%Z ->
  is_binary64 (Finite neg m e) ->
  processedValue (EntryString (Number_toString (Finite neg m e)))
  = VNum (Finite neg m e).
Proof.
  intros Hm Hmod He Hlen Hb.
  destruct (N_digits_spec m) as (c & rest & E & Hd & Hv & Hz).
  assert (Hc : code c <> 48).
  { intros X. rewrite (Hz X) in Hv. unfold digits_val in Hv. simpl in Hv.
    assert (Y : digit_val c = 0%N).
    { assert (c = "0"%char) by (apply code_inj; exact X). now subst. }
    lia. }
  set (z := Z.to_nat e).
  set (body := (c :: rest ++ zeros z)%list).
  assert (Hbody : forallb is_digit body = true).
  { subst body. change (c :: rest ++ zeros z)%list with ((c :: rest) ++ zeros z)%list.
    rewrite forallb_app, Hd. simpl. apply forallb_forall.
    intros x Hx. apply repeat_spec in Hx. now subst. }
  assert (Hval : digits_val 10 body = (m * 10 ^ N.of_nat z)%N).
  { subst body. change (c :: rest ++ zeros z)%list with ((c :: rest) ++ zeros z)%list.
    now rewrite digits_val_zeros, Hv. }
  set (full := if neg then "-"%char :: body else body).
  assert (Hs : Number_toString (Finite neg m e) = text full).
  { unfold Number_toString. destruct (N.eqb_spec m 0); [lia|]. rewrite E.
    cbv zeta.
    set (k := Z.of_nat (length (c :: rest))).
    assert (K : k = Z.of_nat (length (N_digits m))) by (now rewrite E).
    destruct (Z.leb_spec k (k + e)); [|lia].
    destruct (Z.leb_spec (k + e) 21); [|lia]. cbn [andb].
    replace (k + e - k)%Z with e by lia. reflexivity. }
  assert (Hdig : forall x, In x body -> 48 <= code x <= 57).
  { intros x Hx. apply digit_code. rewrite forallb_forall in Hbody. now apply Hbody. }
  assert (Hnum : Number (text full) = Finite neg m e).
  { unfold Number. transitivity (rounded (Finite neg m e)); [f_equal|exact Hb].
    unfold literal. rewrite chars_text.
    assert (T : trim full = full).
    { subst full. destruct neg.
      - apply (trim_clean _ _ "0"%char); [reflexivity|].
        apply is_digit_not_space.
        assert (In (last ("-"%char :: body) "0"%char) body).
        { change (last ("-"%char :: body) "0"%char) with (last body "0"%char).
          apply last_In. discriminate. }
        rewrite forallb_forall in Hbody. now apply Hbody.
      - unfold body. apply (trim_clean _ _ "0"%char).
        + apply is_digit_not_space. now apply andb_true_iff in Hd as [? _].
        + apply is_digit_not_space. fold body.
          rewrite forallb_forall in Hbody. apply Hbody. apply last_In. discriminate. }
    rewrite T.
    assert (R : parse_radix full = None).
    { subst full. destruct neg; [reflexivity|]. unfold body, parse_radix.
      destruct (rest ++ zeros z)%list; [reflexivity|].
      destruct (Nat.eqb_spec (code c) 48); [contradiction|reflexivity]. }
    assert (D : parse_decimal neg body = Finite neg m e).
    { unfold parse_decimal.
      assert (I : (text body =? "Infinity") = false).
      { apply String.eqb_neq. intros X. subst body. simpl in X.
        injection X as X _. subst c. vm_compute in Hc. 
        specialize (Hdig "I"%char (or_introl eq_refl)). vm_compute in Hdig. lia. }
      rewrite I. unfold parse_unsigned_decimal. rewrite (span_all _ _ Hbody).
      unfold body at 1. rewrite Hval. unfold finite.
      rewrite (strip_zeros_power z).
      - f_equal. subst z. lia.
      - assumption.
      - pose proof (size_power m z Hm). lia. }
    subst full. destruct neg.
    - rewrite R. cbn [code]. exact D.
    - unfold body in *. rewrite R.
      pose proof (Hdig c (or_introl eq_refl)) as Hcc.
      destruct (Nat.eqb_spec (code c) 43); [lia|].
      destruct (Nat.eqb_spec (code c) 45); [lia|]. exact D. }
  assert (Hpat : matches_date_pattern (text full) = false).
  { apply date_pattern_needs_dash. intros x Hx.
    assert (In x body).
    { subst full. destruct neg.
      - change (nth_error body 3 = Some x) in Hx. now apply nth_error_In in Hx.
      - now apply nth_error_In in Hx. }
    specialize (Hdig x H). lia. }
  assert (Hne : (text full =? "") = false).
  { subst full. now destruct neg. }
  rewrite Hs. unfold processedValue. rewrite Hpat, Hnum, Hne. reflexivity.
Qed.

(** C1, as amended.  For a mapping whose nested mappings and sequences are
    all non-empty, whose sequences have neither holes nor extra properties,
    and whose keys are distinct, non-empty, free of [.], [[] and []], not
    numeric strings (a key of white space only is one) and not members of
    [Object.prototype], decoding the encoding returns the value with every
    scalar leaf replaced by the type inference of its transport text: null
    and undefined become null, a boolean stays, a string is inferred as in
    C7 (so "1e400" becomes Infinity and "9007199254740993" the binary64
    value next to it), a number is read back from its decimal text (a
    binary64 integer of at most 21 digits reads back as itself, NaN becomes
    the string "NaN"). *)
Theorem round_trip_portable v :
  portable v = true ->
  round_trip v = Normal (reinterpret v)
  /\ reinterpret VUndefined = VNull
  /\ reinterpret VNull = VNull
  /\ (forall b, reinterpret (VBool b) = VBool b)
  /\ (forall s, reinterpret (VStr s) = processedValue (EntryString s))
  /\ (forall n, reinterpret (VNum n)
                = processedValue (EntryString (Number_toString n)))
  /\ (forall neg m e,
         (0 < m)%N -> (m mod 10 <> 0)%N -> (0 <= e)%Z ->
         (Z.of_nat (length (N_digits m)) + e <= 21)%Z ->
         is_binary64 (Finite neg m e) ->
         reinterpret (VNum (Finite neg m e)) = VNum (Finite neg m e))
  /\ reinterpret (VNum NaN) = VStr "NaN".
Proof.
  intros Hp. split;
    [|repeat split; try reflexivity; try (now intros []);
      intros; now apply Number_reads_back].
  destruct v; try discriminate Hp. simpl in Hp.
  apply andb_true_iff in Hp as [Hkeys Hall].
  unfold portable_keys in Hkeys. apply andb_true_iff in Hkeys as [Hdis Hkeys].
  assert (IH : Forall (on_field encodes) props)
    by (apply Forall_forall; intros; apply encodes_all).
  assert (IH' : Forall (on_field decodes) props)
    by (apply Forall_forall; intros; apply decodes_all).
  destruct (encodes_fields "" props IH Hkeys Hall) as (formData & E & P).
  unfold round_trip, objectToFormData. cbn [own_entries bind].
  rewrite append_fields_root, E. cbn [bind].
  unfold formDataToObject. rewrite forEach_entry_prepared, P.
  change (path_keys "") with (@nil string). rewrite below_nil.
  pose proof (fill_fields props IH' Hkeys Hall [] [] (distinct_NoDup _ Hdis)) as F.
  cbn [app walk_all] in F. rewrite app_nil_r in F. exact F.
Qed.

Lemma round_trip_portable_witness :
  round_trip sample
  = Normal
      (VObj [ ("user", VObj [ ("name", VStr "John");
                              ("profile", VObj [("age", VNum (Finite false 3 1))]) ]);
              ("tags", VArr [Some (VStr "react"); Some (VStr "ts");
                             Some VNull; Some (VBool true)] []) ]).
Proof.
  exact (proj1 (round_trip_portable sample eq_refl)).
Defined.

(** C1 as stated fails: a mapping holding an empty sequence (or an empty
    mapping) has no leaf to reinterpret, yet it does not come back, because
    an empty container writes no entry. *)
Lemma empty_containers_are_lost :
  let v := VObj [("tags", VArr [] []); ("meta", VObj [])] in
  announced v = v
  /\ round_trip v = Normal (VObj [])
  /\ round_trip v <> Normal (announced v).
Proof. repeat split. discriminate. Qed.

(** Further values outside the amended claim: a key with a separator is
    split into a path, a numeric key turns its mapping into a sequence, a
    member name of [Object.prototype] leads the decoder out of the result. *)
Lemma dotted_key_is_split :
  round_trip (VObj [("a.b", VStr "x")]) = Normal (VObj [("a", VObj [("b", VStr "x")])]).
Proof. reflexivity. Qed.

Lemma numeric_key_makes_a_sequence :
  round_trip (VObj [("a", VObj [("0", VStr "x")])])
  = Normal (VObj [("a", VArr [Some (VStr "x")] [])]).
Proof. reflexivity. Qed.

(** A key of one no-break space is a numeric string. *)
Lemma blank_key_makes_a_sequence :
  portable (VObj [("a", VObj [(String (ascii_of_nat 160) "", VStr "x")])]) = false
  /\ round_trip (VObj [("a", VObj [(String (ascii_of_nat 160) "", VStr "x")])])
     = Normal (VObj [("a", VArr [] [(String (ascii_of_nat 160) "", VStr "x")])]).
Proof. split; vm_compute; reflexivity. Qed.

(** String leaves that read as numbers come back as binary64 values. *)
Lemma numeric_strings_are_rounded :
  round_trip (VObj [("big", VStr "1e400"); ("odd", VStr "9007199254740993");
                    ("tiny", VStr "1e-400")])
  = Normal (VObj [("big", VNum (Infinity false));
                  ("odd", VNum (Finite false 9007199254740992 0));
                  ("tiny", VNum (Finite false 0 0))]).
Proof. vm_compute. reflexivity. Qed.

Lemma inherited_key_leaves_the_result :
  round_trip (VObj [("constructor", VObj [("a", VStr "x")])]) = Unmodelled.
Proof. reflexivity. Qed.

End TransformFacts.

(* ================================================================== *)
(** ** Properties of the encoder *)
(* ================================================================== *)

Module EncoderFacts.
Import JS Transform ValueInduction ResponseSpec CodecSpec EncoderSpec
  WrapperSpec JSFacts ResponseFacts WrapperFacts TransformFacts.
Local Open Scope list_scope.
Local Open Scope js_scope.

(** *** One entry per leaf *)

Lemma leaves_slots key items :
  Forall (on_slot (fun x => forall key formData,
                     appendToFormData x key = Normal formData ->
                     length formData = leaves x)) items ->
  forall index formData,
    append_slots key items index = Normal formData ->
    length formData
    = list_sum (map (fun slot => match slot with
                                 | Some x => leaves x
                                 | None => 0
                                 end) items).
Proof.
  induction 1 as [|[x|] rest Hx _ IH]; intros index formData E.
  - injection E as <-. reflexivity.
  - cbn [append_slots] in E.
    destruct (appendToFormData x _) as [here| |] eqn:Ex; try discriminate E.
    cbn [bind] in E.
    destruct (append_slots key rest (S index)) as [after| |] eqn:Er;
      try discriminate E.
    injection E as <-. rewrite length_app. cbn [map list_sum].
    rewrite (Hx _ _ Ex), (IH _ _ Er). reflexivity.
  - cbn [append_slots] in E. cbn [map list_sum]. exact (IH _ _ E).
Qed.

Lemma leaves_fields key fields :
  Forall (on_field (fun x => forall key formData,
                      appendToFormData x key = Normal formData ->
                      length formData = leaves x)) fields ->
  forall formData,
    append_fields key fields = Normal formData ->
    length formData = leaves_of fields.
Proof.
  induction 1 as [|[k x] rest Hx _ IH]; intros formData E.
  - injection E as <-. reflexivity.
  - cbn [append_fields] in E.
    destruct (appendToFormData x _) as [here| |] eqn:Ex; try discriminate E.
    cbn [bind] in E.
    destruct (append_fields key rest) as [after| |] eqn:Er; try discriminate E.
    injection E as <-. rewrite length_app. unfold leaves_of. cbn [map list_sum].
    rewrite (Hx _ _ Ex), (IH _ eq_refl). reflexivity.
Qed.

Lemma append_leaves v :
  forall key formData,
    appendToFormData v key = Normal formData -> length formData = leaves v.
Proof.
  induction v as [| |b|n|s|d|f|e|r|slots props IHs _|props IH] using value_induction;
    intros key formData E;
    try (injection E as <-; reflexivity);
    try (cbn in E; injection E as <-; reflexivity).
  - destruct b; injection E as <-; reflexivity.
  - cbn in E. destruct d as [src|]; cbn in E; try discriminate E.
    destruct (canonical_iso src); try discriminate E.
    injection E as <-. reflexivity.
  - rewrite append_arr in E. exact (leaves_slots key slots IHs 0 formData E).
  - rewrite append_obj in E. cbn [leaves].
    destruct (constructor_is_Object props).
    + exact (leaves_fields key props IH formData E).
    + destruct (ToString (VObj props)); try discriminate E.
      injection E as <-. reflexivity.
Qed.

Lemma appendAll_leaves prefix entries :
  forall formData,
    appendAll prefix entries = Normal formData ->
    length formData = leaves_of entries.
Proof.
  induction entries as [|[k x] rest IH]; intros formData E.
  - injection E as <-. reflexivity.
  - cbn [appendAll] in E.
    destruct (appendToFormData x _) as [here| |] eqn:Ex; try discriminate E.
    cbn [bind] in E.
    destruct (appendAll prefix rest) as [after| |] eqn:Er; try discriminate E.
    injection E as <-. rewrite length_app. unfold leaves_of. cbn [map list_sum].
    rewrite (append_leaves _ _ _ Ex), (IH _ eq_refl). reflexivity.
Qed.

(** The encoder writes exactly one entry per leaf, whatever the prefix: a
    null, a scalar, a date, a file or an object that is not a literal is
    one leaf; a hole, an empty array and an empty object literal are none. *)
Theorem objectToFormData_one_entry_per_leaf obj prefix entries formData :
  own_entries obj = Normal entries ->
  objectToFormData obj prefix = Normal formData ->
  length formData = leaves_of entries.
Proof.
  intros Ho E. unfold objectToFormData in E. rewrite Ho in E. cbn [bind] in E.
  exact (appendAll_leaves prefix entries formData E).
Qed.

Lemma objectToFormData_one_entry_per_leaf_witness :
  exists formData,
    objectToFormData upload "" = Normal formData /\ length formData = 5.
Proof.
  eexists. split; [reflexivity|].
  exact (objectToFormData_one_entry_per_leaf upload "" _ _ eq_refl eq_refl).
Defined.

(** *** The prefix *)

Lemma string_append_assoc (a b c : string) : ((a ++ b) ++ c = a ++ (b ++ c))%string.
Proof. induction a as [|x a IH]; [reflexivity|]. cbn. now rewrite IH. Qed.

Lemma append_nonempty_left (a b : string) : a <> "" -> (a ++ b)%string <> "".
Proof. destruct a; [congruence|discriminate]. Qed.

Lemma eqb_nonempty (a : string) : a <> "" -> (a =? "") = false.
Proof. intros H. now apply String.eqb_neq. Qed.

Lemma relabel_app p a b : relabel p (a ++ b) = relabel p a ++ relabel p b.
Proof. apply map_app. Qed.

Lemma relabel_slots p key items :
  key <> "" ->
  Forall (on_slot (fun x => forall key, key <> "" ->
                     appendToFormData x (p ++ key)
                     = (formData <- appendToFormData x key ;;
                        Normal (relabel p formData)))) items ->
  forall index,
    append_slots (p ++ key) items index
    = (formData <- append_slots key items index ;; Normal (relabel p formData)).
Proof.
  intros Hk. induction 1 as [|[x|] rest Hx _ IH]; intros index.
  - reflexivity.
  - cbn [on_slot] in Hx. cbn [append_slots]. rewrite string_append_assoc.
    rewrite Hx by now apply append_nonempty_left.
    rewrite IH.
    destruct (appendToFormData x _) as [here| |]; try reflexivity. cbn [bind].
    destruct (append_slots key rest (S index)) as [after| |]; try reflexivity.
    cbn [bind]. now rewrite relabel_app.
  - cbn [append_slots]. apply IH.
Qed.

Lemma relabel_fields p key fields :
  key <> "" ->
  Forall (on_field (fun x => forall key, key <> "" ->
                      appendToFormData x (p ++ key)
                      = (formData <- appendToFormData x key ;;
                         Normal (relabel p formData)))) fields ->
  append_fields (p ++ key) fields
  = (formData <- append_fields key fields ;; Normal (relabel p formData)).
Proof.
  intros Hk. induction 1 as [|[k x] rest Hx _ IH].
  - reflexivity.
  - unfold on_field in Hx. cbn [snd] in Hx. cbn [append_fields].
    rewrite (eqb_nonempty key Hk), (eqb_nonempty _ (append_nonempty p key Hk)).
    rewrite string_append_assoc.
    rewrite Hx by now apply append_nonempty_left.
    rewrite IH.
    destruct (appendToFormData x _) as [here| |]; try reflexivity. cbn [bind].
    destruct (append_fields key rest) as [after| |]; try reflexivity.
    cbn [bind]. now rewrite relabel_app.
Qed.

Lemma append_relabel p v :
  forall key, key <> "" ->
    appendToFormData v (p ++ key)
    = (formData <- appendToFormData v key ;; Normal (relabel p formData)).
Proof.
  induction v as [| |b|n|s|d|f|e|r|slots props IHs _|props IH] using value_induction;
    intros key Hk; try reflexivity.
  - now destruct b.
  - cbn. destruct d as [src|]; cbn; [|reflexivity].
    now destruct (canonical_iso src).
  - rewrite !append_arr. now apply relabel_slots.
  - rewrite !append_obj. destruct (constructor_is_Object props).
    + now apply relabel_fields.
    + now destruct (ToString (VObj props)).
Qed.

(** Encoding under a prefix writes the entries of the encoding without
    prefix, each key preceded by the prefix and a dot, provided no top-level
    key is empty. *)
Theorem objectToFormData_prefix obj prefix entries :
  prefix <> "" ->
  own_entries obj = Normal entries ->
  Forall (fun field => fst field <> "") entries ->
  objectToFormData obj prefix
  = (formData <- objectToFormData obj "" ;;
     Normal (relabel (prefix ++ ".") formData)).
Proof.
  intros Hp Ho Hall. unfold objectToFormData. rewrite Ho. cbn [bind]. clear Ho.
  induction Hall as [|[k x] rest Hk _ IH]; [reflexivity|].
  cbn [appendAll]. rewrite (eqb_nonempty prefix Hp). cbn [String.eqb].
  replace (prefix ++ "." ++ k)%string with ((prefix ++ ".") ++ k)%string
    by apply string_append_assoc.
  rewrite (append_relabel _ x k Hk), IH.
  destruct (appendToFormData x k) as [here| |]; try reflexivity. cbn [bind].
  destruct (appendAll "" rest) as [after| |]; try reflexivity.
  cbn [bind]. now rewrite relabel_app.
Qed.

Lemma objectToFormData_prefix_witness :
  objectToFormData sample "form"
  = Normal [ ("form.user.name", EntryString "John");
             ("form.user.profile.age", EntryString "30");
             ("form.tags[0]", EntryString "react");
             ("form.tags[1]", EntryString "ts");
             ("form.tags[2]", EntryString "");
             ("form.tags[3]", EntryString "true") ].
Proof.
  refine (eq_trans (objectToFormData_prefix sample "form" _ _ eq_refl _) eq_refl).
  - discriminate.
  - repeat constructor; discriminate.
Defined.

(** *** What the encoder throws *)

Lemma append_slots_throws key items :
  Forall (on_slot (fun x => forall key e,
                     appendToFormData x key = Throw e -> encoder_error e)) items ->
  forall index e, append_slots key items index = Throw e -> encoder_error e.
Proof.
  induction 1 as [|[x|] rest Hx _ IH]; intros index e E.
  - discriminate E.
  - cbn [append_slots] in E.
    destruct (appendToFormData x _) as [here| |] eqn:Ex; try discriminate E.
    + cbn [bind] in E.
      destruct (append_slots key rest (S index)) as [after| |] eqn:Er;
        try discriminate E.
      injection E as <-. exact (IH _ _ Er).
    + injection E as <-. exact (Hx _ _ Ex).
  - exact (IH _ _ E).
Qed.

Lemma append_fields_throws key fields :
  Forall (on_field (fun x => forall key e,
                      appendToFormData x key = Throw e -> encoder_error e)) fields ->
  forall e, append_fields key fields = Throw e -> encoder_error e.
Proof.
  induction 1 as [|[k x] rest Hx _ IH]; intros e E.
  - discriminate E.
  - cbn [append_fields] in E.
    destruct (appendToFormData x _) as [here| |] eqn:Ex; try discriminate E.
    + cbn [bind] in E.
      destruct (append_fields key rest) as [after| |] eqn:Er; try discriminate E.
      injection E as <-. exact (IH _ eq_refl).
    + injection E as <-. exact (Hx _ _ Ex).
Qed.

Lemma append_throws v :
  forall key e, appendToFormData v key = Throw e -> encoder_error e.
Proof.
  induction v as [| |b|n|s|d|f|e'|r|slots props IHs _|props IH] using value_induction;
    intros key e E; try discriminate E.
  - destruct b; discriminate E.
  - cbn in E. destruct d as [src|]; cbn in E.
    + destruct (canonical_iso src); discriminate E.
    + injection E as <-. right. right. reflexivity.
  - rewrite append_arr in E. exact (append_slots_throws key slots IHs 0 e E).
  - rewrite append_obj in E. destruct (constructor_is_Object props).
    + exact (append_fields_throws key props IH e E).
    + cbn in E. destruct (has_own "toString" props); try discriminate E.
      injection E as <-. right. left. reflexivity.
Qed.

(** The encoder throws nothing but three errors: a TypeError for a null or
    undefined root, a TypeError for an object that is not a literal and
    cannot be converted to text, a RangeError for an invalid date. *)
Theorem objectToFormData_throws obj prefix x :
  objectToFormData obj prefix = Throw x -> encoder_error x.
Proof.
  unfold objectToFormData. intros E.
  destruct (own_entries obj) as [entries| |] eqn:Eo; try discriminate E.
  - cbn [bind] in E. clear Eo. revert x E.
    induction entries as [|[k v] rest IH]; intros x E; [discriminate E|].
    cbn [appendAll] in E.
    destruct (appendToFormData v _) as [here| |] eqn:Ex; try discriminate E.
    + cbn [bind] in E.
      destruct (appendAll prefix rest) as [after| |] eqn:Er; try discriminate E.
      injection E as <-. exact (IH _ eq_refl).
    + injection E as <-. exact (append_throws _ _ _ Ex).
  - injection E as <-.
    destruct obj; try discriminate Eo; injection Eo as <-; left; reflexivity.
Qed.

Lemma objectToFormData_throws_witness :
  exists x,
    objectToFormData (VObj [("when", VArr [Some (VDate Date_invalid)] [])]) ""
    = Throw x
    /\ encoder_error x.
Proof.
  eexists. split; [reflexivity|].
  exact (objectToFormData_throws
           (VObj [("when", VArr [Some (VDate Date_invalid)] [])]) "" _ eq_refl).
Defined.

End EncoderFacts.

(* ================================================================== *)
(** ** Properties of the decoder *)
(* ================================================================== *)

Module DecoderFacts.
Import JS Transform ValueInduction ResponseSpec CodecSpec DecoderSpec
  JSFacts NumericFacts ResponseFacts TransformFacts.
Local Open Scope list_scope.
Local Open Scope js_scope.

(** *** Reading back what an entry stored *)






(** *** The root of the decoded object *)

Lemma obj_set_twice key v w props :
  obj_set key w (obj_set key v props) = obj_set key w props.
Proof.
  induction props as [|[k x] rest IH]; cbn [obj_set].
  - now rewrite String.eqb_refl.
  - destruct (k =? key) eqn:E; cbn [obj_set]; rewrite E; [reflexivity|].
    now rewrite IH.
Qed.

Lemma lookup_obj_set_other k key v props :
  k <> key -> lookup k (obj_set key v props) = lookup k props.
Proof.
  intros Hk. induction props as [|[k' x] rest IH]; cbn [obj_set lookup].
  - destruct (key =? k) eqn:E; [|reflexivity].
    apply String.eqb_eq in E. congruence.
  - destruct (k' =? key) eqn:E; cbn [lookup].
    + apply String.eqb_eq in E. subst k'.
      destruct (key =? k) eqn:E'; [|reflexivity].
      apply String.eqb_eq in E'. congruence.
    + now rewrite IH.
Qed.

Lemma assign_root key v props result :
  assign (VObj props) key v = Normal result ->
  result = VObj (obj_set key v props).
Proof.
  cbn [assign]. destruct (key =? "__proto__"); [discriminate|].
  destruct (negb (has_own key props) && enumerated_before key props);
    [discriminate|].
  now intros [= <-].
Qed.

Lemma walk_root key rest final props result :
  walk (key :: rest) final (VObj props) = Normal result ->
  exists child, result = VObj (obj_set key child props).
Proof.
  destruct rest as [|nextKey rest].
  - cbn [walk]. intros E. exists final. now apply assign_root.
  - rewrite walk_cons. intros E.
    destruct (find_property (VObj props) key) as [[next| |]| |];
      try discriminate E; cbn [bind] in E.
    + destruct (walk (nextKey :: rest) final next) as [child| |];
        try discriminate E.
      exists child. now apply assign_root.
    + destruct (assign (VObj props) key _) as [current'| |] eqn:Ea;
        try discriminate E.
      cbn [bind] in E. apply assign_root in Ea. subst current'.
      destruct (walk (nextKey :: rest) final _) as [child| |];
        try discriminate E.
      cbn [bind] in E. apply assign_root in E. exists child.
      now rewrite obj_set_twice in E.
Qed.

Lemma setNestedValue_root props path value result :
  setNestedValue (VObj props) path value = Normal result ->
  exists child, result = VObj (obj_set (first_key path) child props).
Proof.
  unfold setNestedValue, first_key, stored_at.
  destruct (path_keys path) as [|key rest].
  - cbn [walk hd]. intros E. exists (processedValue value). now apply assign_root.
  - cbn [hd]. apply walk_root.
Qed.

Lemma obj_set_key_iff k key v props :
  In k (keys (obj_set key v props)) <-> k = key \/ In k (keys props).
Proof.
  rewrite obj_set_keys. destruct (has_own key props) eqn:E.
  - apply has_own_In in E. split; [now right|]. intros [->|H]; assumption.
  - rewrite in_app_iff. cbn [In]. intuition congruence.
Qed.

Lemma has_own_obj_set key v props : has_own key (obj_set key v props) = true.
Proof. apply has_own_In, obj_set_key_iff. now left. Qed.

(** An entry whose first path segment is not the name of a member of
    [Object.prototype], decoded into an object, leaves that object with an
    own property of that name and changes no other: every other property
    keeps its value and the other names keep their order.  When the segment
    is not an array index, a new property is enumerated last. *)
Theorem setNestedValue_touches_one_key props path value result :
  not_inherited (first_key path) ->
  setNestedValue (VObj props) path value = Normal result ->
  exists props',
    result = VObj props'
    /\ has_own (first_key path) props' = true
    /\ (forall k, k <> first_key path -> lookup k props' = lookup k props)
    /\ filter (fun k => negb (k =? first_key path)) (keys props')
       = filter (fun k => negb (k =? first_key path)) (keys props)
    /\ (array_index (first_key path) = None ->
        keys props'
        = if has_own (first_key path) props then keys props
          else keys props ++ [first_key path]).
Proof.
  intros _ E. destruct (setNestedValue_root _ _ _ _ E) as [child ->].
  eexists. split; [reflexivity|]. split; [apply has_own_obj_set|]. split.
  - intros k Hk. now apply lookup_obj_set_other.
  - split; [|intros _; apply obj_set_keys].
    rewrite obj_set_keys. destruct (has_own (first_key path) props); [reflexivity|].
    rewrite filter_app. cbn [filter]. rewrite String.eqb_refl. cbn [negb].
    apply app_nil_r.
Qed.

Lemma setNestedValue_touches_one_key_witness :
  exists props',
    VObj [("id", VNum (Finite false 7 0));
          ("user", VObj [("name", VStr "John"); ("age", VNum (Finite false 3 1))])]
    = VObj props'
    /\ has_own "user" props' = true
    /\ (forall k, k <> "user" ->
          lookup k props'
          = lookup k [("id", VNum (Finite false 7 0));
                      ("user", VObj [("name", VStr "John")])])
    /\ filter (fun k => negb (k =? "user")) (keys props') = ["id"]
    /\ (array_index "user" = None -> keys props' = ["id"; "user"]).
Proof.
  refine (setNestedValue_touches_one_key
            [("id", VNum (Finite false 7 0)); ("user", VObj [("name", VStr "John")])]
            "user.age" (EntryString "30") _ _ _).
  - reflexivity.
  - vm_compute. reflexivity.
Defined.

Lemma forEach_entry_root formData :
  forall props result,
    forEach_entry formData (VObj props) = Normal result ->
    exists props',
      result = VObj props'
      /\ (NoDup (keys props) -> NoDup (keys props'))
      /\ forall k, In k (keys props')
                   <-> In k (keys props)
                       \/ In k (map (fun e => first_key (fst e)) formData).
Proof.
  induction formData as [|[path value] rest IH]; intros props result E.
  - injection E as <-. exists props. cbn [map In]. intuition.
  - cbn [forEach_entry] in E.
    destruct (setNestedValue (VObj props) path value) as [next| |] eqn:Es;
      try discriminate E.
    cbn [bind] in E.
    destruct (setNestedValue_root _ _ _ _ Es) as [child ->].
    destruct (IH _ _ E) as (props' & -> & Hnd & Hin).
    exists props'. split; [reflexivity|]. split.
    + intros H. apply Hnd. now apply obj_set_NoDup.
    + intros k. rewrite Hin, obj_set_key_iff. cbn [map In fst].
      intuition congruence.
Qed.

(** When no path segment of any entry is the name of a member of
    [Object.prototype], what the decoder returns is an object, never an
    array, whose property names are distinct and are exactly the first
    segments of the paths in the transport ([undefined] for a path without
    segments). *)
Theorem formDataToObject_root formData result :
  Forall (fun entry => Forall not_inherited (path_keys (fst entry))) formData ->
  formDataToObject formData = Normal result ->
  exists props,
    result = VObj props
    /\ NoDup (keys props)
    /\ forall k, In k (keys props)
                 <-> In k (map (fun e => first_key (fst e)) formData).
Proof.
  intros _ E. destruct (forEach_entry_root _ _ _ E) as (props & -> & Hnd & Hin).
  exists props. split; [reflexivity|]. split.
  - apply Hnd. constructor.
  - intros k. rewrite Hin. cbn [keys map In]. intuition.
Qed.

Lemma formDataToObject_root_witness :
  exists props,
    VObj [("tags", VArr [Some (VStr "react"); Some (VStr "ts")] []);
          ("undefined", VNull)]
    = VObj props
    /\ NoDup (keys props)
    /\ forall k, In k (keys props) <-> In k ["tags"; "tags"; "undefined"].
Proof.
  refine (formDataToObject_root
            [("tags[0]", EntryString "react"); ("tags[1]", EntryString "ts");
             ("..", EntryString "")] _ _ _).
  - repeat constructor.
  - vm_compute. reflexivity.
Defined.

(** A path through a member of [Object.prototype] leaves the decoded
    object: nothing is stored under its first segment. *)
Lemma inherited_segment_leaves_the_object :
  ~ not_inherited "constructor"
  /\ formDataToObject [("constructor.id", EntryString "1")] = Unmodelled.
Proof. split; [discriminate|reflexivity]. Qed.

(** *** Entries that do not disturb one another *)









(** A later entry for an ancestor of the path replaces what was stored
    below it. *)
Lemma later_ancestor_overwrites :
  formDataToObject [("u.a", EntryString "1"); ("u", EntryString "3")]
  = Normal (VObj [("u", VNum (Finite false 3 0))]).
Proof. vm_compute. reflexivity. Qed.

End DecoderFacts.

(* ================================================================== *)
(** ** Dates and files through the codec *)
(* ================================================================== *)

Module LeafFacts.
Import JS Transform ValueInduction ResponseSpec CodecSpec DecoderSpec
  JSFacts ResponseFacts TransformFacts.
Local Open Scope list_scope.
Local Open Scope js_scope.

Lemma canonical_matches s :
  canonical_iso s = true -> matches_date_pattern s = true.
Proof.
  unfold canonical_iso, matches_date_pattern.
  destruct (chars s) as [|y1 [|y2 [|y3 [|y4 [|d1 [|m1 [|m2 [|d2 [|a1 [|a2 [|t
    [|h1 [|h2 [|c1 [|n1 [|n2 [|c2 [|s1 [|s2 [|dot [|f1 [|f2 [|f3 [|z [|more rest]
    ]]]]]]]]]]]]]]]]]]]]]]]]; try discriminate.
  intros H. apply andb_true_iff in H as [H _].
  apply andb_true_iff in H as [Hd Hc].
  cbn [forallb] in Hd, Hc |- *.
  repeat match goal with
         | H : _ && _ = true |- _ => apply andb_true_iff in H as [? ?]
         end.
  repeat match goal with
         | H : ?b = true |- _ => rewrite H; clear H
         end.
  reflexivity.
Qed.

Lemma single_field_round_trip k v entry :
  portable_key k = true ->
  (forall key, appendToFormData v key = Normal [(key, entry)]) ->
  round_trip (VObj [(k, v)]) = Normal (VObj [(k, processedValue entry)]).
Proof.
  intros Hk Hv. unfold round_trip, objectToFormData.
  cbn [own_entries bind appendAll String.eqb]. rewrite Hv. cbn [bind app].
  unfold formDataToObject. cbn [forEach_entry]. unfold setNestedValue.
  rewrite (path_keys_plain k (portable_key_plain k Hk)). cbn [walk assign].
  unfold portable_key in Hk. apply andb_true_iff in Hk as [_ Hk].
  apply negb_true_iff in Hk.
  rewrite (not_inherited_proto k Hk), enumerated_before_nil, andb_false_r.
  reflexivity.
Qed.

(** A date built from canonical ISO text comes back from the round trip as
    the same date. *)
Theorem date_round_trip k s :
  portable_key k = true -> canonical_iso s = true ->
  round_trip (VObj [(k, VDate (Date_new s))])
  = Normal (VObj [(k, VDate (Date_new s))]).
Proof.
  intros Hk Hs.
  rewrite (single_field_round_trip k _ (EntryString s) Hk).
  - cbn [processedValue]. now rewrite (canonical_matches s Hs).
  - intros key. cbn. now rewrite Hs.
Qed.

Lemma date_round_trip_witness :
  round_trip (VObj [("sent", VDate (Date_new "2023-12-01T10:30:00.000Z"))])
  = Normal (VObj [("sent", VDate (Date_new "2023-12-01T10:30:00.000Z"))]).
Proof.
  exact (date_round_trip "sent" "2023-12-01T10:30:00.000Z" eq_refl eq_refl).
Defined.

(** A file comes back from the round trip as the same file; a bare Blob
    comes back as a File named "blob" of the same size and type. *)
Theorem file_round_trip k f :
  portable_key k = true ->
  round_trip (VObj [(k, VFile f)]) = Normal (VObj [(k, VFile (as_File f))])
  /\ (file_isFile f = true -> as_File f = f)
  /\ (file_isFile f = false ->
      as_File f = {| file_isFile := true; file_name := "blob";
                     file_size := file_size f; file_type := file_type f |}).
Proof.
  intros Hk. split; [|split].
  - exact (single_field_round_trip k (VFile f) (EntryFile (as_File f)) Hk
             (fun key => eq_refl)).
  - unfold as_File. now intros ->.
  - unfold as_File. now intros ->.
Qed.

Lemma file_round_trip_witness :
  let blob := {| file_isFile := false; file_name := "";
                 file_size := 12; file_type := "text/plain" |} in
  round_trip (VObj [("attachment", VFile blob)])
  = Normal (VObj [("attachment",
                   VFile {| file_isFile := true; file_name := "blob";
                            file_size := 12; file_type := "text/plain" |})]).
Proof.
  exact (proj1 (file_round_trip "attachment" _ eq_refl)).
Defined.

End LeafFacts.

(* ================================================================== *)
(** ** Properties of the sanitizer *)
(* ================================================================== *)

Module SanitizerFacts.
Import JS Types Response ValueInduction ResponseSpec SanitizerSpec ResponseFacts.
Local Open Scope list_scope.
Local Open Scope js_scope.

(** Whatever the sanitizer returns has the shape [sanitized]: it is no date
    and no file, its arrays carry no extra property and hold sanitized
    elements, its object literals have distinct keys and sanitized values;
    only an object that shadows [constructor] is passed through as it is. *)
Theorem sanitizeForTransport_output x y :
  sanitizeForTransport x = Normal y -> sanitized y.
Proof. apply sanitize_sanitized. Qed.

Lemma sanitizeForTransport_output_witness :
  sanitized (VObj [("at", VStr "2023-12-01T10:30:00.000Z");
                   ("files", VArr [Some (file_metadata
                       {| file_isFile := false; file_name := "";
                          file_size := 12; file_type := "text/plain" |})] [])]).
Proof.
  exact (sanitizeForTransport_output
           (VObj [("at", VDate (Date_new "2023-12-01T10:30:00.000Z"));
                  ("files", VArr [Some (VFile
                       {| file_isFile := false; file_name := "";
                          file_size := 12; file_type := "text/plain" |})]
                     [("note", VNull)])])
           _ eq_refl).
Defined.

(** *** What the sanitizer throws *)

Lemma sanitize_slots_throws slots :
  Forall (on_slot (fun x => forall e, sanitizeForTransport x = Throw e ->
                                      e = RangeError "Invalid time value")) slots ->
  forall e, sanitize_slots slots = Throw e -> e = RangeError "Invalid time value".
Proof.
  induction 1 as [|[x|] rest Hx _ IH]; intros e E.
  - discriminate E.
  - cbn [on_slot] in Hx. cbn [sanitize_slots] in E.
    destruct (sanitizeForTransport x) as [x'| |]; try discriminate E.
    + cbn [bind] in E.
      destruct (sanitize_slots rest) as [rest'| |]; try discriminate E.
      injection E as <-. now apply IH.
    + injection E as <-. now apply Hx.
  - cbn [sanitize_slots] in E.
    destruct (sanitize_slots rest) as [rest'| |]; try discriminate E.
    injection E as <-. now apply IH.
Qed.

Lemma sanitize_entries_throws todo :
  Forall (on_field (fun x => forall e, sanitizeForTransport x = Throw e ->
                                       e = RangeError "Invalid time value")) todo ->
  forall acc e, sanitize_entries todo acc = Throw e ->
                e = RangeError "Invalid time value".
Proof.
  induction 1 as [|[k x] rest Hx _ IH]; intros acc e E.
  - discriminate E.
  - unfold on_field in Hx. cbn [snd] in Hx. cbn [sanitize_entries] in E.
    destruct (sanitizeForTransport x) as [x'| |]; try discriminate E.
    + cbn [bind] in E. destruct (k =? "__proto__"); [discriminate E|].
      exact (IH _ _ E).
    + injection E as <-. now apply Hx.
Qed.

(** The sanitizer throws only on an invalid date, and then the RangeError
    of [toISOString]. *)
Theorem sanitizeForTransport_throws x :
  forall e, sanitizeForTransport x = Throw e -> e = RangeError "Invalid time value".
Proof.
  induction x as [| |b|n|s|d|f|e'|r|slots props IHs _|props IH] using value_induction;
    intros e E; try discriminate E.
  - destruct d as [src|]; cbn in E.
    + destruct (canonical_iso src); discriminate E.
    + now injection E as <-.
  - rewrite sanitize_arr in E.
    destruct (sanitize_slots slots) as [slots'| |] eqn:Es; try discriminate E.
    injection E as <-. exact (sanitize_slots_throws slots IHs _ Es).
  - rewrite sanitize_obj in E.
    destruct (Transform.constructor_is_Object props); [|discriminate E].
    destruct (sanitize_entries props []) as [done| |] eqn:Es; try discriminate E.
    injection E as <-. exact (sanitize_entries_throws props IH [] _ Es).
Qed.

Lemma sanitizeForTransport_throws_witness :
  exists e,
    sanitizeForTransport (VArr [None; Some (VObj [("at", VDate Date_invalid)])] [])
    = Throw e
    /\ e = RangeError "Invalid time value".
Proof.
  eexists. split; [reflexivity|].
  exact (sanitizeForTransport_throws
           (VArr [None; Some (VObj [("at", VDate Date_invalid)])] []) _ eq_refl).
Defined.

(** *** The sanitizer as a map *)

Lemma sanitize_slots_map slots :
  forall slots', sanitize_slots slots = Normal slots' ->
                 Forall2 slot_sanitized slots slots'.
Proof.
  induction slots as [|[x|] rest IH]; intros slots' E.
  - injection E as <-. constructor.
  - cbn [sanitize_slots] in E.
    destruct (sanitizeForTransport x) as [x'| |] eqn:Ex; try discriminate E.
    cbn [bind] in E.
    destruct (sanitize_slots rest) as [rest'| |]; try discriminate E.
    injection E as <-. constructor; [exact Ex|now apply IH].
  - cbn [sanitize_slots] in E.
    destruct (sanitize_slots rest) as [rest'| |]; try discriminate E.
    injection E as <-. constructor; [exact I|now apply IH].
Qed.

Lemma sanitize_entries_map todo :
  forall acc done,
    NoDup (keys acc ++ keys todo) ->
    sanitize_entries todo acc = Normal done ->
    exists todo', done = acc ++ todo' /\ Forall2 field_sanitized todo todo'.
Proof.
  induction todo as [|[k x] rest IH]; intros acc done Hnd E.
  - injection E as <-. exists []. now rewrite app_nil_r.
  - cbn [sanitize_entries] in E.
    destruct (sanitizeForTransport x) as [x'| |] eqn:Ex; try discriminate E.
    cbn [bind] in E. destruct (k =? "__proto__"); [discriminate E|].
    assert (Hk : ~ In k (keys acc)).
    { intros Hin. cbn [keys map fst] in Hnd.
      apply NoDup_remove_2 in Hnd. apply Hnd, in_or_app. now left. }
    rewrite (obj_set_fresh k x' acc Hk) in E.
    destruct (IH (acc ++ [(k, x')]) done) as (rest' & -> & Hrest).
    + unfold keys. rewrite map_app. cbn [map fst]. rewrite <- app_assoc.
      exact Hnd.
    + exact E.
    + exists ((k, x') :: rest'). split.
      * now rewrite <- app_assoc.
      * constructor; [now split|exact Hrest].
Qed.

(** The sanitizer maps over containers: an array comes back with the same
    length, holes where they were, every element sanitized and its extra
    properties dropped; an object literal with distinct keys comes back
    with the same keys in the same order, every value sanitized. *)
Theorem sanitizeForTransport_maps :
  (forall slots props y,
      sanitizeForTransport (VArr slots props) = Normal y ->
      exists slots', y = VArr slots' [] /\ Forall2 slot_sanitized slots slots')
  /\ (forall props y,
        Transform.constructor_is_Object props = true ->
        NoDup (keys props) ->
        sanitizeForTransport (VObj props) = Normal y ->
        exists props', y = VObj props' /\ Forall2 field_sanitized props props').
Proof.
  split.
  - intros slots props y E. rewrite sanitize_arr in E.
    destruct (sanitize_slots slots) as [slots'| |] eqn:Es; try discriminate E.
    injection E as <-. exists slots'. split; [reflexivity|].
    now apply sanitize_slots_map.
  - intros props y Hc Hnd E. rewrite sanitize_obj, Hc in E.
    destruct (sanitize_entries props []) as [done| |] eqn:Es; try discriminate E.
    injection E as <-.
    destruct (sanitize_entries_map props [] done Hnd Es) as (props' & -> & H).
    now exists props'.
Qed.

Lemma sanitizeForTransport_maps_witness :
  (exists slots',
      VArr [Some (VStr "2023-12-01T10:30:00.000Z"); None; Some VNull] []
      = VArr slots' []
      /\ Forall2 slot_sanitized
           [Some (VDate (Date_new "2023-12-01T10:30:00.000Z")); None; Some VNull]
           slots')
  /\ (exists props',
        VObj [("a", VNum (Finite false 1 0)); ("b", VStr "2023-12-01T10:30:00.000Z")]
        = VObj props'
        /\ Forall2 field_sanitized
             [("a", VNum (Finite false 1 0));
              ("b", VDate (Date_new "2023-12-01T10:30:00.000Z"))]
             props').
Proof.
  split.
  - exact (proj1 sanitizeForTransport_maps
             [Some (VDate (Date_new "2023-12-01T10:30:00.000Z")); None; Some VNull]
             [("note", VNull)] _ eq_refl).
  - refine (proj2 sanitizeForTransport_maps
              [("a", VNum (Finite false 1 0));
               ("b", VDate (Date_new "2023-12-01T10:30:00.000Z"))]
              _ eq_refl _ eq_refl).
    repeat constructor; cbn; intuition discriminate.
Defined.

End SanitizerFacts.

(* ================================================================== *)
(** ** Properties of the response helper *)
(* ================================================================== *)

Module HelperFacts.
Import JS Types Response ValueInduction ResponseSpec WrapperSpec HelperSpec
  JSFacts ResponseFacts WrapperFacts TransformFacts DecoderFacts.
Local Open Scope list_scope.
Local Open Scope js_scope.

Lemma sanitize_again x y :
  sanitizeForTransport x = Normal y -> sanitizeForTransport y = Normal y.
Proof. intros E. apply sanitized_fixed. exact (sanitize_sanitized x y E). Qed.

(** *** [serverActionResponse] *)

Lemma serverActionResponse_obj props message :
  serverActionResponse (VObj props) message
  = existing (VObj props) message props props.
Proof. reflexivity. Qed.

Lemma serverActionResponse_arr slots props message :
  serverActionResponse (VArr slots props) message
  = existing (VArr slots props) message (Transform.indexed slots 0 ++ props) props.
Proof. reflexivity. Qed.

Lemma index_text_not_ok i : index_text i <> "ok".
Proof.
  unfold index_text. intros E.
  destruct (N_digits_spec (N.of_nat i)) as (c & rest & Hd & Hall & _).
  rewrite Hd in E. apply (f_equal chars) in E. rewrite chars_text in E.
  injection E as -> _. discriminate Hall.
Qed.

Lemma lookup_ok_indexed slots props :
  forall index,
    lookup "ok" (Transform.indexed slots index ++ props) = lookup "ok" props.
Proof.
  induction slots as [|[x|] rest IH]; intros index; cbn [Transform.indexed app].
  - reflexivity.
  - cbn [lookup]. destruct (index_text index =? "ok") eqn:E.
    + apply String.eqb_eq in E. now apply index_text_not_ok in E.
    + apply IH.
  - apply IH.
Qed.

Lemma wrapped_again x y m message :
  sanitizeForTransport x = Normal y ->
  serverActionResponse (as_value (SuccessActionResponse m y)) message
  = Normal (as_value (SuccessActionResponse m y)).
Proof.
  intros E. cbn. now rewrite (sanitize_again x y E).
Qed.

Lemma wrapped_idempotent response message message' :
  (r <- wrapped response message ;; serverActionResponse r message')
  = wrapped response message.
Proof.
  unfold wrapped, createSuccessResponse.
  destruct (sanitizeForTransport response) as [y| |] eqn:E; try reflexivity.
  cbn [bind]. now apply (wrapped_again response).
Qed.

Lemma existing_idempotent response message message' own props :
  (forall ok, lookup "ok" props = Some ok -> lookup "ok" own = Some ok) ->
  (forall ok, lookup "ok" props = Some ok -> truthy ok = false ->
     serverActionResponse response message' = Normal response) ->
  (r <- existing response message own props ;; serverActionResponse r message')
  = existing response message own props.
Proof.
  intros Hown Hfalsy. unfold existing.
  destruct (lookup "ok" props) as [ok|] eqn:Eok;
    [|apply wrapped_idempotent].
  destruct (truthy ok) eqn:Et; [|cbn [bind]; exact (Hfalsy ok eq_refl Et)].
  destruct (sanitizeForTransport _) as [d| |] eqn:Ed; try reflexivity.
  cbn [bind]. rewrite serverActionResponse_obj. unfold existing.
  rewrite lookup_obj_set_other by discriminate. rewrite (Hown ok eq_refl), Et.
  rewrite lookup_obj_set, (sanitize_again _ _ Ed). cbn [bind].
  now rewrite obj_set_twice.
Qed.

(** Processing a response twice changes nothing more: what
    [serverActionResponse] returns is returned as it is when passed
    through again, whatever the second message. *)
Theorem serverActionResponse_idempotent response message message' :
  (r <- serverActionResponse response message ;; serverActionResponse r message')
  = serverActionResponse response message.
Proof.
  destruct response;
    try exact (wrapped_idempotent _ message message');
    try reflexivity.
  - rewrite serverActionResponse_arr. apply existing_idempotent.
    + intros ok E. now rewrite lookup_ok_indexed.
    + intros ok E Et. rewrite serverActionResponse_arr. unfold existing.
      now rewrite E, Et.
  - rewrite serverActionResponse_obj. apply existing_idempotent.
    + now intros ok E.
    + intros ok E Et. rewrite serverActionResponse_obj. unfold existing.
      now rewrite E, Et.
Qed.

Lemma existing_result response message own props r :
  (forall ok, lookup "ok" props = Some ok -> lookup "ok" own = Some ok) ->
  (forall ok, lookup "ok" props = Some ok -> marked response ok) ->
  existing response message own props = Normal r ->
  (exists ok, marked response ok /\ truthy ok = false /\ r = response)
  \/ (exists fields ok data,
        r = VObj fields /\ lookup "ok" fields = Some ok /\ truthy ok = true
        /\ lookup "data" fields = Some data /\ sanitized data).
Proof.
  intros Hown Hmarked. unfold existing.
  destruct (lookup "ok" props) as [ok|] eqn:Eok.
  - destruct (truthy ok) eqn:Et.
    + destruct (sanitizeForTransport _) as [d| |] eqn:Ed; try discriminate.
      intros [= <-]. right. exists (obj_set "data" d own), ok, d.
      split; [reflexivity|]. split.
      * rewrite lookup_obj_set_other by discriminate. now apply Hown.
      * split; [exact Et|]. split; [apply lookup_obj_set|].
        exact (sanitize_sanitized _ _ Ed).
    + intros [= <-]. left. exists ok. now auto.
  - unfold wrapped, createSuccessResponse.
    destruct (sanitizeForTransport response) as [d| |] eqn:Ed; try discriminate.
    intros [= <-]. right. eexists. exists (VBool true), d.
    split; [reflexivity|]. repeat split. exact (sanitize_sanitized _ _ Ed).
Qed.

(** What [serverActionResponse] returns is either the response it was
    given, when that response owns a falsy [ok], or an object whose [ok] is
    truthy and whose [data] is sanitized. *)
Theorem serverActionResponse_result response message r :
  serverActionResponse response message = Normal r ->
  (exists ok, marked response ok /\ truthy ok = false /\ r = response)
  \/ (exists fields ok data,
        r = VObj fields /\ lookup "ok" fields = Some ok /\ truthy ok = true
        /\ lookup "data" fields = Some data /\ sanitized data).
Proof.
  destruct response;
    try (intros E; apply (existing_result _ message [] [] r);
         [now intros|discriminate|exact E]);
    try discriminate.
  - rewrite serverActionResponse_arr. apply existing_result.
    + intros ok E. now rewrite lookup_ok_indexed.
    + now intros ok E.
  - rewrite serverActionResponse_obj. apply existing_result; now intros ok E.
Qed.

Lemma serverActionResponse_result_witness :
  let r := VObj [("ok", VBool true); ("count", VNum (Finite false 2 0));
                 ("data", VStr "2023-12-01T10:30:00.000Z")] in
  (exists ok, marked (VObj [("ok", VBool true); ("count", VNum (Finite false 2 0));
                            ("data", VDate (Date_new "2023-12-01T10:30:00.000Z"))]) ok
              /\ truthy ok = false
              /\ r = VObj [("ok", VBool true); ("count", VNum (Finite false 2 0));
                           ("data", VDate (Date_new "2023-12-01T10:30:00.000Z"))])
  \/ (exists fields ok data,
        r = VObj fields /\ lookup "ok" fields = Some ok /\ truthy ok = true
        /\ lookup "data" fields = Some data /\ sanitized data).
Proof.
  exact (serverActionResponse_result
           (VObj [("ok", VBool true); ("count", VNum (Finite false 2 0));
                  ("data", VDate (Date_new "2023-12-01T10:30:00.000Z"))])
           None _ eq_refl).
Defined.

End HelperFacts.

(* ================================================================== *)
(** ** Wrapper and request helper together *)
(* ================================================================== *)

Module PipelineFacts.
Import JS Types Response ValueInduction ResponseSpec WrapperSpec CodecSpec
  RequestSpec JSFacts ResponseFacts WrapperFacts TransformFacts.
Local Open Scope list_scope.
Local Open Scope js_scope.

(** *** Success data is sanitized *)

Lemma on_catch_no_success x message data :
  Wrapper.on_catch x <> Normal (SuccessActionResponse message data).
Proof.
  destruct x; cbn; try discriminate;
    repeat match goal with
           | |- context [match ?c with _ => _ end] => destruct c; cbn
           end; discriminate.
Qed.

Lemma sanitized_data v m message data :
  (d <- Wrapper.sanitizeDataForClient v ;; Normal (SuccessActionResponse m d))
  = Normal (SuccessActionResponse message data) ->
  sanitized data.
Proof.
  unfold Wrapper.sanitizeDataForClient.
  destruct (sanitizeForTransport v) as [d| |] eqn:E; try discriminate.
  intros [= _ <-]. exact (sanitize_sanitized _ _ E).
Qed.

Lemma rethrown_is_no_response (c : completion value) (r : ServerActionResponse) :
  (error <- c ;; Throw error) <> Normal r.
Proof. now destruct c. Qed.

Lemma classify_success result message data :
  Wrapper.classify result = Normal (SuccessActionResponse message data) ->
  sanitized data.
Proof.
  unfold Wrapper.classify.
  destruct result as [| |b|n|s|d|f|e|r|slots props|response];
    try apply sanitized_data.
  destruct (Wrapper.get response "ok") as [| |[|]|n|s|d|f|e|r|slots props|props];
    try apply sanitized_data;
    try (intros E; now apply rethrown_is_no_response in E);
    (destruct (Wrapper.has response "data" && negb (Wrapper.has response "error"));
     [apply sanitized_data|];
     destruct (Wrapper.has response "error" && negb (Wrapper.has response "data"));
     [intros E; now apply rethrown_is_no_response in E|apply sanitized_data]).
Qed.

(** A Success built by either wrapper carries sanitized data, whatever the
    raw action returned. *)
Theorem withFormTransform_success_is_sanitized plain serverAction formData
    message data :
  wrapper plain serverAction formData
  = Normal (SuccessActionResponse message data) ->
  sanitized data.
Proof.
  unfold wrapper. destruct plain;
    unfold WrapperPlain.withFormTransform, Wrapper.withFormTransform;
    destruct (Transform.formDataToObject formData) as [parsed| |];
    cbn [bind try_catch]; try discriminate;
    try (intros E; now apply on_catch_no_success in E);
    destruct (serverAction parsed) as [result| |];
    cbn [bind try_catch]; try discriminate;
    try (intros E; now apply on_catch_no_success in E).
  - unfold WrapperPlain.sanitizeDataForClient.
    destruct (sanitizeForTransport result) as [d| |] eqn:Ed;
      cbn [bind try_catch]; try discriminate;
      try (intros E; now apply on_catch_no_success in E).
    intros [= _ <-]. exact (sanitize_sanitized _ _ Ed).
  - destruct (Wrapper.classify result) as [r| |] eqn:Ec;
      cbn [try_catch]; try discriminate;
      try (intros E; now apply on_catch_no_success in E).
    intros [= ->]. exact (classify_success _ _ _ Ec).
Qed.

Lemma withFormTransform_success_is_sanitized_witness :
  sanitized (VObj [("name", VStr "John"); ("joined", VStr "2023-12-01T10:30:00.000Z")]).
Proof.
  exact (withFormTransform_success_is_sanitized false
           (returning (VObj [("data",
                              VObj [("name", VStr "John");
                                    ("joined", VDate (Date_new "2023-12-01T10:30:00.000Z"))]);
                             ("message", VStr "found")]))
           [] (VStr "found") _ eq_refl).
Defined.

(** *** Responses built by the helper pass through the wrapper *)

(** A raw action that returns what [createSuccessResponse] built, with a
    non-empty message, makes the wrapper answer exactly that response. *)
Theorem withFormTransform_keeps_helper_success data message r formData parsed :
  createSuccessResponse data message = Normal r ->
  message <> "" ->
  Transform.formDataToObject formData = Normal parsed ->
  Wrapper.withFormTransform (returning (as_value r)) formData = Normal r.
Proof.
  unfold createSuccessResponse. intros E Hm Hp.
  destruct (sanitizeForTransport data) as [d| |] eqn:Ed; try discriminate E.
  injection E as <-.
  unfold Wrapper.withFormTransform, returning. rewrite Hp. cbn [bind].
  unfold Wrapper.classify, Wrapper.sanitizeDataForClient. cbn [as_value].
  change (Wrapper.get _ "ok") with (VBool true).
  change (Wrapper.get _ "data") with d.
  change (Wrapper.get _ "message") with (VStr message).
  rewrite (sanitized_fixed d (sanitize_sanitized _ _ Ed)). cbn [bind try_catch].
  unfold or_else. cbn [truthy].
  apply String.eqb_neq in Hm. now rewrite Hm.
Qed.

Lemma withFormTransform_keeps_helper_success_witness :
  Wrapper.withFormTransform
    (returning (as_value (SuccessActionResponse (VStr "User created")
                            (VObj [("joined", VStr "2023-12-01T10:30:00.000Z")]))))
    [("name", Transform.EntryString "John")]
  = Normal (SuccessActionResponse (VStr "User created")
              (VObj [("joined", VStr "2023-12-01T10:30:00.000Z")])).
Proof.
  refine (withFormTransform_keeps_helper_success
            (VObj [("joined", VDate (Date_new "2023-12-01T10:30:00.000Z"))])
            "User created" _ [("name", Transform.EntryString "John")] _
            eq_refl _ eq_refl).
  discriminate.
Defined.

(** *** [serverActionRequest] *)

Lemma request_fails action data x :
  fails_with action data x ->
  Request.serverActionRequest action data = Request.on_catch x.
Proof.
  unfold Request.serverActionRequest.
  intros [E|(formData & E & Ea)]; rewrite E; cbn [bind try_catch];
    [reflexivity|now rewrite Ea].
Qed.

(** What the action returns is returned unchanged.  When encoding the
    payload throws, or the action throws or rejects, the request helper
    answers with a Failure under the fixed message "Error processing
    request": it carries the thrown Error, or a new Error made of the text
    of any other thrown value. *)
Theorem serverActionRequest_settles action data :
  (forall formData response,
      Request.to_FormData data = Normal formData ->
      action formData = Normal response ->
      Request.serverActionRequest action data = Normal response)
  /\ (forall e,
        fails_with action data (VError e) ->
        Request.serverActionRequest action data
        = Normal (ErrorActionResponse "Error processing request" e))
  /\ (forall x text,
        fails_with action data x ->
        is_Error x = false -> ToString x = Normal text ->
        Request.serverActionRequest action data
        = Normal (ErrorActionResponse "Error processing request" (new_Error text))).
Proof.
  split; [|split].
  - intros formData response E Ea. unfold Request.serverActionRequest.
    now rewrite E; cbn [bind]; rewrite Ea.
  - intros e H. now rewrite (request_fails _ _ _ H).
  - intros x text H Hx Ht. rewrite (request_fails _ _ _ H).
    destruct x; try discriminate Hx; cbn [Request.on_catch]; now rewrite Ht.
Qed.

Lemma serverActionRequest_settles_witness :
  Request.serverActionRequest
    (fun _ => Throw (VError (new_Error "db timeout")))
    (Request.AsObject (VObj [("id", VStr "u1")]))
  = Normal (ErrorActionResponse "Error processing request" (new_Error "db timeout"))
  /\ Request.serverActionRequest
       (fun _ => Normal (SuccessActionResponse (VStr "done") VNull))
       (Request.AsObject (VObj [("when", VDate Date_invalid)]))
     = Normal (ErrorActionResponse "Error processing request"
                 {| err_name := "RangeError"; err_message := "Invalid time value" |}).
Proof.
  split.
  - refine (proj1 (proj2 (serverActionRequest_settles
                            (fun _ => Throw (VError (new_Error "db timeout")))
                            (Request.AsObject (VObj [("id", VStr "u1")]))))
              _ _).
    right. exists [("id", Transform.EntryString "u1")]. split; reflexivity.
  - refine (proj1 (proj2 (serverActionRequest_settles
                            (fun _ => Normal (SuccessActionResponse (VStr "done") VNull))
                            (Request.AsObject (VObj [("when", VDate Date_invalid)]))))
              _ _).
    left. reflexivity.
Defined.

(** The request helper rejects in one case only: what the encoder or the
    action threw is not an Error, and its conversion to text throws in
    turn; the rejection is what that conversion threw. *)
Theorem serverActionRequest_rejects_only action data x :
  Request.serverActionRequest action data = Throw x ->
  exists thrown,
    fails_with action data thrown
    /\ is_Error thrown = false
    /\ ToString thrown = Throw x.
Proof.
  unfold Request.serverActionRequest. intros E.
  assert (H : exists thrown,
             fails_with action data thrown /\ Request.on_catch thrown = Throw x).
  { destruct (Request.to_FormData data) as [formData|y|] eqn:Ed;
      cbn [bind try_catch] in E; try discriminate E.
    - destruct (action formData) as [r|thrown|] eqn:Ea;
        cbn [try_catch] in E; try discriminate E.
      exists thrown. split; [|exact E]. right. now exists formData.
    - exists y. split; [now left|exact E]. }
  destruct H as (thrown & Hf & Hc). exists thrown. split; [exact Hf|].
  destruct thrown; cbn [Request.on_catch] in Hc; try discriminate Hc;
    (split; [reflexivity|]);
    match type of Hc with
    | context [ToString ?v] =>
        destruct (ToString v) as [text|y|]; cbn [bind] in Hc;
        try discriminate Hc; now injection Hc as <-
    end.
Qed.

Lemma serverActionRequest_rejects_only_witness :
  exists thrown,
    fails_with (fun _ => Throw (VObj [("toString", VNull)]))
      (Request.AsObject (VObj [("id", VStr "u1")])) thrown
    /\ is_Error thrown = false
    /\ ToString thrown = Throw (TypeError "Cannot convert object to primitive value").
Proof.
  exact (serverActionRequest_rejects_only
           (fun _ => Throw (VObj [("toString", VNull)]))
           (Request.AsObject (VObj [("id", VStr "u1")])) _ eq_refl).
Defined.

(** *** From the client's object to the raw action *)

Lemma encode_then_decode v :
  portable v = true ->
  exists formData,
    Transform.objectToFormData v "" = Normal formData
    /\ Transform.formDataToObject formData = Normal (reinterpret v).
Proof.
  intros Hp. destruct v; try discriminate Hp. simpl in Hp.
  apply andb_true_iff in Hp as [Hkeys Hall].
  unfold portable_keys in Hkeys. apply andb_true_iff in Hkeys as [Hdis Hkeys].
  assert (IH : Forall (on_field encodes) props)
    by (apply Forall_forall; intros; apply encodes_all).
  assert (IH' : Forall (on_field decodes) props)
    by (apply Forall_forall; intros; apply decodes_all).
  destruct (encodes_fields "" props IH Hkeys Hall) as (formData & E & P).
  exists formData. unfold Transform.objectToFormData.
  cbn [Transform.own_entries bind]. rewrite append_fields_root. split; [exact E|].
  unfold Transform.formDataToObject. rewrite forEach_entry_prepared, P.
  change (Transform.path_keys "") with (@nil string). rewrite below_nil.
  pose proof (fill_fields props IH' Hkeys Hall [] [] (distinct_NoDup _ Hdis)) as F.
  cbn [app walk_all] in F. rewrite app_nil_r in F. exact F.
Qed.

(** A portable object handed to the request helper reaches the raw action
    of a wrapped server action as its reinterpretation.  The request helper
    then returns what the two [try] blocks make of the raw action's
    outcome: the wrapper's classification or sanitization of what it
    returned, the wrapper's Failure for what it threw, and the request
    helper's own Failure should the wrapper reject. *)
Theorem request_reaches_raw_action v serverAction :
  portable v = true ->
  Request.serverActionRequest (Wrapper.withFormTransform serverAction)
    (Request.AsObject v)
  = try_catch
      (try_catch
         (result <- serverAction (reinterpret v) ;; Wrapper.classify result)
         Wrapper.on_catch)
      Request.on_catch
  /\ Request.serverActionRequest (WrapperPlain.withFormTransform serverAction)
       (Request.AsObject v)
     = try_catch
         (try_catch
            (result <- serverAction (reinterpret v) ;;
             sanitizedResult <- sanitizeForTransport result ;;
             Normal (SuccessActionResponse
                       (VStr "Operation completed successfully") sanitizedResult))
            Wrapper.on_catch)
         Request.on_catch.
Proof.
  intros Hp. destruct (encode_then_decode v Hp) as (formData & Ee & Ed).
  unfold Request.serverActionRequest. cbn [Request.to_FormData]. rewrite Ee.
  cbn [bind]. split.
  - unfold Wrapper.withFormTransform. now rewrite Ed.
  - unfold WrapperPlain.withFormTransform, WrapperPlain.sanitizeDataForClient.
    now rewrite Ed.
Qed.

Lemma request_reaches_raw_action_witness :
  Request.serverActionRequest
    (Wrapper.withFormTransform
       (fun parsed => Normal (VObj [("data", parsed); ("message", VStr "echo")])))
    (Request.AsObject sample)
  = Normal (SuccessActionResponse (VStr "echo") (reinterpret sample))
  /\ Request.serverActionRequest
       (WrapperPlain.withFormTransform (fun _ => Throw (VStr "boom")))
       (Request.AsObject sample)
     = Normal (ErrorActionResponse "Error processing request" (new_Error "boom")).
Proof.
  split.
  - refine (eq_trans
              (proj1 (request_reaches_raw_action sample
                        (fun parsed =>
                           Normal (VObj [("data", parsed); ("message", VStr "echo")]))
                        eq_refl)) _).
    vm_compute. reflexivity.
  - refine (eq_trans
              (proj2 (request_reaches_raw_action sample
                        (fun _ => Throw (VStr "boom")) eq_refl)) _).
    vm_compute. reflexivity.
Defined.

End PipelineFacts.

(* ================================================================== *)
(** ** Cache timer, local updates and mounting *)
(* ================================================================== *)

Module SessionFacts.
Import JS Types Hook HookSpec SessionSpec HookFacts.
Local Open Scope list_scope.

(** *** The cache timer *)

Lemma single_timer_same s s' :
  timers s' = timers s -> cacheTimeoutRef s' = cacheTimeoutRef s ->
  single_timer s -> single_timer s'.
Proof. unfold single_timer. intros -> ->. exact (fun H => H). Qed.

Lemma abort_current_timer s :
  timers (abort_current s) = timers s
  /\ cacheTimeoutRef (abort_current s) = cacheTimeoutRef s.
Proof. unfold abort_current. now destruct (abortControllerRef s). Qed.

Lemma execute_timer options loading now requestData s :
  timers (fst (execute options loading now requestData s)) = timers s
  /\ cacheTimeoutRef (fst (execute options loading now requestData s))
     = cacheTimeoutRef s.
Proof.
  unfold execute. destruct (gate_closed options); [now split|].
  destruct requestData as [d|];
    (destruct (deduplicated options loading now _); [now split|]);
    destruct (Request.to_FormData _); cbn [fst];
    unfold setError, setLoading, new_controller, set_lastRequestTime;
    cbn [timers cacheTimeoutRef];
    match goal with
    | |- context [abort_current ?x] =>
        destruct (abort_current_timer x) as [-> ->]
    end; now split.
Qed.

Lemma clear_cache_timeout_timers s :
  single_timer s -> timers (clear_cache_timeout s) = [].
Proof.
  unfold single_timer, clear_cache_timeout.
  intros [H|(h & due & H & Hr)].
  - destruct (cacheTimeoutRef s); [cbn [timers]; now rewrite H|exact H].
  - rewrite Hr. cbn [timers]. rewrite H. unfold cancel. cbn [filter fst].
    now rewrite Nat.eqb_refl.
Qed.

Lemma clear_cache_timeout_ref s :
  cacheTimeoutRef (clear_cache_timeout s) = cacheTimeoutRef s.
Proof.
  unfold clear_cache_timeout.
  destruct (cacheTimeoutRef s) eqn:E; [reflexivity|exact E].
Qed.

Lemma clear_cache_timeout_single s :
  single_timer s -> single_timer (clear_cache_timeout s).
Proof. intros H. left. now apply clear_cache_timeout_timers. Qed.

Lemma resume_single options signal now outcome s :
  single_timer s -> single_timer (fst (resume options signal now outcome s)).
Proof.
  intros H. unfold resume. destruct (signal_aborted signal s); [exact H|].
  destruct outcome as [[m d|m e]|err]; cbn [fst];
    try (revert H; now apply single_timer_same).
  destruct (0 <? cacheTime options)%Z.
  - right. cbn [setLoading start_cache_timeout timers cacheTimeoutRef].
    rewrite clear_cache_timeout_timers
      by (revert H; now apply single_timer_same).
    eexists _, _. split; reflexivity.
  - revert H. now apply single_timer_same.
Qed.

Lemma mutate_timers d s : single_timer s -> timers (mutate d s) = [].
Proof.
  intros H. unfold mutate.
  destruct (cacheTimeoutRef (setData d s)) eqn:E.
  - cbn [set_cacheTimeoutRef timers]. apply clear_cache_timeout_timers.
    revert H. now apply single_timer_same.
  - destruct H as [H|(h & due & _ & Hr)]; [exact H|].
    cbn [setData cacheTimeoutRef] in E. congruence.
Qed.

Lemma timeout_fires_single h s :
  single_timer s -> single_timer (timeout_fires h s).
Proof.
  intros H. unfold timeout_fires.
  destruct (existsb _ (timers s)); [|exact H].
  destruct H as [H|(h' & due & H & Hr)].
  - left. cbn [timers setData]. now rewrite H.
  - cbn [timers setData]. rewrite H. unfold cancel. cbn [filter fst].
    destruct (h' =? h)%nat; cbn [negb].
    + now left.
    + right. now exists h', due.
Qed.

Lemma mount_timer options loading now s :
  timers (fst (mount options loading now s)) = timers s
  /\ cacheTimeoutRef (fst (mount options loading now s)) = cacheTimeoutRef s.
Proof.
  unfold mount. destruct (isMountedRef s); [now split|].
  destruct (negb (executeOnMount options)); [now split|].
  destruct (condition options) as [[|]|];
    try destruct (revalidateOnMount options);
    try (now split);
    apply (execute_timer options loading now _ (set_mounted s)).
Qed.

Lemma step_single options s s' :
  step options s s' -> single_timer s -> single_timer s'.
Proof.
  intros [loading now requestData s0|signal now outcome s0 _|s0|d s0|f s0|h s0
         |loading now s0|s0] H.
  - destruct (execute_timer options loading now requestData s0) as [Et Er].
    exact (single_timer_same _ _ Et Er H).
  - now apply resume_single.
  - unfold reset. apply clear_cache_timeout_single.
    destruct (abort_current_timer
                (set_lastRequestData None (setError VUndefined (setData VUndefined s0))))
      as [Et Er].
    exact (single_timer_same _ _ Et Er H).
  - left. now apply mutate_timers.
  - exact H.
  - now apply timeout_fires_single.
  - destruct (mount_timer options loading now s0) as [Et Er].
    exact (single_timer_same _ _ Et Er H).
  - unfold unmount. apply clear_cache_timeout_single.
    destruct (abort_current_timer s0) as [Et Er].
    exact (single_timer_same _ _ Et Er H).
Qed.

Lemma reachable_single options s : reachable options s -> single_timer s.
Proof.
  induction 1 as [|s s' _ IH Hstep]; [now left|].
  exact (step_single options s s' Hstep IH).
Qed.

Lemma timeout_fires_idle h s : timers s = [] -> timeout_fires h s = s.
Proof. unfold timeout_fires. now intros ->. Qed.

Lemma step_no_timer options s s' :
  (cacheTime options <= 0)%Z ->
  step options s s' -> timers s = [] -> timers s' = [].
Proof.
  intros Hc [loading now requestData s0|signal now outcome s0 _|s0|d s0|f s0|h s0
            |loading now s0|s0] H.
  - now rewrite (proj1 (execute_timer options loading now requestData s0)).
  - unfold resume. destruct (signal_aborted signal s0); [exact H|].
    destruct outcome as [[m d|m e]|err]; cbn [fst]; try exact H.
    destruct (0 <? cacheTime options)%Z eqn:E; [|exact H].
    apply Z.ltb_lt in E. lia.
  - unfold reset. apply clear_cache_timeout_timers. left.
    now rewrite (proj1 (abort_current_timer _)).
  - apply mutate_timers. now left.
  - exact H.
  - now rewrite timeout_fires_idle.
  - now rewrite (proj1 (mount_timer options loading now s0)).
  - unfold unmount. apply clear_cache_timeout_timers. left.
    now rewrite (proj1 (abort_current_timer s0)).
Qed.

Lemma one_cache_timer_inv options s :
  reachable options s ->
  single_timer s
  /\ ((cacheTime options <= 0)%Z ->
      timers s = [] /\ forall handle, timeout_fires handle s = s).
Proof.
  intros Hr. split; [now apply (reachable_single options)|].
  intros Hc. assert (Ht : timers s = []).
  { induction Hr as [|s s' _ IH Hstep]; [reflexivity|].
    exact (step_no_timer options s s' Hc Hstep IH). }
  split; [exact Ht|]. intros handle. now apply timeout_fires_idle.
Qed.

(** In every session the hook can reach, at most one cache timeout is
    pending and the ref holds its handle; with [cacheTime] at zero (the
    default) or below, none is ever pending, so data never expires. *)
Theorem one_cache_timer options s :
  reachable options s ->
  single_timer s
  /\ ((cacheTime options <= 0)%Z ->
      timers s = [] /\ forall handle, timeout_fires handle s = s).
Proof. apply one_cache_timer_inv. Qed.

Lemma holding_reachable : reachable cached holding.
Proof.
  unfold holding. eapply reachable_step.
  - eapply reachable_step; [apply reachable_initial|].
    apply (step_execute cached false 1000 (Some sample_payload) initial).
  - apply step_resume. cbn. lia.
Defined.

Lemma one_cache_timer_witness :
  single_timer holding /\ timers holding = [(0, 6200%Z)].
Proof.
  split; [|reflexivity].
  exact (proj1 (one_cache_timer cached holding holding_reachable)).
Defined.

(** *** A result that is not superseded *)





(** *** Local updates *)

(** [mutate] stores the new data and cancels the pending cache timeout, so
    no timeout clears what was stored; it leaves loading and the request in
    flight alone. *)
Theorem mutate_cancels_expiry options newData s :
  reachable options s ->
  data (mutate newData s) = newData
  /\ timers (mutate newData s) = []
  /\ (forall handle, timeout_fires handle (mutate newData s) = mutate newData s)
  /\ loading (mutate newData s) = loading s
  /\ tokens (mutate newData s) = tokens s.
Proof.
  intros Hr. pose proof (mutate_timers newData s (reachable_single options s Hr)) as Ht.
  split; [|split; [exact Ht|split; [|split]]].
  - unfold mutate. destruct (cacheTimeoutRef (setData newData s)); [|reflexivity].
    unfold clear_cache_timeout.
    now destruct (cacheTimeoutRef (setData newData s)).
  - intros handle. now apply timeout_fires_idle.
  - unfold mutate. destruct (cacheTimeoutRef (setData newData s)); [|reflexivity].
    unfold clear_cache_timeout.
    now destruct (cacheTimeoutRef (setData newData s)).
  - apply mutate_tokens.
Qed.

Lemma mutate_cancels_expiry_witness :
  data (mutate (VStr "edited") holding) = VStr "edited"
  /\ timers (mutate (VStr "edited") holding) = []
  /\ data (timeout_fires 0 (mutate (VStr "edited") holding)) = VStr "edited".
Proof.
  destruct (mutate_cancels_expiry cached (VStr "edited") holding holding_reachable)
    as (Hd & Ht & Hf & _).
  refine (conj Hd (conj Ht _)). rewrite (Hf 0). exact Hd.
Defined.

(** [optimisticMutate] applies the update to the current data but leaves
    the cache timeout pending: when that timeout fires, the updated data
    is cleared like any other. *)
Theorem optimisticMutate_keeps_expiry updateFn handle due s :
  In (handle, due) (timers s) ->
  data (optimisticMutate updateFn s) = updateFn (data s)
  /\ timers (optimisticMutate updateFn s) = timers s
  /\ data (timeout_fires handle (optimisticMutate updateFn s)) = VUndefined.
Proof.
  intros Hin. split; [reflexivity|]. split; [reflexivity|].
  unfold timeout_fires. cbn [optimisticMutate setData timers].
  replace (existsb _ (timers s)) with true; [reflexivity|].
  symmetry. apply existsb_exists. exists (handle, due).
  split; [exact Hin|apply Nat.eqb_refl].
Qed.

Lemma optimisticMutate_keeps_expiry_witness :
  data (optimisticMutate (fun _ => VStr "edited") holding) = VStr "edited"
  /\ data (timeout_fires 0 (optimisticMutate (fun _ => VStr "edited") holding))
     = VUndefined.
Proof.
  destruct (optimisticMutate_keeps_expiry (fun _ => VStr "edited") 0 6200 holding
              (or_introl eq_refl)) as (Hd & _ & Hf).
  exact (conj Hd Hf).
Defined.

(** *** Reset and unmount *)

Lemma clear_cache_timeout_cells s :
  data (clear_cache_timeout s) = data s
  /\ error (clear_cache_timeout s) = error s
  /\ lastRequestDataRef (clear_cache_timeout s) = lastRequestDataRef s
  /\ loading (clear_cache_timeout s) = loading s.
Proof. unfold clear_cache_timeout. now destruct (cacheTimeoutRef s). Qed.

Lemma abort_current_cells s :
  data (abort_current s) = data s
  /\ error (abort_current s) = error s
  /\ lastRequestDataRef (abort_current s) = lastRequestDataRef s
  /\ loading (abort_current s) = loading s.
Proof. unfold abort_current. now destruct (abortControllerRef s). Qed.

Lemma clear_cache_timeout_aborted c s :
  signal_aborted c (clear_cache_timeout s) = signal_aborted c s.
Proof. unfold clear_cache_timeout. now destruct (cacheTimeoutRef s). Qed.

Lemma resume_aborted options signal now outcome s :
  signal_aborted signal s = true ->
  resume options signal now outcome s = (s, []).
Proof. unfold resume. now intros ->. Qed.

(** [reset] clears data, error and the remembered payload, cancels the
    cache timeout and supersedes every request issued so far: a result
    that arrives afterwards changes nothing and calls no callback.  It
    does not touch loading, so a session reset while loading stays
    loading. *)
Theorem reset_discards_in_flight options s :
  reachable options s ->
  data (reset s) = VUndefined /\ error (reset s) = VUndefined
  /\ lastRequestDataRef (reset s) = None
  /\ timers (reset s) = []
  /\ loading (reset s) = loading s
  /\ forall signal now outcome,
       signal < issued s ->
       resume options signal now outcome (reset s) = (reset s, []).
Proof.
  intros Hr.
  assert (Hf : data (reset s) = VUndefined /\ error (reset s) = VUndefined
               /\ lastRequestDataRef (reset s) = None
               /\ loading (reset s) = loading s).
  { unfold reset.
    destruct (clear_cache_timeout_cells
                (abort_current
                   (set_lastRequestData None
                      (setError VUndefined (setData VUndefined s)))))
      as (-> & -> & -> & ->).
    destruct (abort_current_cells
                (set_lastRequestData None
                   (setError VUndefined (setData VUndefined s))))
      as (-> & -> & -> & ->).
    now repeat split. }
  destruct Hf as (Hd & He & Hl & Hg).
  split; [exact Hd|]. split; [exact He|]. split; [exact Hl|]. split; [|split].
  - unfold reset. apply clear_cache_timeout_timers.
    generalize (reachable_single options s Hr).
    destruct (abort_current_timer
                (set_lastRequestData None (setError VUndefined (setData VUndefined s))))
      as [Et Er].
    now apply single_timer_same.
  - exact Hg.
  - intros signal now outcome Hs. apply resume_aborted.
    unfold reset. rewrite clear_cache_timeout_aborted.
    apply abort_current_all.
    + generalize (reachable_inv options s Hr). now apply tokens_inv.
    + exact Hs.
Qed.

Lemma reset_discards_in_flight_witness :
  let s := fst (execute defaults false 1000 (Some sample_payload) initial) in
  loading (reset s) = true
  /\ resume defaults 0 1500 sample_success (reset s) = (reset s, []).
Proof.
  assert (Hr : reachable defaults
                 (fst (execute defaults false 1000 (Some sample_payload) initial))).
  { eapply reachable_step; [apply reachable_initial|].
    apply (step_execute defaults false 1000 (Some sample_payload) initial). }
  destruct (reset_discards_in_flight defaults _ Hr) as (_ & _ & _ & _ & Hl & Hs).
  split; [exact Hl|]. apply Hs. cbn. lia.
Defined.

(** After the unmount cleanup nothing reaches the session any more: the
    result of every request issued so far is dropped without a callback,
    and no cache timeout is left to fire. *)
Theorem unmount_is_final options s :
  reachable options s ->
  (forall signal now outcome,
      signal < issued s ->
      resume options signal now outcome (unmount s) = (unmount s, []))
  /\ (forall handle, timeout_fires handle (unmount s) = unmount s).
Proof.
  intros Hr. split.
  - intros signal now outcome Hs. apply resume_aborted.
    unfold unmount. rewrite clear_cache_timeout_aborted.
    now apply abort_current_all; [apply (reachable_inv options)|].
  - intros handle. apply timeout_fires_idle. unfold unmount.
    apply clear_cache_timeout_timers.
    generalize (reachable_single options s Hr).
    destruct (abort_current_timer s) as [Et Er]. now apply single_timer_same.
Qed.

Lemma unmount_is_final_witness :
  timeout_fires 0 (unmount holding) = unmount holding
  /\ resume cached 0 1500 sample_success (unmount holding) = (unmount holding, []).
Proof.
  destruct (unmount_is_final cached holding holding_reachable) as (Hs & Hf).
  split; [apply Hf|]. apply Hs. cbn. lia.
Defined.

(** *** Refetching and focus *)

Lemma execute_remembers options loading now p s :
  gate_closed options = false ->
  lastRequestDataRef (fst (execute options loading now (Some p) s)) = Some p.
Proof.
  intros Hg. unfold execute. rewrite Hg.
  destruct (deduplicated options loading now _); [reflexivity|].
  destruct (Request.to_FormData _); cbn [fst];
    cbn [setError setLoading new_controller lastRequestDataRef];
    match goal with
    | |- context [abort_current ?x] =>
        destruct (abort_current_cells x) as (_ & _ & -> & _)
    end; reflexivity.
Qed.

Lemma resume_remembers options signal now outcome s :
  lastRequestDataRef (fst (resume options signal now outcome s))
  = lastRequestDataRef s
  /\ issued (fst (resume options signal now outcome s)) = issued s.
Proof.
  unfold resume. destruct (signal_aborted signal s); [now split|].
  destruct outcome as [[m d|m e]|err]; cbn [fst]; try (now split).
  destruct (0 <? cacheTime options)%Z; [|now split].
  cbn [setLoading start_cache_timeout lastRequestDataRef issued].
  unfold clear_cache_timeout. now destruct (cacheTimeoutRef (setData d s)).
Qed.

Lemma refetch_invokes options loading now p formData s :
  gate_closed options = false ->
  deduplicated options loading now s = false ->
  lastRequestDataRef s = Some p ->
  Request.to_FormData p = Normal formData ->
  snd (refetch options loading now s) = [Invoke (issued s) formData].
Proof.
  intros Hg Hd Hl Hp. unfold refetch. rewrite Hl.
  rewrite execute_started by assumption.
  cbn [snd request_payload]. now rewrite Hp.
Qed.

(** After an [execute] with payload [p], whatever became of that request,
    [refetch] sends something exactly when the condition gate is open and
    the call is not deduplicated (no request of the calling render in
    flight within [dedupingInterval]), and what it sends is [p] again.  A
    focus or visibility event does the same when [revalidateOnFocus] is set
    and the document is visible; on a hidden document, or without
    [revalidateOnFocus], it sends nothing. *)
Theorem refetch_replays_last_payload options p formData loading0 t0 s :
  Request.to_FormData p = Normal formData ->
  forall signal now outcome loading1 t1,
    let s1 := fst (execute options loading0 t0 (Some p) s) in
    let s2 := fst (resume options signal now outcome s1) in
    let sent := if gate_closed options || deduplicated options loading1 t1 s2
                then [] else [Invoke (issued s2) formData] in
    snd (refetch options loading1 t1 s2) = sent
    /\ snd (onFocus options true loading1 t1 s2)
       = (if revalidateOnFocus options then sent else [])
    /\ onFocus options false loading1 t1 s2 = (s2, []).
Proof.
  intros Hp signal now outcome loading1 t1 s1 s2 sent.
  assert (H : snd (refetch options loading1 t1 s2) = sent).
  { subst sent. destruct (gate_closed options) eqn:Hg; cbn [orb].
    { unfold refetch, execute. now rewrite Hg. }
    assert (Hl : lastRequestDataRef s2 = Some p).
    { subst s2. rewrite (proj1 (resume_remembers _ _ _ _ _)).
      now apply execute_remembers. }
    destruct (deduplicated options loading1 t1 s2) eqn:Hd.
    - unfold refetch, execute. rewrite Hl, Hg. cbv zeta.
      change (deduplicated options loading1 t1 (set_lastRequestData (Some p) s2))
        with (deduplicated options loading1 t1 s2).
      now rewrite Hd.
    - exact (refetch_invokes options loading1 t1 p formData s2 Hg Hd Hl Hp). }
  split; [exact H|]. split.
  - unfold onFocus. rewrite andb_true_r.
    now destruct (revalidateOnFocus options).
  - unfold onFocus. now rewrite andb_false_r.
Qed.

Lemma refetch_replays_last_payload_witness :
  snd (refetch cached false 9000 holding)
  = [Invoke 1 [("id", Transform.EntryString "u1")]]
  /\ snd (onFocus cached true false 9000 holding)
     = [Invoke 1 [("id", Transform.EntryString "u1")]].
Proof.
  destruct (refetch_replays_last_payload cached sample_payload
              [("id", Transform.EntryString "u1")] false 1000 initial
              eq_refl 0 1200 sample_success false 9000)
    as (Hr & Hf & _).
  exact (conj Hr Hf).
Defined.

(** While the request is in flight, a [refetch] by the render that sees it
    loading sends nothing within [dedupingInterval]. *)
Lemma refetch_in_flight_sends_nothing :
  lastRequestDataRef in_flight = Some sample_payload
  /\ refetch defaults (loading in_flight) 1100 in_flight = (in_flight, []).
Proof. vm_compute. split; reflexivity. Qed.

(** *** Mounting *)

Lemma execute_mounted options loading now requestData s :
  isMountedRef (fst (execute options loading now requestData s)) = isMountedRef s.
Proof.
  unfold execute. destruct (gate_closed options); [reflexivity|].
  destruct requestData as [d|];
    (destruct (deduplicated options loading now _); [reflexivity|]);
    destruct (Request.to_FormData _); cbn [fst];
    cbn [setError setLoading new_controller isMountedRef];
    unfold abort_current;
    match goal with
    | |- context [match abortControllerRef ?x with _ => _ end] =>
        destruct (abortControllerRef x)
    end; reflexivity.
Qed.

Lemma mount_mounted options loading now s :
  isMountedRef (fst (mount options loading now s)) = true.
Proof.
  unfold mount. destruct (isMountedRef s) eqn:E; [exact E|].
  destruct (negb (executeOnMount options)); [reflexivity|].
  destruct (condition options) as [[|]|];
    try destruct (revalidateOnMount options);
    try reflexivity; now rewrite execute_mounted.
Qed.

(** The mount effect runs its body once: when it runs again, with whatever
    closure and at whatever time, it changes nothing and invokes nothing. *)
Theorem mount_runs_once options loading now loading' now' s :
  let mounted := fst (mount options loading now s) in
  mount options loading' now' mounted = (mounted, []).
Proof.
  cbv zeta. unfold mount at 1. now rewrite mount_mounted.
Qed.

(** *** The condition *)

(** While [condition] is false the hook never starts a request: in every
    session it can reach no controller was ever created, loading is false
    and no error is shown, and [execute], [refetch], a focus event and the
    mount effect invoke nothing. *)
Theorem closed_gate_never_invokes options s :
  gate_closed options = true ->
  reachable options s ->
  (issued s = 0 /\ abortControllerRef s = None
   /\ loading s = false /\ error s = VUndefined)
  /\ (forall loading now requestData,
        execute options loading now requestData s = (s, []))
  /\ (forall loading now, refetch options loading now s = (s, []))
  /\ (forall visible loading now, onFocus options visible loading now s = (s, []))
  /\ (forall loading now, snd (mount options loading now s) = []).
Proof.
  intros Hg Hr.
  assert (He : forall loading now requestData s0,
             execute options loading now requestData s0 = (s0, [])).
  { intros. unfold execute. now rewrite Hg. }
  assert (Hc : condition options = Some false).
  { unfold gate_closed in Hg. destruct (condition options) as [[|]|];
      now try discriminate Hg. }
  split; [|split; [|split; [|split]]].
  - induction Hr as [|s s' _ IH Hstep]; [now repeat split|].
    destruct IH as (Hi & Ha & Hl & Herr).
    destruct Hstep as [loading now requestData s0|signal now outcome s0 Hs|s0
                      |d s0|f s0|h s0|loading now s0|s0].
    + rewrite He. now repeat split.
    + lia.
    + unfold reset, clear_cache_timeout, abort_current.
      cbn [set_lastRequestData setError setData abortControllerRef cacheTimeoutRef].
      rewrite Ha. cbn [set_lastRequestData setError setData cacheTimeoutRef].
      destruct (cacheTimeoutRef s0); now repeat split.
    + unfold mutate, clear_cache_timeout. cbn [setData cacheTimeoutRef].
      destruct (cacheTimeoutRef s0); now repeat split.
    + now repeat split.
    + unfold timeout_fires. destruct (existsb _ (timers s0)); now repeat split.
    + unfold mount. rewrite Hc.
      destruct (isMountedRef s0); [now repeat split|].
      destruct (negb (executeOnMount options)); now repeat split.
    + unfold unmount, clear_cache_timeout, abort_current. rewrite Ha.
      destruct (cacheTimeoutRef s0); now repeat split.
  - intros. apply He.
  - intros. apply He.
  - intros. unfold onFocus, refetch. rewrite He. now destruct (_ && _).
  - intros. unfold mount. rewrite Hc.
    destruct (isMountedRef s); [reflexivity|].
    now destruct (negb (executeOnMount options)).
Qed.

Lemma closed_gate_never_invokes_witness :
  let s := mutate (VStr "local") (fst (mount gated false 1000 initial)) in
  loading s = false
  /\ execute gated false 2000 (Some sample_payload) s = (s, []).
Proof.
  assert (Hr : reachable gated
                 (mutate (VStr "local") (fst (mount gated false 1000 initial)))).
  { eapply reachable_step.
    - eapply reachable_step; [apply reachable_initial|].
      apply (step_mount gated false 1000 initial).
    - apply step_mutate. }
  destruct (closed_gate_never_invokes gated _ eq_refl Hr)
    as ((_ & _ & Hl & _) & He & _).
  exact (conj Hl (He false 2000%Z (Some sample_payload))).
Defined.

End SessionFacts.
